(** * NFT pipeline MCP server: the upload, metadata and build_complete handlers

    A shallow embedding of
      - src/tools/ipfs/nft_upload_to_ipfs.ts      ([handleUploadToIPFS])
      - src/tools/ipfs/nft_create_metadata.ts     ([handleCreateMetadata])
      - src/tools/combined/nft_create_package.ts  ([handleCreatePackage])
    and of the filename slug shared with src/tools/image/nft_generate_image.ts.

    Conventions.
      - A JavaScript string is a [string]; the model is exact on ASCII text
        (case mapping and the character classes of the regular expressions
        are the ASCII ones).
      - An optional field ([undefined] when missing) is an [option].
      - Everything outside the process (image generator, HTTP, file system,
        clock) is an oracle of a [World]; each call is appended to a log.
      - A handler is a computation in a state-and-exception monad over that
        log: [throw] and [try .. catch] are the JavaScript ones. *)

From Stdlib Require Import String Ascii List ZArith Lia Bool.
From Stdlib Require Import DecimalString.
Import ListNotations.
Local Open Scope string_scope.

(** ** JavaScript strings *)

Module Js.

Definition quote : string := String (ascii_of_nat 34) EmptyString.

(** [!s] for an optional string: [undefined] and the empty string are falsy. *)
Definition truthy (o : option string) : bool :=
  match o with
  | Some s => negb (s =? "")
  | None => false
  end.

(** [a || b] on optional strings. *)
Definition or (a b : option string) : option string :=
  if truthy a then a else b.

(** [a || 'literal']: the right operand is a string, so is the result. *)
Definition or_str (a : option string) (b : string) : string :=
  match a with
  | Some s => if s =? "" then b else s
  | None => b
  end.

(** [a || undefined]: a string only when it is not empty. *)
Definition nonempty (o : option string) : option string :=
  if truthy o then o else None.

(** A template literal hole [${x}] filled with an optional string. *)
Definition interp (o : option string) : string :=
  match o with
  | Some s => s
  | None => "undefined"
  end.

(** [`${n}`] for an integral number. *)
Definition of_Z (z : Z) : string := NilZero.string_of_int (Z.to_int z).

Definition between (lo hi c : ascii) : bool :=
  (nat_of_ascii lo <=? nat_of_ascii c)%nat && (nat_of_ascii c <=? nat_of_ascii hi)%nat.

Definition lower_char (c : ascii) : ascii :=
  if between "A" "Z" c then ascii_of_nat (nat_of_ascii c + 32) else c.

(** [s.toLowerCase()] on ASCII text. The case mapping of JavaScript outside
    ASCII is not modelled: there it can produce ASCII letters (U+212A, the
    Kelvin sign, becomes [k]) or more than one character. *)
Fixpoint toLowerCase (s : string) : string :=
  match s with
  | EmptyString => EmptyString
  | String c r => String (lower_char c) (toLowerCase r)
  end.

(** [s.substring(0, n)] *)
Fixpoint take (n : nat) (s : string) : string :=
  match n, s with
  | S k, String c r => String c (take k r)
  | _, _ => EmptyString
  end.

(** [s.includes(c)] for a one-character needle. *)
Fixpoint includes_char (c : ascii) (s : string) : bool :=
  match s with
  | EmptyString => false
  | String d r => Ascii.eqb d c || includes_char c r
  end.

(** [s.split(c).pop()]: what follows the last [c], the whole of [s] when
    there is none. [acc] is the segment read so far. *)
Fixpoint last_segment_from (c : ascii) (acc s : string) : string :=
  match s with
  | EmptyString => acc
  | String d r =>
      if Ascii.eqb d c then last_segment_from c EmptyString r
      else last_segment_from c (acc ++ String d EmptyString) r
  end.

Definition split_pop (c : ascii) (s : string) : string :=
  last_segment_from c EmptyString s.

(** [s.endsWith(c)] *)
Fixpoint ends_with_char (c : ascii) (s : string) : bool :=
  match s with
  | EmptyString => false
  | String d EmptyString => Ascii.eqb d c
  | String _ r => ends_with_char c r
  end.

(** [s.startsWith(p)] *)
Fixpoint startsWith (p s : string) : bool :=
  match p, s with
  | EmptyString, _ => true
  | String _ _, EmptyString => false
  | String a p', String b s' => Ascii.eqb b a && startsWith p' s'
  end.

(** [s.includes(p)] *)
Fixpoint includes (p s : string) : bool :=
  startsWith p s ||
  match s with
  | EmptyString => false
  | String _ r => includes p r
  end.

End Js.

(** ** The filename slug

    [nft_create_package.ts] lines 76-80 and [nft_generate_image.ts] lines
    35-39 are the same chain:
<<
      .toLowerCase()
      .replace(/[^a-z0-9]+/g, '-')
      .replace(/^-+|-+$/g, '')
      .substring(0, 50)
>> *)

Module Slug.

(** The class [[a-z0-9]]. *)
Definition alnum (c : ascii) : bool :=
  Js.between "a" "z" c || Js.between "0" "9" c.

Definition hyphen : ascii := "-"%char.

(** [.replace(/[^a-z0-9]+/g, '-')]: a left-to-right scan; [in_run] says that
    the previous character already belonged to the current match. *)
Fixpoint hyphenate_from (in_run : bool) (s : string) : string :=
  match s with
  | EmptyString => EmptyString
  | String c r =>
      if alnum c then String c (hyphenate_from false r)
      else if in_run then hyphenate_from true r
      else String hyphen (hyphenate_from true r)
  end.

Definition hyphenate (s : string) : string := hyphenate_from false s.

(** The alternative [^-+]: the hyphens at the very start. *)
Fixpoint strip_leading (s : string) : string :=
  match s with
  | String c r => if Ascii.eqb c hyphen then strip_leading r else s
  | EmptyString => EmptyString
  end.

Fixpoint all_hyphens (s : string) : bool :=
  match s with
  | EmptyString => true
  | String c r => Ascii.eqb c hyphen && all_hyphens r
  end.

(** The alternative [-+$]: it matches at a position exactly when only
    hyphens remain from there to the end. *)
Fixpoint strip_trailing (s : string) : string :=
  match s with
  | EmptyString => EmptyString
  | String c r => if all_hyphens s then EmptyString else String c (strip_trailing r)
  end.

(** [.replace(/^-+|-+$/g, '')] *)
Definition strip (s : string) : string := strip_trailing (strip_leading s).

Definition slug (s : string) : string :=
  Js.take 50 (strip (hyphenate (Js.toLowerCase s))).

(** The shape every slug has: characters of [[a-z0-9-]], no two hyphens in a
    row, and no hyphen first when [after_hyphen] is set. *)
Fixpoint slugged (after_hyphen : bool) (s : string) : bool :=
  match s with
  | EmptyString => true
  | String c r =>
      if alnum c then slugged false r
      else Ascii.eqb c hyphen && negb after_hyphen && slugged true r
  end.

Fixpoint forallb_string (p : ascii -> bool) (s : string) : bool :=
  match s with
  | EmptyString => true
  | String c r => p c && forallb_string p r
  end.

Definition slug_char (c : ascii) : bool := alnum c || Ascii.eqb c hyphen.

End Slug.

(** ** JSON text of a flat object: [JSON.stringify(obj, null, 2)] *)

Module Json.

Definition hex_digit (n : nat) : ascii :=
  if (n <? 10)%nat then ascii_of_nat (48 + n) else ascii_of_nat (87 + n).

Definition backslash : string := String (ascii_of_nat 92) EmptyString.

Definition escape_char (c : ascii) : string :=
  let n := nat_of_ascii c in
  if (n =? 34)%nat then backslash ++ Js.quote
  else if (n =? 92)%nat then backslash ++ backslash
  else if (n =? 8)%nat then backslash ++ "b"
  else if (n =? 9)%nat then backslash ++ "t"
  else if (n =? 10)%nat then backslash ++ "n"
  else if (n =? 12)%nat then backslash ++ "f"
  else if (n =? 13)%nat then backslash ++ "r"
  else if (n <? 32)%nat then
    backslash ++ "u00" ++ String (hex_digit (n / 16)) (String (hex_digit (n mod 16)) EmptyString)
  else String c EmptyString.

Fixpoint escape (s : string) : string :=
  match s with
  | EmptyString => EmptyString
  | String c r => escape_char c ++ escape r
  end.

Definition quoted (s : string) : string := Js.quote ++ escape s ++ Js.quote.

Inductive scalar : Type :=
  | Bool (b : bool)
  | Str (s : string).

Definition scalar_text (v : scalar) : string :=
  match v with
  | Bool true => "true"
  | Bool false => "false"
  | Str s => quoted s
  end.

Definition newline : string := String (ascii_of_nat 10) EmptyString.

(** A property whose value is [undefined] is left out. *)
Fixpoint members (fields : list (string * option scalar)) : list string :=
  match fields with
  | [] => []
  | (k, Some v) :: rest => ("  " ++ quoted k ++ ": " ++ scalar_text v) :: members rest
  | (_, None) :: rest => members rest
  end.

Definition stringify (fields : list (string * option scalar)) : string :=
  match members fields with
  | [] => "{}"
  | ms => "{" ++ newline ++ String.concat ("," ++ newline) ms ++ newline ++ "}"
  end.

End Json.

(** ** Shared data: src/types/index.ts and the zod schemas *)

Inductive Service : Type := pinata | nftStorage | web3Storage.

Definition service_name (s : Service) : string :=
  match s with
  | pinata => "pinata"
  | nftStorage => "nftStorage"
  | web3Storage => "web3Storage"
  end.

Inductive Style : Type := realistic | artistic | cartoon | fantasy | cyberpunk | minimalist.
Inductive AspectRatio : Type := ratio_1_1 | ratio_16_9 | ratio_9_16 | ratio_4_3 | ratio_3_4.
Inductive Quality : Type := standard | high | ultra.

(** [value: z.union([z.string(), z.number()])]; numbers are carried through
    untouched, integers stand for them. *)
Inductive TraitValue : Type :=
  | TraitString (s : string)
  | TraitNumber (n : Z).

Record Attribute : Type := { trait_type : string; value : TraitValue }.

(** [z.record(z.any())] *)
#[warnings="-register-all"]
Inductive JsonValue : Type :=
  | JNull
  | JBool (b : bool)
  | JNumber (n : Z)
  | JString (s : string)
  | JArray (items : list JsonValue)
  | JObject (members : list (string * JsonValue)).

(** The metadata document assembled by [handleCreateMetadata]. *)
Record NFTMetadata : Type := {
  md_name : string;
  md_description : string;
  md_image : string;
  md_external_url : option string;
  md_attributes : list Attribute;
  md_properties : list (string * JsonValue)
}.

Record ImageGenerationRequest : Type := {
  req_prompt : string;
  req_style : option Style;
  req_aspectRatio : option AspectRatio;
  req_quality : option Quality;
  req_seed : option Z;
  req_model : option string
}.

(** [ImageGenerationResult] of src/types/index.ts ([cost] is not read by the
    handlers below and is left out). *)
Record ImageGenerationResult : Type := {
  res_success : bool;
  res_imageUrl : option string;
  res_localPath : option string;
  res_prompt : string;
  res_model : string;
  res_error : option string
}.

(** ** Exceptions

    Every thrown value is read through [.message] and [.response] only. An
    axios error for a non-2xx answer carries [response = Some (status, body)],
    [body] being [JSON.stringify(error.response.data)]. *)

Record JsError : Type := {
  message : string;
  response : option (Z * string)
}.

(** [new Error(m)] *)
Definition Error (m : string) : JsError := {| message := m; response := None |}.

(** ** The outside world and its log *)

(** The first argument of [formData.append('file', ...)]. The metadata buffer
    is [Buffer.from(JSON.stringify(metadata, null, 2))]; it is kept as the
    document it serialises. *)
Inductive Buffer : Type :=
  | Bytes (b : string)
  | MetadataJson (m : NFTMetadata).

Record FormData : Type := {
  form_file : Buffer;
  form_filename : string;
  form_network : option string
}.

Inductive IoEvent : Type :=
  | EvGenerate (req : ImageGenerationRequest)
  | EvGet (url : string)
  | EvReadFile (path : string)
  | EvPost (url : string) (form : FormData) (authorization : string).

(** Each oracle sees the external calls made so far, so that a service may
    answer two equal requests differently.
    [generateImage] is [imageGenerator.generateImage] of
    utils/ai-image-generation.ts, which calls the image providers: it is
    taken at its interface, a request answered by an [ImageGenerationResult]
    or by an exception.
    [axios_post] answers with the [cid] the handler reads from the body
    ([data.data.cid], [data.value.cid] or [data.cid]), [None] when the
    property is missing; a body on which that property access throws is an
    [inl] without [response]. *)
Record World : Type := {
  process_env : string -> option string;
  Date_now : list IoEvent -> Z;
  generateImage : list IoEvent -> ImageGenerationRequest -> JsError + ImageGenerationResult;
  axios_get : list IoEvent -> string -> JsError + string;
  readFileSync : list IoEvent -> string -> JsError + string;
  axios_post : list IoEvent -> string -> FormData -> string -> JsError + option string
}.

(** One issue of a [ZodError]. *)
Record ZodIssue : Type := { issue_path : list string; issue_message : string }.

(** Library functions whose results are taken as given:
    the [.url()] check of zod, the [.message] of a [ZodError] with the given
    issues, and [new URL(s).pathname] ([inl] when the constructor throws). *)
Record Library : Type := {
  zod_url : string -> bool;
  ZodError_message : list ZodIssue -> string;
  URL_pathname : string -> JsError + string
}.

(** ** zod helpers *)

Module Zod.

(** [z.string()] on a required key: a missing value aborts the object. *)
Definition required (key : string) (v : option string) : list ZodIssue :=
  match v with
  | Some _ => []
  | None => [{| issue_path := [key]; issue_message := "Required" |}]
  end.

Definition missing (v : option string) : bool :=
  match v with
  | Some _ => false
  | None => true
  end.

(** [z.string().url().optional()]: a failed check leaves the object dirty,
    not aborted. *)
Definition optional_url (lib : Library) (key : string) (v : option string) : list ZodIssue :=
  match v with
  | Some u =>
      if zod_url lib u then []
      else [{| issue_path := [key]; issue_message := "Invalid url" |}]
  | None => []
  end.

(** [.refine(pred, { message })]: run on the object unless a key aborted. *)
Definition refine (aborted : bool) (holds : bool) (msg : string) : list ZodIssue :=
  if aborted then []
  else if holds then []
  else [{| issue_path := []; issue_message := msg |}].

Definition ZodError (lib : Library) (issues : list ZodIssue) : JsError :=
  {| message := ZodError_message lib issues; response := None |}.

(** [schema.parse]: the value when there is no issue, a [ZodError] thrown
    otherwise. *)
Definition result {A} (lib : Library) (issues : list ZodIssue) (v : A) : JsError + A :=
  match issues with
  | [] => inr v
  | _ => inl (ZodError lib issues)
  end.

End Zod.

(** ** The three schemas *)

(** nft_upload_to_ipfs.ts, lines 6-14. *)
Module Upload.

Record Args : Type := {
  imageUrl : option string;
  imagePath : option string;
  fileName : option string;
  service : option Service;
  apiKey : option string
}.

(** The parsed value: [fileName] has its default. *)
Record Parsed : Type := {
  p_imageUrl : option string;
  p_imagePath : option string;
  p_fileName : string;
  p_service : option Service;
  p_apiKey : option string
}.

Definition issues (lib : Library) (a : Args) : list ZodIssue :=
  Zod.optional_url lib "imageUrl" (imageUrl a)
  ++ Zod.refine false (Js.truthy (imageUrl a) || Js.truthy (imagePath a))
       "Either imageUrl or imagePath must be provided".

Definition parse (lib : Library) (a : Args) : JsError + Parsed :=
  Zod.result lib (issues lib a)
    {| p_imageUrl := imageUrl a;
       p_imagePath := imagePath a;
       p_fileName := match fileName a with Some f => f | None => "image.png" end;
       p_service := service a;
       p_apiKey := apiKey a |}.

(** The object serialised into [content[0].text]. *)
Record Envelope : Type := {
  out_success : bool;
  out_cid : option string;
  out_ipfsUrl : string;
  out_gatewayUrl : string;
  out_service : string;
  out_fileName : string;
  out_message : string
}.

(** [JSON.stringify({ success, cid, ... }, null, 2)] *)
Definition text (e : Envelope) : string :=
  Json.stringify
    [ ("success", Some (Json.Bool (out_success e)));
      ("cid", option_map Json.Str (out_cid e));
      ("ipfsUrl", Some (Json.Str (out_ipfsUrl e)));
      ("gatewayUrl", Some (Json.Str (out_gatewayUrl e)));
      ("service", Some (Json.Str (out_service e)));
      ("fileName", Some (Json.Str (out_fileName e)));
      ("message", Some (Json.Str (out_message e))) ].

End Upload.

(** nft_create_metadata.ts, lines 10-19. *)
Module Metadata.

Record Args : Type := {
  name : option string;
  description : option string;
  imageHash : option string;
  external_url : option string;
  attributes : option (list Attribute);
  properties : option (list (string * JsonValue));
  service : option Service;
  apiKey : option string
}.

Record Parsed : Type := {
  p_name : string;
  p_description : string;
  p_imageHash : string;
  p_external_url : option string;
  p_attributes : option (list Attribute);
  p_properties : option (list (string * JsonValue));
  p_service : option Service;
  p_apiKey : option string
}.

Definition issues (lib : Library) (a : Args) : list ZodIssue :=
  Zod.required "name" (name a)
  ++ Zod.required "description" (description a)
  ++ Zod.required "imageHash" (imageHash a)
  ++ Zod.optional_url lib "external_url" (external_url a).

Definition parse (lib : Library) (a : Args) : JsError + Parsed :=
  Zod.result lib (issues lib a)
    {| p_name := Js.interp (name a);
       p_description := Js.interp (description a);
       p_imageHash := Js.interp (imageHash a);
       p_external_url := external_url a;
       p_attributes := attributes a;
       p_properties := properties a;
       p_service := service a;
       p_apiKey := apiKey a |}.

Record Envelope : Type := {
  out_success : bool;
  out_metadataCid : option string;
  out_ipfsUrl : string;
  out_gatewayUrl : string;
  out_metadata : NFTMetadata;
  out_service : string;
  out_message : string
}.

End Metadata.

(** nft_create_package.ts, lines 11-34. *)
Module Package.

Record Args : Type := {
  prompt : option string;
  imageUrl : option string;
  imagePath : option string;
  style : option Style;
  aspectRatio : option AspectRatio;
  quality : option Quality;
  name : option string;
  description : option string;
  external_url : option string;
  attributes : option (list Attribute);
  properties : option (list (string * JsonValue));
  ipfsService : option Service;
  ipfsApiKey : option string
}.

(** The parsed value: [name] and [description] are present, [aspectRatio]
    and [quality] have their defaults. *)
Record Parsed : Type := {
  p_prompt : option string;
  p_imageUrl : option string;
  p_imagePath : option string;
  p_style : option Style;
  p_aspectRatio : AspectRatio;
  p_quality : Quality;
  p_name : string;
  p_description : string;
  p_external_url : option string;
  p_attributes : option (list Attribute);
  p_properties : option (list (string * JsonValue));
  p_ipfsService : option Service;
  p_ipfsApiKey : option string
}.

(** [data => data.prompt || data.imageUrl || data.imagePath] *)
Definition has_source (a : Args) : bool :=
  Js.truthy (prompt a) || Js.truthy (imageUrl a) || Js.truthy (imagePath a).

Definition issues (lib : Library) (a : Args) : list ZodIssue :=
  Zod.optional_url lib "imageUrl" (imageUrl a)
  ++ Zod.required "name" (name a)
  ++ Zod.required "description" (description a)
  ++ Zod.optional_url lib "external_url" (external_url a)
  ++ Zod.refine (Zod.missing (name a) || Zod.missing (description a)) (has_source a)
       "Must provide either prompt, imageUrl, or imagePath".

Definition parse (lib : Library) (a : Args) : JsError + Parsed :=
  Zod.result lib (issues lib a)
    {| p_prompt := prompt a;
       p_imageUrl := imageUrl a;
       p_imagePath := imagePath a;
       p_style := style a;
       p_aspectRatio := match aspectRatio a with Some r => r | None => ratio_1_1 end;
       p_quality := match quality a with Some q => q | None => high end;
       p_name := Js.interp (name a);
       p_description := Js.interp (description a);
       p_external_url := external_url a;
       p_attributes := attributes a;
       p_properties := properties a;
       p_ipfsService := ipfsService a;
       p_ipfsApiKey := ipfsApiKey a |}.

(** The object serialised by the final [return]. *)
Record Envelope : Type := {
  out_success : bool;
  out_imageCid : string;
  out_metadataCid : option string;
  out_imageUrl : string;
  out_metadataUrl : string;
  out_ipfsImageUrl : string;
  out_ipfsMetadataUrl : string;
  out_metadata : NFTMetadata;
  out_generatedPrompt : option string;
  out_service : string;
  out_message : string;
  out_nextSteps : list string
}.

End Package.

(** ** The monad of a handler *)

(** The handlers that [handleCreatePackage] calls, with their arguments. *)
Inductive Invocation : Type :=
  | InvUpload (a : Upload.Args)
  | InvMetadata (a : Metadata.Args).

(** [io]: the external calls, oldest first. [invoked]: the inner handler
    calls, oldest first. *)
Record Log : Type := { io : list IoEvent; invoked : list Invocation }.

Definition start : Log := {| io := []; invoked := [] |}.

Definition M (A : Type) : Type := Log -> Log * (JsError + A).

Definition ret {A} (a : A) : M A := fun l => (l, inr a).

Definition throw {A} (e : JsError) : M A := fun l => (l, inl e).

Definition bind {A B} (m : M A) (k : A -> M B) : M B :=
  fun l =>
    match m l with
    | (l', inr a) => k a l'
    | (l', inl e) => (l', inl e)
    end.

(** [try { m } catch (error) { h error }] *)
Definition try_catch {A} (m : M A) (h : JsError -> M A) : M A :=
  fun l =>
    match m l with
    | (l', inl e) => h e l'
    | r => r
    end.

(** A library call that returns or throws. *)
Definition lift {A} (r : JsError + A) : M A := fun l => (l, r).

(** An external call: logged, then answered by the oracle from the calls
    that came before it. *)
Definition external {A} (ev : IoEvent) (answer : list IoEvent -> JsError + A) : M A :=
  fun l => ({| io := io l ++ [ev]; invoked := invoked l |}, answer (io l)).

(** [Date.now()]: reading the clock is not logged. *)
Definition clock (w : World) : M Z := fun l => (l, inr (Date_now w (io l))).

(** An inner handler call. *)
Definition invoke {A} (i : Invocation) (m : M A) : M A :=
  fun l => m {| io := io l; invoked := invoked l ++ [i] |}.

Declare Scope js_scope.
Delimit Scope js_scope with js.
Notation "x <- m ;; k" := (bind m (fun x => k))
  (at level 61, m at next level, right associativity) : js_scope.
Local Open Scope js_scope.

(** ** nft_upload_to_ipfs.ts *)

(** [serviceEnvMap[service]], for a [service] that is not the name of a
    property that an object literal inherits from [Object.prototype]
    ([constructor], [toString], ...): for such a name JavaScript finds a
    function, not [undefined]. *)
Definition serviceEnvMap (service : string) : option string :=
  if service =? "pinata" then Some "PINATA_API_KEY"
  else if service =? "nftStorage" then Some "NFT_STORAGE_API_KEY"
  else if service =? "web3Storage" then Some "WEB3_STORAGE_API_KEY"
  else None.

(** [parsed.service || process.env.IPFS_SERVICE || 'pinata'] *)
Definition resolve_service (w : World) (service : option Service) : string :=
  Js.or_str (Js.or (option_map service_name service) (process_env w "IPFS_SERVICE")) "pinata".

(** [parsed.apiKey || process.env[serviceEnvMap[service]] || '']; an
    unmapped service indexes [process.env] with [undefined]. *)
Definition resolve_apiKey (w : World) (service : string) (apiKey : option string) : string :=
  Js.or_str (Js.or apiKey (process_env w (Js.interp (serviceEnvMap service)))) "".

Definition missing_key_message (service : string) : string :=
  "API key/JWT required for " ++ service ++ ". Set " ++ Js.interp (serviceEnvMap service)
  ++ " in environment or pass as apiKey parameter.".

Definition post (w : World) (url : string) (form : FormData) (apiKey : string) : M (option string) :=
  let authorization := "Bearer " ++ apiKey in
  external (EvPost url form authorization) (fun h => axios_post w h url form authorization).

(** Lines 62-120 of nft_upload_to_ipfs.ts and 58-116 of
    nft_create_metadata.ts: the same branching over the service, on a buffer
    and a filename. *)
Definition upload_by_service (w : World) (service apiKey : string) (buffer : Buffer)
    (fileName : string) : M (option string * string) :=
  if service =? "pinata" then
    cid <- post w "https://uploads.pinata.cloud/v3/files"
             {| form_file := buffer; form_filename := fileName; form_network := Some "public" |}
             apiKey ;;
    ret (cid, "https://gateway.pinata.cloud/ipfs/" ++ Js.interp cid)
  else if service =? "nftStorage" then
    cid <- post w "https://api.nft.storage/upload"
             {| form_file := buffer; form_filename := fileName; form_network := None |}
             apiKey ;;
    ret (cid, "https://nftstorage.link/ipfs/" ++ Js.interp cid)
  else if service =? "web3Storage" then
    cid <- post w "https://api.web3.storage/upload"
             {| form_file := buffer; form_filename := fileName; form_network := None |}
             apiKey ;;
    ret (cid, "https://w3s.link/ipfs/" ++ Js.interp cid)
  else throw (Error ("Unsupported IPFS service: " ++ service)).

Definition auth_403_message (data : string) : string :=
  "Pinata authentication failed (403): Ensure your JWT has " ++ Js.quote ++ "Files" ++ Js.quote
  ++ " Write permission enabled. Response: " ++ data.

Definition auth_401_message (data : string) : string :=
  "Invalid Pinata JWT (401): Check that your JWT is correct and not expired. Response: " ++ data.

(** Lines 41-56: the bytes and the filename. *)
Definition read_image (lib : Library) (w : World) (parsed : Upload.Parsed) : M (string * string) :=
  match Js.nonempty (Upload.p_imageUrl parsed) with
  | Some url =>
      data <- external (EvGet url) (fun h => axios_get w h url) ;;
      urlPath <- lift (URL_pathname lib url) ;;
      let urlFileName := Js.split_pop "/" urlPath in
      ret (data,
           if negb (urlFileName =? "") && Js.includes_char "." urlFileName
           then urlFileName
           else Upload.p_fileName parsed)
  | None =>
      match Js.nonempty (Upload.p_imagePath parsed) with
      | Some path =>
          data <- external (EvReadFile path) (fun h => readFileSync w h path) ;;
          ret (data, Js.or_str (Some (Js.split_pop "/" path)) (Upload.p_fileName parsed))
      | None => throw (Error "No image source provided")
      end
  end.

(** Lines 137-153: the [catch] block. *)
Definition upload_catch {A} (error : JsError) : M A :=
  match response error with
  | Some (status, data) =>
      if (status =? 403)%Z then throw (Error (auth_403_message data))
      else if (status =? 401)%Z then throw (Error (auth_401_message data))
      else throw (Error ("IPFS upload failed (" ++ Js.of_Z status ++ "): " ++ data))
  | None => throw (Error ("IPFS upload failed: " ++ message error))
  end.

Definition handleUploadToIPFS (lib : Library) (w : World) (args : Upload.Args) : M Upload.Envelope :=
  try_catch
    (parsed <- lift (Upload.parse lib args) ;;
     let service := resolve_service w (Upload.p_service parsed) in
     let apiKey := resolve_apiKey w service (Upload.p_apiKey parsed) in
     if apiKey =? "" then throw (Error (missing_key_message service))
     else
       image <- read_image lib w parsed ;;
       let '(imageBuffer, fileName) := image in
       stored <- upload_by_service w service apiKey (Bytes imageBuffer) fileName ;;
       let '(cid, gatewayUrl) := stored in
       ret {| Upload.out_success := true;
              Upload.out_cid := cid;
              Upload.out_ipfsUrl := "ipfs://" ++ Js.interp cid;
              Upload.out_gatewayUrl := gatewayUrl;
              Upload.out_service := service;
              Upload.out_fileName := fileName;
              Upload.out_message := "Image uploaded to IPFS successfully" |})
    upload_catch.

(** ** nft_create_metadata.ts *)

(** Lines 43-50. *)
Definition build_metadata (parsed : Metadata.Parsed) : NFTMetadata :=
  {| md_name := Metadata.p_name parsed;
     md_description := Metadata.p_description parsed;
     md_image := "ipfs://" ++ Metadata.p_imageHash parsed;
     md_external_url := Metadata.p_external_url parsed;
     md_attributes := match Metadata.p_attributes parsed with Some l => l | None => [] end;
     md_properties := match Metadata.p_properties parsed with Some l => l | None => [] end |}.

(** Lines 133-149: the [catch] block. *)
Definition metadata_catch {A} (error : JsError) : M A :=
  match response error with
  | Some (status, data) =>
      if (status =? 403)%Z then throw (Error (auth_403_message data))
      else if (status =? 401)%Z then throw (Error (auth_401_message data))
      else throw (Error ("Metadata upload failed (" ++ Js.of_Z status ++ "): " ++ data))
  | None => throw (Error ("Metadata creation failed: " ++ message error))
  end.

Definition handleCreateMetadata (lib : Library) (w : World) (args : Metadata.Args)
    : M Metadata.Envelope :=
  try_catch
    (parsed <- lift (Metadata.parse lib args) ;;
     let service := resolve_service w (Metadata.p_service parsed) in
     let apiKey := resolve_apiKey w service (Metadata.p_apiKey parsed) in
     if apiKey =? "" then throw (Error (missing_key_message service))
     else
       let metadata := build_metadata parsed in
       stored <- upload_by_service w service apiKey (MetadataJson metadata) "metadata.json" ;;
       let '(metadataCid, gatewayUrl) := stored in
       ret {| Metadata.out_success := true;
              Metadata.out_metadataCid := metadataCid;
              Metadata.out_ipfsUrl := "ipfs://" ++ Js.interp metadataCid;
              Metadata.out_gatewayUrl := gatewayUrl;
              Metadata.out_metadata := metadata;
              Metadata.out_service := service;
              Metadata.out_message := "Metadata uploaded to IPFS successfully" |})
    metadata_catch.

(** ** nft_create_package.ts *)

(** What step 1 leaves in [finalImageUrl], [finalImagePath] and
    [generatedPrompt]. *)
Record ImageSource : Type := {
  finalImageUrl : option string;
  finalImagePath : option string;
  generatedPrompt : option string
}.

(** Step 1 (lines 47-71): get or generate the image. *)
Definition resolve_image (w : World) (parsed : Package.Parsed) : M ImageSource :=
  match Js.nonempty (Package.p_prompt parsed) with
  | Some prompt =>
      let request :=
        {| req_prompt := prompt;
           req_style := Package.p_style parsed;
           req_aspectRatio := Some (Package.p_aspectRatio parsed);
           req_quality := Some (Package.p_quality parsed);
           req_seed := None;
           req_model := None |} in
      imageResult <- external (EvGenerate request) (fun h => generateImage w h request) ;;
      if negb (res_success imageResult)
         || (negb (Js.truthy (res_imageUrl imageResult))
             && negb (Js.truthy (res_localPath imageResult)))
      then throw (Error (Js.or_str (res_error imageResult) "Image generation failed"))
      else ret {| finalImageUrl := res_imageUrl imageResult;
                  finalImagePath := res_localPath imageResult;
                  generatedPrompt := Some (res_prompt imageResult) |}
  | None =>
      match Js.nonempty (Package.p_imageUrl parsed) with
      | Some url =>
          ret {| finalImageUrl := Some url; finalImagePath := None; generatedPrompt := None |}
      | None =>
          match Js.nonempty (Package.p_imagePath parsed) with
          | Some path =>
              ret {| finalImageUrl := None; finalImagePath := Some path; generatedPrompt := None |}
          | None => throw (Error "No image source provided")
          end
      end
  end.

(** Lines 75-81. *)
Definition baseFileName (parsed : Package.Parsed) : string :=
  Js.or_str (Js.or (Some (Package.p_name parsed)) (Package.p_prompt parsed)) "nft-image".

Definition upload_fileName (parsed : Package.Parsed) (now : Z) : string :=
  Slug.slug (baseFileName parsed) ++ "-" ++ Js.of_Z now ++ ".png".

(** The argument of the call of lines 83-89. *)
Definition upload_args (parsed : Package.Parsed) (src : ImageSource) (fileName : string)
    : Upload.Args :=
  {| Upload.imageUrl := Js.nonempty (finalImageUrl src);
     Upload.imagePath := Js.or (finalImagePath src) (Package.p_imagePath parsed);
     Upload.fileName := Some fileName;
     Upload.service := Package.p_ipfsService parsed;
     Upload.apiKey := Package.p_ipfsApiKey parsed |}.

(** Step 2 (lines 73-99): upload the image; the result is
    [(uploadData, imageCid)]. [JSON.parse] of the text that
    [handleUploadToIPFS] serialised gives its envelope back. *)
Definition upload_image (lib : Library) (w : World) (parsed : Package.Parsed) (src : ImageSource)
    : M (Upload.Envelope * string) :=
  now <- clock w ;;
  let args := upload_args parsed src (upload_fileName parsed now) in
  uploadResult <- invoke (InvUpload args) (handleUploadToIPFS lib w args) ;;
  let uploadData := uploadResult in
  if negb (Upload.out_success uploadData)
  then throw (Error ("Image upload to IPFS failed: " ++ Upload.text uploadResult))
  else
    match Js.nonempty (Upload.out_cid uploadData) with
    | Some imageCid => ret (uploadData, imageCid)
    | None =>
        throw (Error ("No CID returned from IPFS upload. Response: " ++ Upload.text uploadResult))
    end.

(** The argument of the call of lines 102-111. *)
Definition metadata_args (parsed : Package.Parsed) (imageCid : string) : Metadata.Args :=
  {| Metadata.name := Some (Package.p_name parsed);
     Metadata.description := Some (Package.p_description parsed);
     Metadata.imageHash := Some imageCid;
     Metadata.external_url := Package.p_external_url parsed;
     Metadata.attributes := Package.p_attributes parsed;
     Metadata.properties := Package.p_properties parsed;
     Metadata.service := Package.p_ipfsService parsed;
     Metadata.apiKey := Package.p_ipfsApiKey parsed |}.

(** Step 3 and the return (lines 101-142). *)
Definition create_metadata (lib : Library) (w : World) (parsed : Package.Parsed)
    (src : ImageSource) (uploadData : Upload.Envelope) (imageCid : string) : M Package.Envelope :=
  let args := metadata_args parsed imageCid in
  metadataData <- invoke (InvMetadata args) (handleCreateMetadata lib w args) ;;
  if negb (Metadata.out_success metadataData)
  then throw (Error "Metadata upload to IPFS failed")
  else
    let metadataCid := Metadata.out_metadataCid metadataData in
    ret {| Package.out_success := true;
           Package.out_imageCid := imageCid;
           Package.out_metadataCid := metadataCid;
           Package.out_imageUrl := Upload.out_gatewayUrl uploadData;
           Package.out_metadataUrl := Metadata.out_gatewayUrl metadataData;
           Package.out_ipfsImageUrl := "ipfs://" ++ imageCid;
           Package.out_ipfsMetadataUrl := "ipfs://" ++ Js.interp metadataCid;
           Package.out_metadata := Metadata.out_metadata metadataData;
           Package.out_generatedPrompt := generatedPrompt src;
           Package.out_service := resolve_service w (Package.p_ipfsService parsed);
           Package.out_message := "NFT package created successfully! Ready for minting.";
           Package.out_nextSteps :=
             [ "Use the metadataCid or ipfsMetadataUrl for NFT minting";
               "The metadata contains the image reference automatically" ] |}.

(** Lines 144-146. *)
Definition package_catch {A} (error : JsError) : M A :=
  throw (Error ("NFT package creation failed: " ++ message error)).

Definition handleCreatePackage (lib : Library) (w : World) (args : Package.Args)
    : M Package.Envelope :=
  try_catch
    (parsed <- lift (Package.parse lib args) ;;
     src <- resolve_image w parsed ;;
     uploaded <- upload_image lib w parsed src ;;
     let '(uploadData, imageCid) := uploaded in
     create_metadata lib w parsed src uploadData imageCid)
    package_catch.

(** ** Test doubles

    A library and worlds on which the handlers can be run: the end-to-end
    scenario of a fox generated from a prompt, and variations of it. *)

Module Double.

(** What follows the first [c] in [s], [None] when there is none. *)
Fixpoint after_char (c : ascii) (s : string) : option string :=
  match s with
  | EmptyString => None
  | String d r => if Ascii.eqb d c then Some r else after_char c r
  end.

Fixpoint until_query (s : string) : string :=
  match s with
  | EmptyString => EmptyString
  | String d r =>
      if Ascii.eqb d "?" || Ascii.eqb d "#" then EmptyString else String d (until_query r)
  end.

(** The path of [scheme://host/path?query#fragment], without normalisation. *)
Definition pathname (url : string) : string :=
  match after_char "/" url with
  | Some (String _ host_on) =>
      match after_char "/" host_on with
      | Some p => "/" ++ until_query p
      | None => "/"
      end
  | _ => "/"
  end.

Definition lib : Library :=
  {| zod_url := fun s => String.prefix "http://" s || String.prefix "https://" s;
     ZodError_message := fun issues => String.concat "; " (map issue_message issues);
     URL_pathname := fun s => inr (pathname s) |}.

Definition env (key : string) : option string :=
  if key =? "PINATA_API_KEY" then Some "jwt" else None.

Definition no_env (key : string) : option string := None.

Definition fox : ImageGenerationResult :=
  {| res_success := true;
     res_imageUrl := Some "http://x/fox.png";
     res_localPath := None;
     res_prompt := "a red fox";
     res_model := "flux";
     res_error := None |}.

(** The storage answers [image] to the upload of bytes and [metadata] to
    the upload of a metadata document. *)
Definition world_with (environment : string -> option string)
    (image metadata : JsError + option string) : World :=
  {| process_env := environment;
     Date_now := fun _ => 1700000000000%Z;
     generateImage := fun _ _ => inr fox;
     axios_get := fun _ _ => inr "PNG";
     readFileSync := fun _ _ => inr "PNG";
     axios_post := fun _ _ form _ =>
       match form_file form with
       | Bytes _ => image
       | MetadataJson _ => metadata
       end |}.

Definition world : World := world_with env (inr (Some "abc123")) (inr (Some "def456")).

Definition forbidden : JsError :=
  {| message := "Request failed with status code 403";
     response := Some (403%Z, "{}") |}.


Definition request (prompt imageUrl imagePath : option string) (name : string) : Package.Args :=
  {| Package.prompt := prompt;
     Package.imageUrl := imageUrl;
     Package.imagePath := imagePath;
     Package.style := None;
     Package.aspectRatio := None;
     Package.quality := None;
     Package.name := Some name;
     Package.description := Some "desc";
     Package.external_url := None;
     Package.attributes := None;
     Package.properties := None;
     Package.ipfsService := None;
     Package.ipfsApiKey := None |}.

Definition fox_request : Package.Args := request (Some "a red fox") None None "Fox #1".

Definition upload_request (imageUrl imagePath fileName : option string) : Upload.Args :=
  {| Upload.imageUrl := imageUrl;
     Upload.imagePath := imagePath;
     Upload.fileName := fileName;
     Upload.service := None;
     Upload.apiKey := None |}.

Definition metadata_request : Metadata.Args :=
  {| Metadata.name := Some "Fox #1";
     Metadata.description := Some "desc";
     Metadata.imageHash := Some "abc123";
     Metadata.external_url := None;
     Metadata.attributes := None;
     Metadata.properties := None;
     Metadata.service := None;
     Metadata.apiKey := None |}.

(** The storage refuses the image; it stores the image and refuses the
    metadata; it stores the image and the metadata upload times out; there
    is no credential. *)
Definition image_refused : World := world_with env (inl forbidden) (inr None).
Definition metadata_refused : World := world_with env (inr (Some "abc123")) (inl forbidden).
Definition no_credential : World := world_with no_env (inr None) (inr None).

(** A name of forty-nine letters, a hyphen and one more letter. *)
Definition long_name : string :=
  "aaaaaaaaaaaaaaaaaaaaaaaaaaaaaaaaaaaaaaaaaaaaaaaaa-b".

Definition url_request : Package.Args := request None (Some "http://x/fox.png") None "Fox #1".

Definition crowded_request : Package.Args :=
  request (Some "a red fox") (Some "http://x/other.png") (Some "/tmp/other.png") "Fox #1".

End Double.

(** ** Vocabulary of the statements *)

Definition is_generate (ev : IoEvent) : bool :=
  match ev with
  | EvGenerate _ => true
  | _ => false
  end.

(** A storage upload of a metadata document. *)
Definition is_metadata_post (ev : IoEvent) : bool :=
  match ev with
  | EvPost _ form _ =>
      match form_file form with
      | MetadataJson _ => true
      | Bytes _ => false
      end
  | _ => false
  end.


(** [m] only appends to the log: external calls satisfying [Q] and inner
    handler calls satisfying [R]. *)
Definition appends {A} (Q : IoEvent -> Prop) (R : Invocation -> Prop) (m : M A) : Prop :=
  forall l, exists evs invs,
    io (fst (m l)) = (io l ++ evs)%list /\ invoked (fst (m l)) = (invoked l ++ invs)%list
    /\ Forall Q evs /\ Forall R invs.

(** [m] and [m'] cannot be told apart from outside: started after the same
    external calls they give the same result and make the same external
    calls, whatever the record of inner handler calls. *)
Definition io_equiv {A} (m m' : M A) : Prop :=
  forall l l', io l = io l' ->
    snd (m l) = snd (m' l') /\ io (fst (m l)) = io (fst (m' l')).

(** The request with its [imageUrl] and [imagePath] replaced. *)
Definition with_sources (imageUrl imagePath : option string) (a : Package.Args) : Package.Args :=
  {| Package.prompt := Package.prompt a;
     Package.imageUrl := imageUrl;
     Package.imagePath := imagePath;
     Package.style := Package.style a;
     Package.aspectRatio := Package.aspectRatio a;
     Package.quality := Package.quality a;
     Package.name := Package.name a;
     Package.description := Package.description a;
     Package.external_url := Package.external_url a;
     Package.attributes := Package.attributes a;
     Package.properties := Package.properties a;
     Package.ipfsService := Package.ipfsService a;
     Package.ipfsApiKey := Package.ipfsApiKey a |}.

(** [error.message] as rewritten by the [catch] block of
    [handleCreateMetadata]. *)
Definition metadata_failure_message (cause : JsError) : string :=
  match response cause with
  | Some (status, data) =>
      if (status =? 403)%Z then auth_403_message data
      else if (status =? 401)%Z then auth_401_message data
      else "Metadata upload failed (" ++ Js.of_Z status ++ "): " ++ data
  | None => "Metadata creation failed: " ++ message cause
  end.

(** The three endpoints of [upload_by_service]. *)
Definition is_endpoint (url : string) : Prop :=
  url = "https://uploads.pinata.cloud/v3/files"
  \/ url = "https://api.nft.storage/upload"
  \/ url = "https://api.web3.storage/upload".


(** The objects that the three handlers return. *)
Definition upload_envelope (service fileName : string) (cid : option string) (gatewayUrl : string)
    : Upload.Envelope :=
  {| Upload.out_success := true;
     Upload.out_cid := cid;
     Upload.out_ipfsUrl := "ipfs://" ++ Js.interp cid;
     Upload.out_gatewayUrl := gatewayUrl;
     Upload.out_service := service;
     Upload.out_fileName := fileName;
     Upload.out_message := "Image uploaded to IPFS successfully" |}.

Definition metadata_envelope (service : string) (metadata : NFTMetadata)
    (metadataCid : option string) (gatewayUrl : string) : Metadata.Envelope :=
  {| Metadata.out_success := true;
     Metadata.out_metadataCid := metadataCid;
     Metadata.out_ipfsUrl := "ipfs://" ++ Js.interp metadataCid;
     Metadata.out_gatewayUrl := gatewayUrl;
     Metadata.out_metadata := metadata;
     Metadata.out_service := service;
     Metadata.out_message := "Metadata uploaded to IPFS successfully" |}.

Definition package_envelope (w : World) (parsed : Package.Parsed) (src : ImageSource)
    (uploadData : Upload.Envelope) (imageCid : string) (metadataData : Metadata.Envelope)
    : Package.Envelope :=
  {| Package.out_success := true;
     Package.out_imageCid := imageCid;
     Package.out_metadataCid := Metadata.out_metadataCid metadataData;
     Package.out_imageUrl := Upload.out_gatewayUrl uploadData;
     Package.out_metadataUrl := Metadata.out_gatewayUrl metadataData;
     Package.out_ipfsImageUrl := "ipfs://" ++ imageCid;
     Package.out_ipfsMetadataUrl := "ipfs://" ++ Js.interp (Metadata.out_metadataCid metadataData);
     Package.out_metadata := Metadata.out_metadata metadataData;
     Package.out_generatedPrompt := generatedPrompt src;
     Package.out_service := resolve_service w (Package.p_ipfsService parsed);
     Package.out_message := "NFT package created successfully! Ready for minting.";
     Package.out_nextSteps :=
       [ "Use the metadataCid or ipfsMetadataUrl for NFT minting";
         "The metadata contains the image reference automatically" ] |}.

(** ** nft_generate_image.ts *)

(** Lines 4-11. [prompt] is a plain [z.string()]: the empty string passes. *)
Module Generate.

Record Args : Type := {
  prompt : option string;
  style : option Style;
  aspectRatio : option AspectRatio;
  quality : option Quality;
  seed : option Z;
  model : option string
}.

Record Parsed : Type := {
  p_prompt : string;
  p_style : option Style;
  p_aspectRatio : AspectRatio;
  p_quality : Quality;
  p_seed : option Z;
  p_model : option string
}.

Definition issues (a : Args) : list ZodIssue := Zod.required "prompt" (prompt a).

Definition parse (lib : Library) (a : Args) : JsError + Parsed :=
  Zod.result lib (issues a)
    {| p_prompt := Js.interp (prompt a);
       p_style := style a;
       p_aspectRatio := match aspectRatio a with Some r => r | None => ratio_1_1 end;
       p_quality := match quality a with Some q => q | None => high end;
       p_seed := seed a;
       p_model := model a |}.

(** The object serialised by the [return] of lines 43-66. *)
Record Envelope : Type := {
  out_success : bool;
  out_imageUrl : option string;
  out_localPath : option string;
  out_prompt : string;
  out_model : string;
  out_style : option Style;
  out_aspectRatio : AspectRatio;
  out_cost : Z;
  out_suggestedFilename : string;
  out_message : string;
  out_downloadTip : string;
  out_nextSteps : list string
}.

End Generate.

(** The [cost] field of the answer that [generateImage] gives to a request
    after the given external calls ([None] when the answer has none); as for
    the other numbers, integers stand for it. *)
Definition CostOracle : Type := list IoEvent -> ImageGenerationRequest -> option Z.

(** [result.cost || 0] *)
Definition cost_or_zero (c : option Z) : Z :=
  match c with
  | Some n => if (n =? 0)%Z then 0%Z else n
  | None => 0%Z
  end.

(** Lines 19-26. *)
Definition generate_request (parsed : Generate.Parsed) : ImageGenerationRequest :=
  {| req_prompt := Generate.p_prompt parsed;
     req_style := Generate.p_style parsed;
     req_aspectRatio := Some (Generate.p_aspectRatio parsed);
     req_quality := Some (Generate.p_quality parsed);
     req_seed := Generate.p_seed parsed;
     req_model := Generate.p_model parsed |}.

(** Lines 35-41. *)
Definition suggestedFilename (prompt : string) (timestamp : Z) : string :=
  Slug.slug prompt ++ "-" ++ Js.of_Z timestamp ++ ".png".

Definition handleGenerateImage (lib : Library) (w : World) (cost : CostOracle)
    (args : Generate.Args) : M Generate.Envelope :=
  try_catch
    (parsed <- lift (Generate.parse lib args) ;;
     let request := generate_request parsed in
     answer <- external (EvGenerate request)
                 (fun h => match generateImage w h request with
                           | inl e => inl e
                           | inr r => inr (r, cost h request)
                           end) ;;
     let '(result, result_cost) := answer in
     if negb (res_success result)
        || (negb (Js.truthy (res_imageUrl result)) && negb (Js.truthy (res_localPath result)))
     then throw (Error (Js.or_str (res_error result) "Image generation failed"))
     else
       timestamp <- clock w ;;
       let suggested := suggestedFilename (Generate.p_prompt parsed) timestamp in
       ret {| Generate.out_success := true;
              Generate.out_imageUrl := res_imageUrl result;
              Generate.out_localPath := res_localPath result;
              Generate.out_prompt := res_prompt result;
              Generate.out_model := res_model result;
              Generate.out_style := Generate.p_style parsed;
              Generate.out_aspectRatio := Generate.p_aspectRatio parsed;
              Generate.out_cost := cost_or_zero result_cost;
              Generate.out_suggestedFilename := suggested;
              Generate.out_message :=
                if Js.truthy (res_imageUrl result)
                then "Image generated successfully (URL)"
                else "Image generated successfully (local file)";
              Generate.out_downloadTip :=
                "To save: Right-click and 'Save as' → Use filename: " ++ suggested;
              Generate.out_nextSteps :=
                [ "Use nft_upload_to_ipfs to upload this image";
                  "Or use nft_create_package for complete NFT preparation" ] |})
    (fun error => throw (Error ("Failed to generate image: " ++ message error))).

(** ** The tool registry and the call handler (index.ts) *)

Inductive Tool : Type := GenerateImage | UploadToIPFS | CreateMetadata | BuildComplete.

(** The own properties of [toolHandlers]. *)
Definition registered (name : string) : option Tool :=
  if name =? "nft_pipeline_generate_image" then Some GenerateImage
  else if name =? "nft_pipeline_upload_to_ipfs" then Some UploadToIPFS
  else if name =? "nft_pipeline_create_metadata" then Some CreateMetadata
  else if name =? "nft_pipeline_build_complete" then Some BuildComplete
  else None.

(** [toolHandlers] is an object literal: indexing it with one of these names
    finds a property of [Object.prototype], which is neither a registered
    handler nor [undefined]. *)
Definition inherited (name : string) : bool :=
  existsb (String.eqb name)
    [ "constructor"; "__defineGetter__"; "__defineSetter__"; "hasOwnProperty";
      "__lookupGetter__"; "__lookupSetter__"; "isPrototypeOf"; "propertyIsEnumerable";
      "toString"; "valueOf"; "__proto__"; "toLocaleString" ].

(** The [arguments] object of a call: the keys that some schema reads, each
    of the type its schema expects when present. A schema drops the keys it
    does not declare. *)
Record ToolArguments : Type := {
  arg_prompt : option string;
  arg_style : option Style;
  arg_aspectRatio : option AspectRatio;
  arg_quality : option Quality;
  arg_seed : option Z;
  arg_model : option string;
  arg_imageUrl : option string;
  arg_imagePath : option string;
  arg_fileName : option string;
  arg_service : option Service;
  arg_apiKey : option string;
  arg_name : option string;
  arg_description : option string;
  arg_imageHash : option string;
  arg_external_url : option string;
  arg_attributes : option (list Attribute);
  arg_properties : option (list (string * JsonValue));
  arg_ipfsService : option Service;
  arg_ipfsApiKey : option string
}.

(** [{}] *)
Definition no_arguments : ToolArguments :=
  {| arg_prompt := None; arg_style := None; arg_aspectRatio := None; arg_quality := None;
     arg_seed := None; arg_model := None; arg_imageUrl := None; arg_imagePath := None;
     arg_fileName := None; arg_service := None; arg_apiKey := None; arg_name := None;
     arg_description := None; arg_imageHash := None; arg_external_url := None;
     arg_attributes := None; arg_properties := None; arg_ipfsService := None;
     arg_ipfsApiKey := None |}.

Definition generate_args (a : ToolArguments) : Generate.Args :=
  {| Generate.prompt := arg_prompt a;
     Generate.style := arg_style a;
     Generate.aspectRatio := arg_aspectRatio a;
     Generate.quality := arg_quality a;
     Generate.seed := arg_seed a;
     Generate.model := arg_model a |}.

Definition upload_tool_args (a : ToolArguments) : Upload.Args :=
  {| Upload.imageUrl := arg_imageUrl a;
     Upload.imagePath := arg_imagePath a;
     Upload.fileName := arg_fileName a;
     Upload.service := arg_service a;
     Upload.apiKey := arg_apiKey a |}.

Definition metadata_tool_args (a : ToolArguments) : Metadata.Args :=
  {| Metadata.name := arg_name a;
     Metadata.description := arg_description a;
     Metadata.imageHash := arg_imageHash a;
     Metadata.external_url := arg_external_url a;
     Metadata.attributes := arg_attributes a;
     Metadata.properties := arg_properties a;
     Metadata.service := arg_service a;
     Metadata.apiKey := arg_apiKey a |}.

Definition package_tool_args (a : ToolArguments) : Package.Args :=
  {| Package.prompt := arg_prompt a;
     Package.imageUrl := arg_imageUrl a;
     Package.imagePath := arg_imagePath a;
     Package.style := arg_style a;
     Package.aspectRatio := arg_aspectRatio a;
     Package.quality := arg_quality a;
     Package.name := arg_name a;
     Package.description := arg_description a;
     Package.external_url := arg_external_url a;
     Package.attributes := arg_attributes a;
     Package.properties := arg_properties a;
     Package.ipfsService := arg_ipfsService a;
     Package.ipfsApiKey := arg_ipfsApiKey a |}.

Inductive ToolResult : Type :=
  | Generated (e : Generate.Envelope)
  | Uploaded (e : Upload.Envelope)
  | MetadataCreated (e : Metadata.Envelope)
  | Packaged (e : Package.Envelope).

(** [handler(args)] for a registered handler. *)
Definition run_tool (lib : Library) (w : World) (cost : CostOracle) (tool : Tool)
    (a : ToolArguments) : M ToolResult :=
  match tool with
  | GenerateImage => e <- handleGenerateImage lib w cost (generate_args a) ;; ret (Generated e)
  | UploadToIPFS => e <- handleUploadToIPFS lib w (upload_tool_args a) ;; ret (Uploaded e)
  | CreateMetadata =>
      e <- handleCreateMetadata lib w (metadata_tool_args a) ;; ret (MetadataCreated e)
  | BuildComplete => e <- handleCreatePackage lib w (package_tool_args a) ;; ret (Packaged e)
  end.

(** Lines 326-339. [None]: the name is a property inherited from
    [Object.prototype], and what is then called is not a handler of this
    server. *)
Definition callTool (lib : Library) (w : World) (cost : CostOracle) (name : string)
    (args : option ToolArguments) : option (M ToolResult) :=
  match registered name with
  | Some tool =>
      Some (try_catch
              (run_tool lib w cost tool
                 (match args with Some a => a | None => no_arguments end))
              (fun error => throw (Error ("Tool execution failed: " ++ message error))))
  | None =>
      if inherited name then None
      else Some (throw (Error ("Unknown tool: " ++ name)))
  end.

(** ** Vocabulary of the further statements *)

(** [error.message] as rewritten by the [catch] block of
    [handleUploadToIPFS]. *)
Definition upload_failure_message (cause : JsError) : string :=
  match response cause with
  | Some (status, data) =>
      if (status =? 403)%Z then auth_403_message data
      else if (status =? 401)%Z then auth_401_message data
      else "IPFS upload failed (" ++ Js.of_Z status ++ "): " ++ data
  | None => "IPFS upload failed: " ++ message cause
  end.


Definition is_read (ev : IoEvent) : bool :=
  match ev with
  | EvReadFile _ => true
  | _ => false
  end.

(** [m] appends at most [n] external calls. *)
Definition at_most {A} (n : nat) (m : M A) : Prop :=
  forall l, exists evs, io (fst (m l)) = (io l ++ evs)%list /\ length evs <= n.

(** The document that [handleCreateMetadata] builds from its arguments. *)
Definition document_of (a : Metadata.Args) : NFTMetadata :=
  {| md_name := Js.interp (Metadata.name a);
     md_description := Js.interp (Metadata.description a);
     md_image := "ipfs://" ++ Js.interp (Metadata.imageHash a);
     md_external_url := Metadata.external_url a;
     md_attributes := match Metadata.attributes a with Some t => t | None => [] end;
     md_properties := match Metadata.properties a with Some t => t | None => [] end |}.

(** The endpoint that [upload_by_service] posts to for a service of the
    schema. *)
Definition endpoint (s : Service) : string :=
  match s with
  | pinata => "https://uploads.pinata.cloud/v3/files"
  | nftStorage => "https://api.nft.storage/upload"
  | web3Storage => "https://api.web3.storage/upload"
  end.

(** The [network] field that [upload_by_service] appends to the form: only
    Pinata gets one. *)
Definition network (s : Service) : option string :=
  match s with
  | pinata => Some "public"
  | _ => None
  end.

(** The error that the generation check of lines 28-32 of
    nft_generate_image.ts, and 48-57 of nft_create_package.ts, throws on an
    answer of the generator; [None] when the answer passes. *)
Definition generation_failure (answer : JsError + ImageGenerationResult) : option JsError :=
  match answer with
  | inl e => Some e
  | inr r =>
      if negb (res_success r)
         || (negb (Js.truthy (res_imageUrl r)) && negb (Js.truthy (res_localPath r)))
      then Some (Error (Js.or_str (res_error r) "Image generation failed"))
      else None
  end.

(** No character of [s] is an ASCII letter or digit. *)
Definition no_alnum (s : string) : bool :=
  Slug.forallb_string (fun c => negb (Slug.alnum (Js.lower_char c))) s.

(** Every character of [s] is an ASCII one. *)
Definition is_ascii (s : string) : bool :=
  Slug.forallb_string (fun c => (nat_of_ascii c <? 128)%nat) s.

(** Further test doubles. *)
Module Fixture.

Definition no_cost : CostOracle := fun _ _ => None.

Definition generate_request (prompt : option string) : Generate.Args :=
  {| Generate.prompt := prompt;
     Generate.style := None;
     Generate.aspectRatio := None;
     Generate.quality := None;
     Generate.seed := None;
     Generate.model := None |}.

Definition not_found : JsError := Error "ENOENT: no such file or directory".

(** A world whose generator, fetch and file system answer as given. *)
Definition world_of (generated : JsError + ImageGenerationResult) (fetched read : JsError + string)
    (image metadata : JsError + option string) : World :=
  {| process_env := Double.env;
     Date_now := fun _ => 1700000000000%Z;
     generateImage := fun _ _ => generated;
     axios_get := fun _ _ => fetched;
     readFileSync := fun _ _ => read;
     axios_post := fun _ _ form _ =>
       match form_file form with
       | Bytes _ => image
       | MetadataJson _ => metadata
       end |}.

(** The environment selects a service that the handlers do not know. *)
Definition unknown_service_world : World :=
  {| process_env := fun key => if key =? "IPFS_SERVICE" then Some "filebase" else None;
     Date_now := fun _ => 1700000000000%Z;
     generateImage := fun _ _ => inr Double.fox;
     axios_get := fun _ _ => inr "PNG";
     readFileSync := fun _ _ => inr "PNG";
     axios_post := fun _ _ _ _ => inr (Some "abc123") |}.

Definition keyed_upload (service : option Service) (apiKey : option string) : Upload.Args :=
  {| Upload.imageUrl := Some "http://x/fox.png";
     Upload.imagePath := None;
     Upload.fileName := None;
     Upload.service := service;
     Upload.apiKey := apiKey |}.

Definition nameless_metadata : Metadata.Args :=
  {| Metadata.name := None;
     Metadata.description := Some "desc";
     Metadata.imageHash := Some "abc123";
     Metadata.external_url := None;
     Metadata.attributes := None;
     Metadata.properties := None;
     Metadata.service := None;
     Metadata.apiKey := None |}.

(** The parsed request of an NFT named [#!?]. *)
Definition symbols_parsed : Package.Parsed :=
  {| Package.p_prompt := None;
     Package.p_imageUrl := Some "http://x/fox.png";
     Package.p_imagePath := None;
     Package.p_style := None;
     Package.p_aspectRatio := ratio_1_1;
     Package.p_quality := high;
     Package.p_name := "#!?";
     Package.p_description := "desc";
     Package.p_external_url := None;
     Package.p_attributes := None;
     Package.p_properties := None;
     Package.p_ipfsService := None;
     Package.p_ipfsApiKey := None |}.

Definition failed_generation : ImageGenerationResult :=
  {| res_success := false;
     res_imageUrl := None;
     res_localPath := None;
     res_prompt := "a red fox";
     res_model := "flux";
     res_error := Some "quota exceeded" |}.


End Fixture.

(** * Proofs *)

(** ** The slug *)

Module SlugFacts.
Import Slug.

Lemma alnum_not_hyphen c : alnum c = true -> Ascii.eqb c hyphen = false.
Proof.
  destruct (Ascii.eqb_spec c hyphen) as [->|]; [discriminate | reflexivity].
Qed.

Lemma alnum_lower c : alnum c = true -> Js.lower_char c = c.
Proof.
  destruct c as [[] [] [] [] [] [] [] []]; try discriminate; reflexivity.
Qed.

Lemma slugged_weaken s : slugged true s = true -> slugged false s = true.
Proof.
  destruct s as [|c r]; simpl; [reflexivity|].
  destruct (alnum c); [tauto|].
  rewrite andb_false_r. discriminate.
Qed.

Lemma slugged_lower b s : slugged b s = true -> Js.toLowerCase s = s.
Proof.
  revert b; induction s as [|c r IH]; intros b; simpl; [reflexivity|].
  destruct (alnum c) eqn:Hc.
  - intros H. rewrite (alnum_lower _ Hc), (IH _ H). reflexivity.
  - intros H. apply andb_prop in H as [H Hr]. apply andb_prop in H as [H _].
    apply Ascii.eqb_eq in H; subst c. rewrite (IH _ Hr). reflexivity.
Qed.

Lemma slugged_hyphenate b s : slugged b (hyphenate_from b s) = true.
Proof.
  revert b; induction s as [|c r IH]; intros b; simpl; [reflexivity|].
  destruct (alnum c) eqn:Hc; simpl.
  - rewrite Hc. apply IH.
  - destruct b; [apply IH|]. simpl. apply IH.
Qed.

Lemma slugged_fixed b s : slugged b s = true -> hyphenate_from b s = s.
Proof.
  revert b; induction s as [|c r IH]; intros b; simpl; [reflexivity|].
  destruct (alnum c) eqn:Hc.
  - intros H. rewrite (IH _ H). reflexivity.
  - intros H. apply andb_prop in H as [H Hr]. apply andb_prop in H as [H Hb].
    apply Ascii.eqb_eq in H; subst c. destruct b; [discriminate|].
    rewrite (IH _ Hr). reflexivity.
Qed.

Lemma slugged_strip_leading b s : slugged b s = true -> slugged true (strip_leading s) = true.
Proof.
  revert b; induction s as [|c r IH]; intros b; simpl; [reflexivity|].
  destruct (Ascii.eqb_spec c hyphen) as [->|Hne].
  - simpl. intros H. apply andb_prop in H as [_ Hr]. apply (IH _ Hr).
  - simpl. destruct (alnum c); [tauto|].
    apply Ascii.eqb_neq in Hne. rewrite Hne. discriminate.
Qed.

Lemma strip_trailing_cons c r :
  strip_trailing (String c r)
  = if all_hyphens (String c r) then EmptyString else String c (strip_trailing r).
Proof. reflexivity. Qed.

Lemma slugged_strip_trailing b s : slugged b s = true -> slugged b (strip_trailing s) = true.
Proof.
  revert b; induction s as [|c r IH]; intros b; [reflexivity|].
  intros H. rewrite strip_trailing_cons.
  destruct (all_hyphens (String c r)); [reflexivity|].
  simpl in *. destruct (alnum c); [apply IH, H|].
  apply andb_prop in H as [H Hr]. rewrite H. apply IH, Hr.
Qed.

Lemma slugged_take b n s : slugged b s = true -> slugged b (Js.take n s) = true.
Proof.
  revert b s; induction n as [|n IH]; intros b [|c r]; try reflexivity.
  simpl. destruct (alnum c); [apply IH|].
  intros H. apply andb_prop in H as [H Hr]. rewrite H. apply IH, Hr.
Qed.

Lemma slugged_slug s : slugged true (slug s) = true.
Proof.
  unfold slug, strip, hyphenate.
  apply slugged_take, slugged_strip_trailing.
  apply (slugged_strip_leading false), slugged_hyphenate.
Qed.

Lemma strip_leading_fixed s : slugged true s = true -> strip_leading s = s.
Proof.
  destruct s as [|c r]; simpl; [reflexivity|].
  destruct (alnum c) eqn:Hc.
  - rewrite (alnum_not_hyphen _ Hc). reflexivity.
  - rewrite andb_false_r. discriminate.
Qed.

Lemma length_take n s : String.length (Js.take n s) <= n.
Proof.
  revert s; induction n as [|n IH]; intros [|c r]; simpl; try lia.
  specialize (IH r). lia.
Qed.

Lemma take_all n s : String.length s <= n -> Js.take n s = s.
Proof.
  revert s; induction n as [|n IH]; intros [|c r]; simpl; try reflexivity; try lia.
  intros H. rewrite IH; [reflexivity | lia].
Qed.

Lemma length_strip_trailing s : String.length (strip_trailing s) <= String.length s.
Proof.
  induction s as [|c r IH]; [simpl; lia|].
  rewrite strip_trailing_cons. destruct (all_hyphens (String c r)); simpl; lia.
Qed.

Lemma length_slug s : String.length (slug s) <= 50.
Proof. apply length_take. Qed.

(** Slugging a slug only removes a hyphen that the truncation left last. *)
Lemma slug_slug s : slug (slug s) = strip_trailing (slug s).
Proof.
  pose proof (slugged_slug s) as Hs. pose proof (length_slug s) as Hl.
  set (u := slug s) in *. unfold slug at 1, strip, hyphenate.
  rewrite (slugged_lower _ _ Hs).
  rewrite (slugged_fixed _ _ (slugged_weaken _ Hs)).
  rewrite (strip_leading_fixed _ Hs).
  apply take_all. pose proof (length_strip_trailing u). lia.
Qed.

Lemma all_hyphens_ends c r :
  all_hyphens (String c r) = true -> Js.ends_with_char hyphen (String c r) = true.
Proof.
  revert c; induction r as [|d r IH]; intros c H; simpl in *.
  - rewrite andb_true_r in H. exact H.
  - apply andb_prop in H as [_ H]. apply (IH d H).
Qed.

Lemma strip_trailing_fixed s : Js.ends_with_char hyphen s = false -> strip_trailing s = s.
Proof.
  induction s as [|c r IH]; [reflexivity|].
  intros H. rewrite strip_trailing_cons.
  destruct (all_hyphens (String c r)) eqn:Ha.
  - rewrite (all_hyphens_ends _ _ Ha) in H. discriminate.
  - f_equal. apply IH. destruct r as [|d r]; [reflexivity | exact H].
Qed.

Lemma strip_trailing_drops_last b s :
  slugged b s = true -> Js.ends_with_char hyphen s = true ->
  strip_trailing s = Js.take (String.length s - 1) s.
Proof.
  revert b; induction s as [|c r IH]; intros b Hs He; [discriminate|].
  destruct r as [|d r].
  - simpl in He. simpl. rewrite He. reflexivity.
  - assert (Ha : all_hyphens (String c (String d r)) = false).
    { simpl in Hs |- *. destruct (alnum c) eqn:Hc.
      - rewrite (alnum_not_hyphen _ Hc). reflexivity.
      - apply andb_prop in Hs as [_ Hs]. destruct (alnum d) eqn:Hd.
        + rewrite (alnum_not_hyphen _ Hd). apply andb_false_r.
        + rewrite andb_false_r in Hs. discriminate. }
    rewrite strip_trailing_cons, Ha.
    assert (Hr : exists b', slugged b' (String d r) = true).
    { simpl in Hs. destruct (alnum c); [exists false; exact Hs|].
      apply andb_prop in Hs as [_ Hs]. exists true; exact Hs. }
    destruct Hr as [b' Hr].
    rewrite (IH b' Hr He).
    change (String.length (String c (String d r)) - 1) with (S (String.length r)).
    change (String.length (String d r) - 1) with (String.length r - 0).
    rewrite Nat.sub_0_r. reflexivity.
Qed.

Lemma slugged_chars b s : slugged b s = true -> forallb_string slug_char s = true.
Proof.
  revert b; induction s as [|c r IH]; intros b; simpl; [reflexivity|].
  unfold slug_char. destruct (alnum c); simpl.
  - apply IH.
  - intros H. apply andb_prop in H as [H Hr]. apply andb_prop in H as [H _].
    rewrite H. apply (IH _ Hr).
Qed.

Lemma slugged_no_leading_hyphen s : slugged true s = true -> Js.startsWith "-" s = false.
Proof.
  destruct s as [|c r]; [reflexivity|].
  simpl. destruct (alnum c) eqn:Hc.
  - intros _. apply alnum_not_hyphen in Hc. unfold hyphen in Hc. rewrite Hc. reflexivity.
  - rewrite andb_false_r. discriminate.
Qed.

Lemma slugged_no_double_hyphen b s : slugged b s = true -> Js.includes "--" s = false.
Proof.
  revert b; induction s as [|c r IH]; intros b H; [reflexivity|].
  cbn [Js.includes]. simpl in H.
  assert (Hr : exists b', slugged b' r = true).
  { destruct (alnum c); [exists false; exact H|].
    apply andb_prop in H as [_ H]. exists true; exact H. }
  destruct Hr as [b' Hr]. rewrite (IH _ Hr), orb_false_r.
  change (Js.startsWith "--" (String c r)) with (Ascii.eqb c "-" && Js.startsWith "-" r).
  destruct (alnum c) eqn:Hc.
  - apply alnum_not_hyphen in Hc. unfold hyphen in Hc. rewrite Hc. reflexivity.
  - apply andb_prop in H as [_ H].
    rewrite (slugged_no_leading_hyphen _ H). apply andb_false_r.
Qed.

End SlugFacts.

(** ** Rules for the log *)

Section LogRules.
Context {A B : Type}.
Variables (Q : IoEvent -> Prop) (R : Invocation -> Prop).

Lemma appends_nothing (m : M A) : (forall l, fst (m l) = l) -> appends Q R m.
Proof.
  intros H l. exists [], []. rewrite H, !app_nil_r. auto.
Qed.

Lemma appends_ret (a : A) : appends Q R (ret a).
Proof. apply appends_nothing. reflexivity. Qed.

Lemma appends_throw (e : JsError) : appends Q R (@throw A e).
Proof. apply appends_nothing. reflexivity. Qed.

Lemma appends_lift (r : JsError + A) : appends Q R (lift r).
Proof. apply appends_nothing. reflexivity. Qed.

Lemma appends_external (ev : IoEvent) (answer : list IoEvent -> JsError + A) :
  Q ev -> appends Q R (external ev answer).
Proof.
  intros H l. exists [ev], []. simpl. rewrite app_nil_r. auto.
Qed.

Lemma appends_invoke (i : Invocation) (m : M A) :
  R i -> appends Q R m -> appends Q R (invoke i m).
Proof.
  intros Hi Hm l. unfold invoke.
  destruct (Hm {| io := io l; invoked := (invoked l ++ [i])%list |})
    as (evs & invs & Hio & Hinv & Hq & Hr).
  exists evs, (i :: invs). simpl in *. rewrite Hio, Hinv, <- app_assoc. auto.
Qed.

Lemma appends_bind (m : M A) (k : A -> M B) :
  appends Q R m -> (forall a, appends Q R (k a)) -> appends Q R (bind m k).
Proof.
  intros Hm Hk l. unfold bind.
  destruct (Hm l) as (evs & invs & Hio & Hinv & Hq & Hr).
  destruct (m l) as [l1 [e|a]]; simpl in *.
  - exists evs, invs. auto.
  - destruct (Hk a l1) as (evs' & invs' & Hio' & Hinv' & Hq' & Hr').
    exists (evs ++ evs')%list, (invs ++ invs')%list.
    rewrite Hio', Hinv', Hio, Hinv, <- !app_assoc.
    repeat split; auto using Forall_app.
    + apply Forall_app; auto.
    + apply Forall_app; auto.
Qed.

Lemma appends_try_catch (m : M A) (h : JsError -> M A) :
  appends Q R m -> (forall e, appends Q R (h e)) -> appends Q R (try_catch m h).
Proof.
  intros Hm Hh l. unfold try_catch.
  destruct (Hm l) as (evs & invs & Hio & Hinv & Hq & Hr).
  destruct (m l) as [l1 [e|a]]; simpl in *.
  - destruct (Hh e l1) as (evs' & invs' & Hio' & Hinv' & Hq' & Hr').
    exists (evs ++ evs')%list, (invs ++ invs')%list.
    rewrite Hio', Hinv', Hio, Hinv, <- !app_assoc.
    repeat split; auto; apply Forall_app; auto.
  - exists evs, invs. auto.
Qed.

Lemma io_equiv_ret (a : A) : io_equiv (ret a) (ret a).
Proof. intros l l' E. auto. Qed.

Lemma io_equiv_throw (e : JsError) : io_equiv (@throw A e) (throw e).
Proof. intros l l' E. auto. Qed.

Lemma io_equiv_lift (r : JsError + A) : io_equiv (lift r) (lift r).
Proof. intros l l' E. auto. Qed.

Lemma io_equiv_external (ev : IoEvent) (answer : list IoEvent -> JsError + A) :
  io_equiv (external ev answer) (external ev answer).
Proof. intros l l' E. simpl. rewrite E. auto. Qed.

Lemma io_equiv_invoke (i i' : Invocation) (m m' : M A) :
  io_equiv m m' -> io_equiv (invoke i m) (invoke i' m').
Proof. intros H l l' E. unfold invoke. apply H. exact E. Qed.

Lemma io_equiv_bind (m m' : M A) (k k' : A -> M B) :
  io_equiv m m' -> (forall a, io_equiv (k a) (k' a)) -> io_equiv (bind m k) (bind m' k').
Proof.
  intros Hm Hk l l' E. unfold bind.
  destruct (Hm l l' E) as [Hr Hio].
  destruct (m l) as [l1 [e|a]], (m' l') as [l1' [e'|a']]; simpl in *;
    try discriminate.
  - injection Hr as ->. split; [reflexivity | assumption].
  - injection Hr as ->. apply Hk. exact Hio.
Qed.

Lemma io_equiv_try_catch (m m' : M A) (h h' : JsError -> M A) :
  io_equiv m m' -> (forall e, io_equiv (h e) (h' e)) ->
  io_equiv (try_catch m h) (try_catch m' h').
Proof.
  intros Hm Hh l l' E. unfold try_catch.
  destruct (Hm l l' E) as [Hr Hio].
  destruct (m l) as [l1 [e|a]], (m' l') as [l1' [e'|a']]; simpl in *;
    try discriminate.
  - injection Hr as ->. apply Hh. exact Hio.
  - split; assumption.
Qed.

End LogRules.

Lemma appends_clock Q R (w : World) : appends Q R (clock w).
Proof. apply appends_nothing. reflexivity. Qed.

Lemma io_equiv_clock (w : World) : io_equiv (clock w) (clock w).
Proof. intros l l' E. unfold clock. simpl. rewrite E. auto. Qed.

(** One step of a proof that a handler only appends, or that two handlers
    are equivalent: the rule of the head construct, a case analysis on a
    branch. *)
Ltac log_step :=
  match goal with
  | |- appends _ _ (bind _ _) => apply appends_bind; [|intros ?]
  | |- appends _ _ (try_catch _ _) => apply appends_try_catch; [|intros ?]
  | |- appends _ _ (ret _) => apply appends_ret
  | |- appends _ _ (throw _) => apply appends_throw
  | |- appends _ _ (lift _) => apply appends_lift
  | |- appends _ _ (clock _) => apply appends_clock
  | |- appends _ _ (external _ _) => apply appends_external; simpl; auto
  | |- appends _ _ (post _ _ _ _) => apply appends_external; simpl; auto
  | |- appends _ _ (invoke _ _) => apply appends_invoke; [simpl; auto|]
  | |- io_equiv (bind _ _) (bind _ _) => apply io_equiv_bind; [|intros ?]
  | |- io_equiv (try_catch _ _) (try_catch _ _) => apply io_equiv_try_catch; [|intros ?]
  | |- io_equiv (ret _) (ret _) => apply io_equiv_ret
  | |- io_equiv (throw _) (throw _) => apply io_equiv_throw
  | |- io_equiv (lift _) (lift _) => apply io_equiv_lift
  | |- io_equiv (clock _) (clock _) => apply io_equiv_clock
  | |- io_equiv (external _ _) (external _ _) => apply io_equiv_external
  | |- io_equiv (post _ _ _ _) (post _ _ _ _) => apply io_equiv_external
  | |- io_equiv (invoke _ _) (invoke _ _) => apply io_equiv_invoke
  | |- appends _ _ (match ?x with _ => _ end) => destruct x
  | |- io_equiv (match ?x with _ => _ end) _ => destruct x
  end.

Ltac log_rules := repeat log_step.

(** ** The handlers, one branch at a time *)

Lemma handleUploadToIPFS_run lib w a l :
  handleUploadToIPFS lib w a l =
  match Upload.parse lib a with
  | inl e => upload_catch e l
  | inr parsed =>
      let service := resolve_service w (Upload.p_service parsed) in
      let apiKey := resolve_apiKey w service (Upload.p_apiKey parsed) in
      if apiKey =? "" then upload_catch (Error (missing_key_message service)) l
      else
        match read_image lib w parsed l with
        | (l1, inl e) => upload_catch e l1
        | (l1, inr (data, fileName)) =>
            match upload_by_service w service apiKey (Bytes data) fileName l1 with
            | (l2, inl e) => upload_catch e l2
            | (l2, inr (cid, gatewayUrl)) =>
                (l2, inr (upload_envelope service fileName cid gatewayUrl))
            end
        end
  end.
Proof.
  unfold handleUploadToIPFS, try_catch, bind, lift.
  destruct (Upload.parse lib a) as [e|parsed]; [reflexivity|].
  cbv zeta.
  destruct (resolve_apiKey w _ _ =? ""); [reflexivity|].
  destruct (read_image lib w parsed l) as [l1 [e|[data fileName]]]; [reflexivity|].
  destruct (upload_by_service _ _ _ _ _ l1) as [l2 [e|[cid gw]]]; reflexivity.
Qed.

Lemma upload_by_service_run w service :
  (exists url net gw,
      serviceEnvMap service <> None
      /\ is_endpoint url /\ Js.startsWith "https://" gw = true
      /\ forall apiKey buffer fileName l,
          upload_by_service w service apiKey buffer fileName l =
          let form := {| form_file := buffer; form_filename := fileName; form_network := net |} in
          ({| io := io l ++ [EvPost url form ("Bearer " ++ apiKey)]; invoked := invoked l |},
           match axios_post w (io l) url form ("Bearer " ++ apiKey) with
           | inl e => inl e
           | inr cid => inr (cid, gw ++ Js.interp cid)
           end))
  \/ (serviceEnvMap service = None
      /\ forall apiKey buffer fileName l,
          upload_by_service w service apiKey buffer fileName l =
          (l, inl (Error ("Unsupported IPFS service: " ++ service)))).
Proof.
  assert (Hpost : forall url net gw apiKey buffer fileName l,
    bind (post w url {| form_file := buffer; form_filename := fileName; form_network := net |}
            apiKey)
         (fun cid => ret (cid, gw ++ Js.interp cid)) l =
    ({| io := io l ++ [EvPost url {| form_file := buffer; form_filename := fileName;
                                 form_network := net |} ("Bearer " ++ apiKey)];
        invoked := invoked l |},
     match axios_post w (io l) url
             {| form_file := buffer; form_filename := fileName; form_network := net |}
             ("Bearer " ++ apiKey) with
     | inl e => inl e
     | inr cid => inr (cid, gw ++ Js.interp cid)
     end)).
  { intros. unfold bind, post, external, ret.
    destruct (axios_post _ _ _ _ _); reflexivity. }
  unfold upload_by_service, is_endpoint, serviceEnvMap.
  destruct (service =? "pinata");
    [|destruct (service =? "nftStorage"); [|destruct (service =? "web3Storage")]].
  - left. exists "https://uploads.pinata.cloud/v3/files", (Some "public"),
      "https://gateway.pinata.cloud/ipfs/". repeat split; auto; discriminate.
  - left. exists "https://api.nft.storage/upload", None, "https://nftstorage.link/ipfs/".
    repeat split; auto; discriminate.
  - left. exists "https://api.web3.storage/upload", None, "https://w3s.link/ipfs/".
    repeat split; auto; discriminate.
  - right. split; reflexivity.
Qed.

Lemma metadata_catch_run {A} (e : JsError) l :
  @metadata_catch A e l = (l, inl (Error (metadata_failure_message e))).
Proof.
  unfold metadata_catch, metadata_failure_message.
  destruct (response e) as [[status data]|]; [|reflexivity].
  destruct (status =? 403)%Z; [reflexivity|].
  destruct (status =? 401)%Z; reflexivity.
Qed.

Lemma handleCreateMetadata_run lib w a l :
  handleCreateMetadata lib w a l =
  match Metadata.parse lib a with
  | inl e => metadata_catch e l
  | inr parsed =>
      let service := resolve_service w (Metadata.p_service parsed) in
      let apiKey := resolve_apiKey w service (Metadata.p_apiKey parsed) in
      if apiKey =? "" then metadata_catch (Error (missing_key_message service)) l
      else
        match upload_by_service w service apiKey (MetadataJson (build_metadata parsed))
                "metadata.json" l with
        | (l1, inl e) => metadata_catch e l1
        | (l1, inr (metadataCid, gatewayUrl)) =>
            (l1, inr (metadata_envelope service (build_metadata parsed) metadataCid gatewayUrl))
        end
  end.
Proof.
  unfold handleCreateMetadata, try_catch, bind, lift.
  destruct (Metadata.parse lib a) as [e|parsed]; [reflexivity|].
  cbv zeta.
  destruct (resolve_apiKey w _ _ =? ""); [reflexivity|].
  destruct (upload_by_service _ _ _ _ _ l) as [l2 [e|[cid gw]]]; reflexivity.
Qed.

Lemma upload_image_run lib w parsed src l :
  upload_image lib w parsed src l =
  let args := upload_args parsed src (upload_fileName parsed (Date_now w (io l))) in
  match handleUploadToIPFS lib w args
          {| io := io l; invoked := invoked l ++ [InvUpload args] |} with
  | (l1, inl e) => (l1, inl e)
  | (l1, inr uploadData) =>
      if negb (Upload.out_success uploadData)
      then (l1, inl (Error ("Image upload to IPFS failed: " ++ Upload.text uploadData)))
      else
        match Js.nonempty (Upload.out_cid uploadData) with
        | Some imageCid => (l1, inr (uploadData, imageCid))
        | None =>
            (l1, inl (Error ("No CID returned from IPFS upload. Response: "
                             ++ Upload.text uploadData)))
        end
  end.
Proof.
  unfold upload_image, bind, clock, invoke. cbv zeta.
  destruct (handleUploadToIPFS _ _ _ _) as [l1 [e|uploadData]]; [reflexivity|].
  destruct (negb _); [reflexivity|].
  destruct (Js.nonempty _); reflexivity.
Qed.

Lemma create_metadata_run lib w parsed src uploadData imageCid l :
  create_metadata lib w parsed src uploadData imageCid l =
  let args := metadata_args parsed imageCid in
  match handleCreateMetadata lib w args
          {| io := io l; invoked := invoked l ++ [InvMetadata args] |} with
  | (l1, inl e) => (l1, inl e)
  | (l1, inr metadataData) =>
      if negb (Metadata.out_success metadataData)
      then (l1, inl (Error "Metadata upload to IPFS failed"))
      else (l1, inr (package_envelope w parsed src uploadData imageCid metadataData))
  end.
Proof.
  unfold create_metadata, bind, invoke. cbv zeta.
  destruct (handleCreateMetadata _ _ _ _) as [l1 [e|metadataData]]; [reflexivity|].
  destruct (negb _); reflexivity.
Qed.

Lemma handleCreatePackage_run lib w a l :
  handleCreatePackage lib w a l =
  match Package.parse lib a with
  | inl e => package_catch e l
  | inr parsed =>
      match resolve_image w parsed l with
      | (l1, inl e) => package_catch e l1
      | (l1, inr src) =>
          match upload_image lib w parsed src l1 with
          | (l2, inl e) => package_catch e l2
          | (l2, inr (uploadData, imageCid)) =>
              match create_metadata lib w parsed src uploadData imageCid l2 with
              | (l3, inl e) => package_catch e l3
              | (l3, inr r) => (l3, inr r)
              end
          end
      end
  end.
Proof.
  unfold handleCreatePackage, try_catch, bind, lift.
  destruct (Package.parse lib a) as [e|parsed]; [reflexivity|].
  destruct (resolve_image w parsed l) as [l1 [e|src]]; [reflexivity|].
  destruct (upload_image lib w parsed src l1) as [l2 [e|[uploadData imageCid]]]; [reflexivity|].
  destruct (create_metadata _ _ _ _ _ _ l2) as [l3 [e|r]]; reflexivity.
Qed.

(** ** What each handler may append to the log *)

Lemma upload_by_service_appends Q R w service apiKey buffer fileName :
  (forall url net auth, Q (EvPost url {| form_file := buffer; form_filename := fileName; form_network := net |} auth)) ->
  appends Q R (upload_by_service w service apiKey buffer fileName).
Proof.
  intros H. unfold upload_by_service, post. log_rules.
Qed.

Lemma handleUploadToIPFS_appends lib w a :
  appends (fun ev => is_generate ev = false /\ is_metadata_post ev = false) (fun _ => False)
    (handleUploadToIPFS lib w a).
Proof.
  unfold handleUploadToIPFS, read_image, upload_catch. cbv zeta. log_rules.
  all: try (apply upload_by_service_appends; intros; simpl; auto).
Qed.

Lemma handleCreateMetadata_appends lib w a :
  appends (fun ev => is_generate ev = false) (fun _ => False) (handleCreateMetadata lib w a).
Proof.
  unfold handleCreateMetadata, metadata_catch. cbv zeta. log_rules.
  all: try (apply upload_by_service_appends; intros; simpl; auto).
Qed.


(** ** Optional strings, schemas and path segments *)

Lemma or_str_empty a b : Js.or_str (Js.or a b) "" = "" <-> Js.truthy a = false /\ Js.truthy b = false.
Proof.
  unfold Js.or_str, Js.or, Js.truthy.
  destruct a as [x|], b as [y|]; simpl;
    try destruct (x =? "") eqn:Hx; try destruct (y =? "") eqn:Hy; simpl;
    try rewrite Hx; try rewrite Hy;
    repeat match goal with H : (_ =? _) = false |- _ => apply String.eqb_neq in H end;
    intuition congruence.
Qed.

Lemma upload_parse_valid lib a :
  Upload.issues lib a = [] ->
  exists parsed, Upload.parse lib a = inr parsed
    /\ Upload.p_imageUrl parsed = Upload.imageUrl a
    /\ Upload.p_imagePath parsed = Upload.imagePath a
    /\ Upload.p_fileName parsed = match Upload.fileName a with Some f => f | None => "image.png" end
    /\ Upload.p_service parsed = Upload.service a
    /\ Upload.p_apiKey parsed = Upload.apiKey a.
Proof.
  intros H. unfold Upload.parse. rewrite H. simpl. eexists. split; [reflexivity|]. simpl. auto.
Qed.

Lemma metadata_parse_valid lib a :
  Metadata.issues lib a = [] ->
  exists parsed, Metadata.parse lib a = inr parsed
    /\ Metadata.p_imageHash parsed = Js.interp (Metadata.imageHash a)
    /\ Metadata.p_service parsed = Metadata.service a
    /\ Metadata.p_apiKey parsed = Metadata.apiKey a.
Proof.
  intros H. unfold Metadata.parse. rewrite H. simpl. eexists. split; [reflexivity|]. simpl. auto.
Qed.

(** ** Credentials

    C6. An upload or a metadata call that passes its schema, for which
    neither the [apiKey] argument nor the environment variable mapped to the
    selected service holds a non-empty credential, fails with the message
    that names that variable, and leaves the log as it was: nothing has been
    fetched, read or uploaded. *)
Theorem missing_credential_is_reported_before_any_transfer lib w variable :
  (forall a l,
      Upload.issues lib a = [] ->
      serviceEnvMap (resolve_service w (Upload.service a)) = Some variable ->
      Js.truthy (Upload.apiKey a) = false ->
      Js.truthy (process_env w variable) = false ->
      handleUploadToIPFS lib w a l
      = (l, inl (Error ("IPFS upload failed: API key/JWT required for "
                        ++ resolve_service w (Upload.service a) ++ ". Set " ++ variable
                        ++ " in environment or pass as apiKey parameter."))))
  /\ (forall a l,
      Metadata.issues lib a = [] ->
      serviceEnvMap (resolve_service w (Metadata.service a)) = Some variable ->
      Js.truthy (Metadata.apiKey a) = false ->
      Js.truthy (process_env w variable) = false ->
      handleCreateMetadata lib w a l
      = (l, inl (Error ("Metadata creation failed: API key/JWT required for "
                        ++ resolve_service w (Metadata.service a) ++ ". Set " ++ variable
                        ++ " in environment or pass as apiKey parameter.")))).
Proof.
  split; intros a l Hvalid Hvar Hkey Henv.
  - rewrite handleUploadToIPFS_run.
    destruct (upload_parse_valid _ _ Hvalid) as (parsed & -> & _ & _ & _ & -> & ->).
    cbv zeta. unfold resolve_apiKey at 1. rewrite Hvar. simpl Js.interp.
    rewrite (proj2 (or_str_empty _ _) (conj Hkey Henv)). simpl.
    unfold missing_key_message. rewrite Hvar. reflexivity.
  - rewrite handleCreateMetadata_run.
    destruct (metadata_parse_valid _ _ Hvalid) as (parsed & -> & _ & -> & ->).
    cbv zeta. unfold resolve_apiKey at 1. rewrite Hvar. simpl Js.interp.
    rewrite (proj2 (or_str_empty _ _) (conj Hkey Henv)). simpl.
    rewrite metadata_catch_run.
    unfold missing_key_message. rewrite Hvar. reflexivity.
Qed.

Lemma last_segment_empty c acc s :
  Js.last_segment_from c acc s = "" <->
  (s = "" /\ acc = "") \/ Js.ends_with_char c s = true.
Proof.
  revert acc; induction s as [|d r IH]; intros acc.
  - simpl. intuition discriminate.
  - cbn [Js.last_segment_from].
    assert (Hend : Js.ends_with_char c (String d r)
                   = if r =? "" then Ascii.eqb d c else Js.ends_with_char c r).
    { destruct r; reflexivity. }
    rewrite Hend. destruct (Ascii.eqb d c) eqn:Hd; rewrite IH.
    + destruct (String.eqb_spec r "") as [->|Hr].
      * split; intros _; [right; reflexivity | left; auto].
      * split; (intros [[H _]|H]; [discriminate || contradiction | right; exact H]).
    + destruct (String.eqb_spec r "") as [->|Hr].
      * split.
        -- intros [[_ H]|H]; [destruct acc|]; discriminate.
        -- intros [[H _]|H]; discriminate.
      * split; (intros [[H _]|H]; [discriminate || contradiction | right; exact H]).
Qed.

Lemma includes_guard seg :
  negb (seg =? "") && Js.includes_char "." seg = Js.includes_char "." seg.
Proof. destruct seg; reflexivity. Qed.

Lemma nonempty_Some o s : Js.nonempty o = Some s -> o = Some s /\ s <> "".
Proof.
  unfold Js.nonempty, Js.truthy. destruct o as [x|]; [|discriminate].
  destruct (String.eqb_spec x ""); simpl; [discriminate|].
  intros [= ->]. auto.
Qed.

Lemma nonempty_None o : Js.truthy o = false -> Js.nonempty o = None.
Proof. unfold Js.nonempty. intros ->. reflexivity. Qed.

Lemma supported_service w service :
  serviceEnvMap service <> None ->
  exists url net gw,
    is_endpoint url /\ Js.startsWith "https://" gw = true
    /\ forall apiKey buffer fileName l,
        upload_by_service w service apiKey buffer fileName l =
        let form := {| form_file := buffer; form_filename := fileName; form_network := net |} in
        ({| io := io l ++ [EvPost url form ("Bearer " ++ apiKey)]; invoked := invoked l |},
         match axios_post w (io l) url form ("Bearer " ++ apiKey) with
         | inl e => inl e
         | inr cid => inr (cid, gw ++ Js.interp cid)
         end).
Proof.
  intros H. destruct (upload_by_service_run w service) as [(url & net & gw & _ & Hs)|[Hn _]];
    [exists url, net, gw; exact Hs | contradiction].
Qed.

Lemma upload_catch_log {A} e l : fst (@upload_catch A e l) = l.
Proof.
  unfold upload_catch. destruct (response e) as [[status data]|]; [|reflexivity].
  destruct (status =? 403)%Z; [reflexivity|]. destruct (status =? 401)%Z; reflexivity.
Qed.

Lemma upload_catch_fails {A} e l : exists e', snd (@upload_catch A e l) = inl e'.
Proof.
  unfold upload_catch. destruct (response e) as [[status data]|]; [|eexists; reflexivity].
  destruct (status =? 403)%Z; [eexists; reflexivity|].
  destruct (status =? 401)%Z; eexists; reflexivity.
Qed.

Lemma upload_catch_run {A} (e : JsError) l :
  @upload_catch A e l = (l, inl (Error (upload_failure_message e))).
Proof.
  unfold upload_catch, upload_failure_message.
  destruct (response e) as [[status data]|]; [|reflexivity].
  destruct (status =? 403)%Z; [reflexivity|].
  destruct (status =? 401)%Z; reflexivity.
Qed.

(** ** The filename of an upload

    C8. When the image comes from a URL, the file is uploaded under the last
    segment of the path of the URL if that segment contains a dot, and under
    the caller's [fileName] (or its default) otherwise. The handler has no
    test on the explicit filename: this holds for every upload from a
    URL. *)
Theorem upload_from_url_takes_the_filename_of_the_url lib w a l url data path :
  Upload.issues lib a = [] ->
  Js.nonempty (Upload.imageUrl a) = Some url ->
  serviceEnvMap (resolve_service w (Upload.service a)) <> None ->
  resolve_apiKey w (resolve_service w (Upload.service a)) (Upload.apiKey a) <> "" ->
  axios_get w (io l) url = inr data ->
  URL_pathname lib url = inr path ->
  let segment := Js.split_pop "/" path in
  let default := match Upload.fileName a with Some f => f | None => "image.png" end in
  let used := if Js.includes_char "." segment then segment else default in
  exists endpoint network authorization,
    io (fst (handleUploadToIPFS lib w a l))
    = (io l ++ [EvGet url;
               EvPost endpoint
                 {| form_file := Bytes data; form_filename := used; form_network := network |}
                 authorization])%list
    /\ forall envelope,
         snd (handleUploadToIPFS lib w a l) = inr envelope -> Upload.out_fileName envelope = used.
Proof.
  intros Hvalid Hurl Hsvc Hkey Hget Hpath segment default used.
  destruct (supported_service w _ Hsvc) as (endpoint & net & gw & _ & _ & Hrun).
  exists endpoint, net, ("Bearer " ++ resolve_apiKey w (resolve_service w (Upload.service a)) (Upload.apiKey a)).
  rewrite handleUploadToIPFS_run.
  destruct (upload_parse_valid _ _ Hvalid) as (parsed & -> & Hu & _ & Hf & Hs & Hk).
  cbv zeta. rewrite Hs, Hk.
  apply String.eqb_neq in Hkey. rewrite Hkey.
  unfold read_image. rewrite Hu, Hurl.
  unfold bind, external, lift, ret. rewrite Hget, Hpath, includes_guard, Hf.
  fold segment default used. rewrite Hrun. cbv zeta. simpl io.
  destruct (axios_post _ _ _ _ _) as [e|cid].
  - rewrite upload_catch_log. simpl. rewrite <- app_assoc. split; [reflexivity|].
    intros envelope H.
    match type of H with snd (upload_catch _ ?l0) = _ =>
      destruct (upload_catch_fails (A := Upload.Envelope) e l0) as [e' He'] end.
    rewrite He' in H. discriminate.
  - simpl. rewrite <- app_assoc. split; [reflexivity|].
    intros envelope [= <-]. reflexivity.
Qed.

(** C10. When the image comes from a local path, the file is uploaded under
    the last segment of the path, whatever the caller's [fileName]; the
    caller's [fileName] (or its default) is used exactly when that segment
    is empty, that is when the path ends with a slash. *)
Theorem upload_from_path_takes_the_filename_of_the_path lib w a l path data :
  Upload.issues lib a = [] ->
  Js.truthy (Upload.imageUrl a) = false ->
  Js.nonempty (Upload.imagePath a) = Some path ->
  serviceEnvMap (resolve_service w (Upload.service a)) <> None ->
  resolve_apiKey w (resolve_service w (Upload.service a)) (Upload.apiKey a) <> "" ->
  readFileSync w (io l) path = inr data ->
  let segment := Js.split_pop "/" path in
  let default := match Upload.fileName a with Some f => f | None => "image.png" end in
  let used := if Js.ends_with_char "/" path then default else segment in
  (segment = "" <-> Js.ends_with_char "/" path = true)
  /\ exists endpoint network authorization,
      io (fst (handleUploadToIPFS lib w a l))
      = (io l ++ [EvReadFile path;
                 EvPost endpoint
                   {| form_file := Bytes data; form_filename := used; form_network := network |}
                   authorization])%list
      /\ forall envelope,
           snd (handleUploadToIPFS lib w a l) = inr envelope -> Upload.out_fileName envelope = used.
Proof.
  intros Hvalid Hurl Hpath Hsvc Hkey Hread segment default used.
  destruct (nonempty_Some _ _ Hpath) as [_ Hne].
  assert (Hseg : segment = "" <-> Js.ends_with_char "/" path = true).
  { unfold segment, Js.split_pop. rewrite last_segment_empty. intuition congruence. }
  split; [exact Hseg|].
  assert (Hused : Js.or_str (Some segment) default = used).
  { unfold used, Js.or_str. destruct (String.eqb_spec segment "") as [E|E].
    - rewrite (proj1 Hseg E). reflexivity.
    - destruct (Js.ends_with_char "/" path); [|reflexivity].
      exfalso. apply E, Hseg. reflexivity. }
  destruct (supported_service w _ Hsvc) as (endpoint & net & gw & _ & _ & Hrun).
  exists endpoint, net, ("Bearer " ++ resolve_apiKey w (resolve_service w (Upload.service a)) (Upload.apiKey a)).
  rewrite handleUploadToIPFS_run.
  destruct (upload_parse_valid _ _ Hvalid) as (parsed & -> & Hu & Hp & Hf & Hs & Hk).
  cbv zeta. rewrite Hs, Hk.
  apply String.eqb_neq in Hkey. rewrite Hkey.
  unfold read_image. rewrite Hu, (nonempty_None _ Hurl), Hp, Hpath.
  unfold bind, external, lift, ret. rewrite Hread, Hf.
  fold segment default. rewrite Hused, Hrun. cbv zeta. simpl io.
  destruct (axios_post _ _ _ _ _) as [e|cid].
  - rewrite upload_catch_log. simpl. rewrite <- app_assoc. split; [reflexivity|].
    intros envelope H.
    match type of H with snd (upload_catch _ ?l0) = _ =>
      destruct (upload_catch_fails (A := Upload.Envelope) e l0) as [e' He'] end.
    rewrite He' in H. discriminate.
  - simpl. rewrite <- app_assoc. split; [reflexivity|].
    intros envelope [= <-]. reflexivity.
Qed.

(** ** What a handler that returned, or failed, has done *)

Lemma zod_result_inr {A} lib issues (v p : A) :
  Zod.result lib issues v = inr p -> issues = [] /\ p = v.
Proof.
  unfold Zod.result. destruct issues; [intros [= <-]; auto | discriminate].
Qed.

Lemma none_invoked (invs : list Invocation) : Forall (fun _ => False) invs -> invs = [].
Proof. destruct invs; [reflexivity|]. intros H. inversion H. contradiction. Qed.

Lemma upload_catch_never_returns {A} e0 l l' (v : A) : upload_catch e0 l <> (l', inr v).
Proof.
  intros H. destruct (upload_catch_fails (A := A) e0 l) as [e He].
  rewrite H in He. discriminate.
Qed.

(** What a successful upload has done. *)
Lemma handleUploadToIPFS_success lib w a l l' envelope :
  handleUploadToIPFS lib w a l = (l', inr envelope) ->
  let service := resolve_service w (Upload.service a) in
  let apiKey := resolve_apiKey w service (Upload.apiKey a) in
  Upload.issues lib a = [] /\ apiKey <> "" /\ serviceEnvMap service <> None
  /\ Upload.out_success envelope = true
  /\ invoked l' = invoked l
  /\ exists before url form gateway,
       io l' = (before ++ [EvPost url form ("Bearer " ++ apiKey)])%list
       /\ axios_post w before url form ("Bearer " ++ apiKey) = inr (Upload.out_cid envelope)
       /\ is_endpoint url
       /\ form_filename form = Upload.out_fileName envelope
       /\ Upload.out_gatewayUrl envelope = gateway ++ Js.interp (Upload.out_cid envelope)
       /\ Js.startsWith "https://" gateway = true.
Proof.
  rewrite handleUploadToIPFS_run. unfold Upload.parse.
  destruct (Zod.result _ _ _) as [e|parsed] eqn:Hparse;
    [intros H; destruct (upload_catch_never_returns _ _ _ _ H)|].
  apply zod_result_inr in Hparse as [Hissues ->]. cbn [Upload.p_service Upload.p_apiKey].
  cbv zeta.
  destruct (String.eqb_spec (resolve_apiKey w (resolve_service w (Upload.service a)) (Upload.apiKey a)) "") as [|Hkey];
    [intros H; destruct (upload_catch_never_returns _ _ _ _ H)|].
  destruct (read_image _ _ _ l) as [l1 [e|[data fileName]]] eqn:Hread;
    [intros H; destruct (upload_catch_never_returns _ _ _ _ H)|].
  assert (Hinv : invoked l1 = invoked l).
  { revert Hread. unfold read_image, bind, external, lift, ret, throw.
    repeat match goal with
           | |- context [match ?x with _ => _ end] => destruct x
           end; intros [= <- _]; try reflexivity; discriminate. }
  destruct (upload_by_service_run w (resolve_service w (Upload.service a)))
    as [(url & net & gw & Hsvc & Hurl & Hgw & Hrun)|[_ Hrun]]; rewrite Hrun; cbv zeta;
    [|intros H; destruct (upload_catch_never_returns _ _ _ _ H)].
  destruct (axios_post _ _ _ _ _) as [e|cid] eqn:Hpost;
    [intros H; destruct (upload_catch_never_returns _ _ _ _ H)|].
  intros [= <- <-]. simpl. repeat split; auto.
  exists (io l1), url,
    {| form_file := Bytes data; form_filename := fileName; form_network := net |}, gw.
  auto 10.
Qed.

(** What a successful metadata call has done. *)
Lemma handleCreateMetadata_success lib w a l l' envelope :
  handleCreateMetadata lib w a l = (l', inr envelope) ->
  Metadata.out_success envelope = true
  /\ invoked l' = invoked l
  /\ Metadata.out_metadata envelope
     = {| md_name := Js.interp (Metadata.name a);
          md_description := Js.interp (Metadata.description a);
          md_image := "ipfs://" ++ Js.interp (Metadata.imageHash a);
          md_external_url := Metadata.external_url a;
          md_attributes := match Metadata.attributes a with Some t => t | None => [] end;
          md_properties := match Metadata.properties a with Some t => t | None => [] end |}
  /\ exists url network authorization,
       io l' = (io l ++ [EvPost url
                          {| form_file := MetadataJson (Metadata.out_metadata envelope);
                             form_filename := "metadata.json";
                             form_network := network |}
                          authorization])%list.
Proof.
  rewrite handleCreateMetadata_run. unfold Metadata.parse.
  destruct (Zod.result _ _ _) as [e|parsed] eqn:Hparse;
    [rewrite metadata_catch_run; discriminate|].
  apply zod_result_inr in Hparse as [Hissues ->]. cbv zeta.
  destruct (_ =? ""); [rewrite metadata_catch_run; discriminate|].
  match goal with |- context [upload_by_service w ?s _ _ _ _] =>
    destruct (upload_by_service_run w s)
      as [(url & net & gw & Hsvc & Hurl & Hgw & Hrun)|[_ Hrun]]; rewrite Hrun; cbv zeta;
      [|rewrite metadata_catch_run; discriminate] end.
  destruct (axios_post _ _ _ _ _) as [e|cid] eqn:Hpost;
    [rewrite metadata_catch_run; discriminate|].
  intros [= <- <-]. simpl. repeat split; auto.
  eexists _, _, _. reflexivity.
Qed.

Lemma package_parse_inr lib a parsed :
  Package.parse lib a = inr parsed ->
  Package.issues lib a = []
  /\ Package.p_prompt parsed = Package.prompt a
  /\ Package.p_imageUrl parsed = Package.imageUrl a
  /\ Package.p_imagePath parsed = Package.imagePath a
  /\ Some (Package.p_name parsed) = Package.name a
  /\ Package.p_external_url parsed = Package.external_url a.
Proof.
  unfold Package.parse. intros H. apply zod_result_inr in H as [Hi ->].
  split; [exact Hi|]. simpl. repeat split.
  unfold Package.issues in Hi.
  destruct (Package.name a); [reflexivity|].
  destruct (Zod.optional_url lib "imageUrl" _); discriminate.
Qed.

Lemma package_parse_fields lib a parsed :
  Package.parse lib a = inr parsed ->
  parsed
  = {| Package.p_prompt := Package.prompt a;
       Package.p_imageUrl := Package.imageUrl a;
       Package.p_imagePath := Package.imagePath a;
       Package.p_style := Package.style a;
       Package.p_aspectRatio :=
         match Package.aspectRatio a with Some r => r | None => ratio_1_1 end;
       Package.p_quality := match Package.quality a with Some q => q | None => high end;
       Package.p_name := Js.interp (Package.name a);
       Package.p_description := Js.interp (Package.description a);
       Package.p_external_url := Package.external_url a;
       Package.p_attributes := Package.attributes a;
       Package.p_properties := Package.properties a;
       Package.p_ipfsService := Package.ipfsService a;
       Package.p_ipfsApiKey := Package.ipfsApiKey a |}.
Proof.
  unfold Package.parse. intros H. apply zod_result_inr in H as [_ ->]. reflexivity.
Qed.


Lemma upload_image_log lib w parsed src l :
  exists evs,
    io (fst (upload_image lib w parsed src l)) = (io l ++ evs)%list
    /\ Forall (fun ev => is_generate ev = false /\ is_metadata_post ev = false) evs
    /\ invoked (fst (upload_image lib w parsed src l))
       = (invoked l
          ++ [InvUpload (upload_args parsed src (upload_fileName parsed (Date_now w (io l))))])%list.
Proof.
  rewrite upload_image_run. cbv zeta.
  match goal with |- context [handleUploadToIPFS lib w ?a ?l0] =>
    destruct (handleUploadToIPFS_appends lib w a l0) as (evs & invs & Hio & Hinv & Hq & Hr);
    destruct (handleUploadToIPFS lib w a l0) as [l1 [e|uploadData]] end;
    apply none_invoked in Hr; subst invs; rewrite app_nil_r in Hinv; simpl in Hio, Hinv;
    exists evs.
  - auto.
  - destruct (negb _); [auto|]. destruct (Js.nonempty _); auto.
Qed.

Lemma create_metadata_log lib w parsed src uploadData imageCid l :
  exists evs,
    io (fst (create_metadata lib w parsed src uploadData imageCid l)) = (io l ++ evs)%list
    /\ Forall (fun ev => is_generate ev = false) evs
    /\ invoked (fst (create_metadata lib w parsed src uploadData imageCid l))
       = (invoked l ++ [InvMetadata (metadata_args parsed imageCid)])%list.
Proof.
  rewrite create_metadata_run. cbv zeta.
  match goal with |- context [handleCreateMetadata lib w ?a ?l0] =>
    destruct (handleCreateMetadata_appends lib w a l0) as (evs & invs & Hio & Hinv & Hq & Hr);
    destruct (handleCreateMetadata lib w a l0) as [l1 [e|metadataData]] end;
    apply none_invoked in Hr; subst invs; rewrite app_nil_r in Hinv; simpl in Hio, Hinv;
    exists evs.
  - auto.
  - destruct (negb _); auto.
Qed.

(** ** The image source of build_complete

    C3. A build_complete request in which [prompt], [imageUrl] and
    [imagePath] are all absent or empty fails in the schema: the error is
    the [ZodError] of a non-empty list of issues (the one of the refinement
    among them when [name] and [description] are there), wrapped by the
    handler, and the log is left as it was, so no generation, fetch, read or
    upload has been issued. *)
Theorem build_complete_without_source_fails_before_any_call lib w a l :
  Js.truthy (Package.prompt a) = false ->
  Js.truthy (Package.imageUrl a) = false ->
  Js.truthy (Package.imagePath a) = false ->
  Package.issues lib a <> []
  /\ handleCreatePackage lib w a l
     = (l, inl (Error ("NFT package creation failed: "
                       ++ ZodError_message lib (Package.issues lib a))))
  /\ (Package.name a <> None -> Package.description a <> None ->
      In {| issue_path := [];
            issue_message := "Must provide either prompt, imageUrl, or imagePath" |}
         (Package.issues lib a)).
Proof.
  intros Hp Hu Hf.
  assert (Hsrc : Package.has_source a = false).
  { unfold Package.has_source. rewrite Hp, Hu, Hf. reflexivity. }
  assert (Hne : Package.issues lib a <> []).
  { unfold Package.issues. rewrite Hsrc.
    destruct (Package.name a), (Package.description a); simpl;
      destruct (Zod.optional_url lib "imageUrl" _); simpl; try discriminate;
      destruct (Zod.optional_url lib "external_url" _); discriminate. }
  split; [exact Hne|]. split.
  - rewrite handleCreatePackage_run. unfold Package.parse, Zod.result.
    destruct (Package.issues lib a); [contradiction | reflexivity].
  - intros Hn Hd. unfold Package.issues. rewrite Hsrc.
    destruct (Package.name a); [|contradiction].
    destruct (Package.description a); [|contradiction].
    simpl. rewrite !in_app_iff. right. right. simpl. auto.
Qed.

(** C4. A valid build_complete request with a non-empty [imageUrl] and no
    prompt never calls the image generator, and the first handler it calls
    is the upload, with that URL as its [imageUrl]. *)
Theorem build_complete_with_url_never_generates lib w a l parsed url :
  Package.parse lib a = inr parsed ->
  Js.truthy (Package.prompt a) = false ->
  Js.nonempty (Package.imageUrl a) = Some url ->
  let run := handleCreatePackage lib w a l in
  (exists evs,
      io (fst run) = (io l ++ evs)%list /\ Forall (fun ev => is_generate ev = false) evs)
  /\ (exists args rest,
      invoked (fst run) = (invoked l ++ InvUpload args :: rest)%list
      /\ Upload.imageUrl args = Some url).
Proof.
  intros Hparse Hprompt Hurl run. subst run.
  rewrite handleCreatePackage_run, Hparse.
  apply package_parse_inr in Hparse as (_ & Hp & Hu & _).
  assert (Hres : resolve_image w parsed l
                 = (l, inr {| finalImageUrl := Some url; finalImagePath := None;
                              generatedPrompt := None |})).
  { unfold resolve_image. rewrite Hp, (nonempty_None _ Hprompt), Hu, Hurl. reflexivity. }
  rewrite Hres.
  match goal with |- context [upload_image lib w parsed ?s l] => set (src := s) end.
  destruct (upload_image_log lib w parsed src l) as (evs & Hio & Hq & Hinv).
  assert (Hargs : Upload.imageUrl (upload_args parsed src (upload_fileName parsed (Date_now w (io l)))) = Some url).
  { simpl. apply nonempty_Some in Hurl as [_ Hne]. unfold Js.nonempty, Js.truthy.
    apply String.eqb_neq in Hne. rewrite Hne. reflexivity. }
  assert (Hq' : Forall (fun ev => is_generate ev = false) evs).
  { eapply Forall_impl; [|exact Hq]. simpl. tauto. }
  destruct (upload_image lib w parsed src l) as [l2 [e|[uploadData imageCid]]]; simpl in Hio, Hinv.
  - simpl. split; [eauto|]. eexists _, []. split; [exact Hinv | exact Hargs].
  - destruct (create_metadata_log lib w parsed src uploadData imageCid l2)
      as (evs' & Hio' & Hq2 & Hinv').
    destruct (create_metadata _ _ _ _ _ _ l2) as [l3 [e|r]]; simpl in *.
    + split.
      * exists (evs ++ evs')%list. rewrite Hio', Hio, <- app_assoc. split; [reflexivity|].
        apply Forall_app; auto.
      * eexists _, [_]. rewrite Hinv', Hinv, <- app_assoc. split; [reflexivity | exact Hargs].
    + split.
      * exists (evs ++ evs')%list. rewrite Hio', Hio, <- app_assoc. split; [reflexivity|].
        apply Forall_app; auto.
      * eexists _, [_]. rewrite Hinv', Hinv, <- app_assoc. split; [reflexivity | exact Hargs].
Qed.

Lemma startsWith_app p s t : Js.startsWith p s = true -> Js.startsWith p (s ++ t) = true.
Proof.
  revert s; induction p as [|c p IH]; intros [|d s]; simpl; try reflexivity; try discriminate.
  intros H. apply andb_prop in H as [-> H]. apply IH, H.
Qed.

Lemma upload_image_success lib w parsed src l l' uploadData imageCid :
  upload_image lib w parsed src l = (l', inr (uploadData, imageCid)) ->
  exists l0,
    io l0 = io l
    /\ handleUploadToIPFS lib w
         (upload_args parsed src (upload_fileName parsed (Date_now w (io l)))) l0
       = (l', inr uploadData)
    /\ Upload.out_cid uploadData = Some imageCid.
Proof.
  rewrite upload_image_run. cbv zeta.
  match goal with |- context [handleUploadToIPFS lib w ?a ?l0] =>
    intros H; exists l0; revert H;
    destruct (handleUploadToIPFS lib w a l0) as [l1 [e|data]] end; [discriminate|].
  destruct (negb _); [discriminate|].
  destruct (Js.nonempty _) as [cid|] eqn:Hcid; [|discriminate].
  intros [= <- <- <-]. apply nonempty_Some in Hcid as [Hcid _]. auto.
Qed.

(** ** The stages of build_complete

    C1. After a successful build_complete the last two external calls are
    the upload of the image and the upload of the metadata document; the
    document uploaded is the one returned, its [image] is [ipfs://] followed
    by the content identifier that the storage service returned for the
    image, and it differs from the gateway URL of the image, which starts
    with [https://]. *)
Theorem build_complete_metadata_points_at_the_image_cid lib w a l l' result :
  handleCreatePackage lib w a l = (l', inr result) ->
  exists before url1 form1 auth1 url2 form2 auth2,
    io l' = (before ++ [EvPost url1 form1 auth1; EvPost url2 form2 auth2])%list
    /\ axios_post w before url1 form1 auth1 = inr (Some (Package.out_imageCid result))
    /\ form_file form2 = MetadataJson (Package.out_metadata result)
    /\ md_image (Package.out_metadata result) = "ipfs://" ++ Package.out_imageCid result
    /\ Js.startsWith "https://" (Package.out_imageUrl result) = true
    /\ md_image (Package.out_metadata result) <> Package.out_imageUrl result.
Proof.
  rewrite handleCreatePackage_run.
  destruct (Package.parse lib a) as [e|parsed]; [discriminate|].
  destruct (resolve_image w parsed l) as [l1 [e|src]]; [discriminate|].
  destruct (upload_image lib w parsed src l1) as [l2 [e|[uploadData imageCid]]] eqn:Hup;
    [discriminate|].
  rewrite create_metadata_run. cbv zeta.
  destruct (handleCreateMetadata _ _ _ _) as [l3 [e|metadataData]] eqn:Hmd; [discriminate|].
  destruct (negb _); [discriminate|].
  intros [= <- <-].
  apply upload_image_success in Hup as (l0 & _ & Hup & Hcid).
  apply handleUploadToIPFS_success in Hup
    as (_ & _ & _ & _ & _ & before & url1 & form1 & gw & Hio & Hpost & _ & _ & Hgw & Hhttps).
  apply handleCreateMetadata_success in Hmd
    as (_ & _ & Hdoc & url2 & net2 & auth2 & Hio2).
  simpl in Hio2. rewrite Hio, <- app_assoc in Hio2. simpl in Hio2.
  rewrite Hcid in Hpost.
  eexists before, url1, form1, _, url2, _, auth2.
  split; [exact Hio2|]. split; [exact Hpost|]. split; [reflexivity|].
  cbn [package_envelope Package.out_metadata Package.out_imageCid Package.out_imageUrl].
  rewrite Hdoc, Hgw. cbn [md_image metadata_args Metadata.imageHash Js.interp].
  split; [reflexivity|].
  pose proof (startsWith_app _ _ (Js.interp (Upload.out_cid uploadData)) Hhttps) as Hs.
  split; [exact Hs|].
  intros E. rewrite <- E in Hs. discriminate.
Qed.





Lemma package_external_url_valid lib a parsed :
  Package.parse lib a = inr parsed ->
  Zod.optional_url lib "external_url" (Package.p_external_url parsed) = [].
Proof.
  intros H. apply package_parse_inr in H as (Hi & _ & _ & _ & _ & ->).
  unfold Package.issues in Hi.
  do 3 (apply app_eq_nil in Hi as [_ Hi]). apply app_eq_nil in Hi as [Hi _].
  exact Hi.
Qed.


(** ** The precedence of the image sources *)

Lemma io_equiv_ext {A} (m m' : M A) :
  (forall l, m' l = m l) -> io_equiv m m -> io_equiv m m'.
Proof. intros E H l l' Hl. rewrite E. apply H, Hl. Qed.

Lemma upload_by_service_io w service apiKey buffer fileName :
  io_equiv (upload_by_service w service apiKey buffer fileName)
           (upload_by_service w service apiKey buffer fileName).
Proof. unfold upload_by_service. log_rules. Qed.

Lemma handleUploadToIPFS_io lib w a :
  io_equiv (handleUploadToIPFS lib w a) (handleUploadToIPFS lib w a).
Proof.
  unfold handleUploadToIPFS, read_image, upload_catch. cbv zeta. log_rules.
  all: try apply upload_by_service_io.
Qed.

Lemma handleCreateMetadata_io lib w a :
  io_equiv (handleCreateMetadata lib w a) (handleCreateMetadata lib w a).
Proof.
  unfold handleCreateMetadata, metadata_catch. cbv zeta. log_rules.
  all: try apply upload_by_service_io.
Qed.

Lemma resolve_image_io w parsed : io_equiv (resolve_image w parsed) (resolve_image w parsed).
Proof. unfold resolve_image. cbv zeta. log_rules. Qed.

Lemma create_metadata_io lib w parsed src uploadData imageCid :
  io_equiv (create_metadata lib w parsed src uploadData imageCid)
           (create_metadata lib w parsed src uploadData imageCid).
Proof.
  unfold create_metadata. cbv zeta. log_rules. apply handleCreateMetadata_io.
Qed.

(** With an [imageUrl], [handleUploadToIPFS] never looks at [imagePath]. *)
Lemma upload_ignores_path lib w imageUrl path path' fileName service apiKey l :
  Js.truthy imageUrl = true ->
  handleUploadToIPFS lib w
    {| Upload.imageUrl := imageUrl; Upload.imagePath := path'; Upload.fileName := fileName;
       Upload.service := service; Upload.apiKey := apiKey |} l
  = handleUploadToIPFS lib w
      {| Upload.imageUrl := imageUrl; Upload.imagePath := path; Upload.fileName := fileName;
         Upload.service := service; Upload.apiKey := apiKey |} l.
Proof.
  intros Hurl. rewrite !handleUploadToIPFS_run.
  unfold Upload.parse, Upload.issues. cbn [Upload.imageUrl Upload.imagePath Upload.fileName
    Upload.service Upload.apiKey]. rewrite Hurl. cbn [orb Zod.refine].
  destruct (Zod.optional_url lib "imageUrl" imageUrl); [|reflexivity].
  cbn [app Zod.result Upload.p_service Upload.p_apiKey]. cbv zeta.
  destruct (_ =? ""); [reflexivity|].
  unfold read_image. cbn [Upload.p_imageUrl Upload.p_fileName].
  unfold Js.nonempty. rewrite Hurl. destruct imageUrl; [reflexivity | discriminate].
Qed.

Lemma io_equiv_bind_post {A B} (P : A -> Prop) (m m' : M A) (k k' : A -> M B) :
  io_equiv m m' ->
  (forall l l1 a, m l = (l1, inr a) -> P a) ->
  (forall a, P a -> io_equiv (k a) (k' a)) ->
  io_equiv (bind m k) (bind m' k').
Proof.
  intros Hm HP Hk l l' E. unfold bind.
  destruct (Hm l l' E) as [Hr Hio]. specialize (HP l).
  destruct (m l) as [l1 [e|a]], (m' l') as [l1' [e'|a']]; simpl in *;
    try discriminate.
  - injection Hr as ->. split; [reflexivity | assumption].
  - injection Hr as ->. apply Hk; [eapply HP; reflexivity | exact Hio].
Qed.

Lemma resolve_image_source w parsed l l1 src :
  resolve_image w parsed l = (l1, inr src) ->
  Js.truthy (finalImageUrl src) = true \/ Js.truthy (finalImagePath src) = true.
Proof.
  unfold resolve_image, bind, external, ret, throw.
  destruct (Js.nonempty (Package.p_prompt parsed)) as [prompt|].
  - destruct (generateImage w (io l) _) as [e|r]; [discriminate|].
    destruct (res_success r); simpl; [|discriminate].
    destruct (Js.truthy (res_imageUrl r)) eqn:Hu; simpl.
    + intros [= _ <-]. auto.
    + destruct (Js.truthy (res_localPath r)) eqn:Hp; simpl; [|discriminate].
      intros [= _ <-]. auto.
  - destruct (Js.nonempty (Package.p_imageUrl parsed)) as [url|] eqn:Hu.
    + intros [= _ <-]. left. apply nonempty_Some in Hu as [_ Hu].
      simpl. apply String.eqb_neq in Hu. rewrite Hu. reflexivity.
    + destruct (Js.nonempty (Package.p_imagePath parsed)) as [path|] eqn:Hp; [|discriminate].
      intros [= _ <-]. right. apply nonempty_Some in Hp as [_ Hp].
      simpl. apply String.eqb_neq in Hp. rewrite Hp. reflexivity.
Qed.

(** The upload stage does not depend on the [imagePath] of the request once
    step 1 has left a source. *)
Lemma upload_image_ignores_path lib w parsed parsed' src :
  Js.truthy (finalImageUrl src) = true \/ Js.truthy (finalImagePath src) = true ->
  Package.p_name parsed' = Package.p_name parsed ->
  Package.p_prompt parsed' = Package.p_prompt parsed ->
  Package.p_ipfsService parsed' = Package.p_ipfsService parsed ->
  Package.p_ipfsApiKey parsed' = Package.p_ipfsApiKey parsed ->
  io_equiv (upload_image lib w parsed src) (upload_image lib w parsed' src).
Proof.
  intros Hsrc Hn Hp Hs Hk. unfold upload_image.
  apply io_equiv_bind; [apply io_equiv_clock|]. intros now. cbv zeta.
  apply io_equiv_bind.
  - apply io_equiv_invoke.
    unfold upload_args, upload_fileName, baseFileName. rewrite Hn, Hp, Hs, Hk.
    destruct (Js.truthy (finalImagePath src)) eqn:Hpath.
    + unfold Js.or. rewrite Hpath. apply handleUploadToIPFS_io.
    + destruct Hsrc as [Hurl|]; [|discriminate].
      apply io_equiv_ext; [|apply handleUploadToIPFS_io].
      intros l. apply upload_ignores_path.
      unfold Js.nonempty. rewrite Hurl. exact Hurl.
  - intros uploadData. log_rules.
Qed.

Lemma has_source_refine a :
  Package.name a <> None -> Package.description a <> None -> Package.has_source a = true ->
  Zod.refine (Zod.missing (Package.name a) || Zod.missing (Package.description a))
    (Package.has_source a) "Must provide either prompt, imageUrl, or imagePath" = []
  /\ Zod.required "name" (Package.name a) = []
  /\ Zod.required "description" (Package.description a) = [].
Proof.
  intros Hn Hd ->. destruct (Package.name a); [|contradiction].
  destruct (Package.description a); [|contradiction]. auto.
Qed.

Lemma package_precedence lib w a imageUrl imagePath :
  Package.issues lib a = [] ->
  Package.issues lib (with_sources imageUrl imagePath a) = [] ->
  Js.truthy (Package.prompt a) = true
  \/ (imageUrl = Package.imageUrl a /\ Js.truthy (Package.imageUrl a) = true) ->
  io_equiv (handleCreatePackage lib w a)
           (handleCreatePackage lib w (with_sources imageUrl imagePath a)).
Proof.
  intros Hi Hi' Hsrc. unfold handleCreatePackage.
  apply io_equiv_try_catch; [|intros e; unfold package_catch; apply io_equiv_throw].
  unfold Package.parse. rewrite Hi, Hi'. cbn [Zod.result].
  set (parsed := Package.Build_Parsed _ _ _ _ _ _ _ _ _ _ _ _ _).
  set (parsed' := Package.Build_Parsed _ _ _ _ _ _ _ _ _ _ _ _ _).
  change (io_equiv
    (bind (resolve_image w parsed) (fun src =>
       bind (upload_image lib w parsed src) (fun uploaded =>
         let '(uploadData, imageCid) := uploaded in
         create_metadata lib w parsed src uploadData imageCid)))
    (bind (resolve_image w parsed') (fun src =>
       bind (upload_image lib w parsed' src) (fun uploaded =>
         let '(uploadData, imageCid) := uploaded in
         create_metadata lib w parsed' src uploadData imageCid)))).
  apply (io_equiv_bind_post
           (fun src => Js.truthy (finalImageUrl src) = true
                       \/ Js.truthy (finalImagePath src) = true)).
  - apply io_equiv_ext; [|apply resolve_image_io].
    intros l. unfold resolve_image, parsed, parsed'.
    cbn [Package.p_prompt Package.p_imageUrl Package.p_imagePath Package.p_style
         Package.p_aspectRatio Package.p_quality with_sources Package.prompt Package.imageUrl
         Package.imagePath Package.style Package.aspectRatio Package.quality].
    destruct Hsrc as [Hp|[-> Hu]].
    + unfold Js.nonempty at 1 4. rewrite Hp.
      destruct (Package.prompt a); [reflexivity | discriminate].
    + destruct (Js.nonempty (Package.prompt a)); [reflexivity|].
      unfold Js.nonempty at 1 3. rewrite Hu.
      destruct (Package.imageUrl a); [reflexivity | discriminate].
  - intros l l1 src. apply resolve_image_source.
  - intros src Hs. apply io_equiv_bind.
    + apply upload_image_ignores_path; auto.
    + intros [uploadData imageCid].
      apply io_equiv_ext; [intros l; reflexivity | apply create_metadata_io].
Qed.


Lemma nonempty_truthy o s : Js.nonempty o = Some s -> Js.nonempty (Some s) = Some s.
Proof.
  intros H. apply nonempty_Some in H as [_ Hne].
  unfold Js.nonempty, Js.truthy. apply String.eqb_neq in Hne. rewrite Hne. reflexivity.
Qed.

Lemma resolve_image_generates w parsed prompt l :
  Js.nonempty (Package.p_prompt parsed) = Some prompt ->
  let request :=
    {| req_prompt := prompt;
       req_style := Package.p_style parsed;
       req_aspectRatio := Some (Package.p_aspectRatio parsed);
       req_quality := Some (Package.p_quality parsed);
       req_seed := None;
       req_model := None |} in
  resolve_image w parsed l
  = ({| io := io l ++ [EvGenerate request]; invoked := invoked l |},
     match generateImage w (io l) request with
     | inl e => inl e
     | inr r =>
         match generation_failure (inr r) with
         | Some e => inl e
         | None => inr {| finalImageUrl := res_imageUrl r;
                          finalImagePath := res_localPath r;
                          generatedPrompt := Some (res_prompt r) |}
         end
     end).
Proof.
  intros Hp request. unfold resolve_image. rewrite Hp. fold request.
  unfold bind, external, generation_failure.
  destruct (generateImage w (io l) request) as [e|r]; [reflexivity|].
  destruct (_ || _); reflexivity.
Qed.

(** The run of the handler once the schema and the credential are passed. *)
Lemma handleUploadToIPFS_with_key lib w a l :
  Upload.issues lib a = [] ->
  let service := resolve_service w (Upload.service a) in
  let apiKey := resolve_apiKey w service (Upload.apiKey a) in
  apiKey <> "" ->
  exists parsed,
    Upload.p_imageUrl parsed = Upload.imageUrl a
    /\ Upload.p_imagePath parsed = Upload.imagePath a
    /\ Upload.p_fileName parsed
       = match Upload.fileName a with Some f => f | None => "image.png" end
    /\ handleUploadToIPFS lib w a l
       = match read_image lib w parsed l with
         | (l1, inl e) => (l1, inl (Error (upload_failure_message e)))
         | (l1, inr (data, fileName)) =>
             match upload_by_service w service apiKey (Bytes data) fileName l1 with
             | (l2, inl e) => (l2, inl (Error (upload_failure_message e)))
             | (l2, inr (cid, gatewayUrl)) =>
                 (l2, inr (upload_envelope service fileName cid gatewayUrl))
             end
         end.
Proof.
  intros Hvalid service apiKey Hkey.
  destruct (upload_parse_valid _ _ Hvalid) as (parsed & Hparse & Hu & Hp & Hf & Hs & Hk).
  exists parsed. repeat split; auto.
  rewrite handleUploadToIPFS_run, Hparse. cbv zeta. rewrite Hs, Hk.
  fold service. fold apiKey. apply String.eqb_neq in Hkey. rewrite Hkey.
  destruct (read_image lib w parsed l) as [l1 [e|[data fileName]]];
    [apply upload_catch_run|].
  destruct (upload_by_service _ _ _ _ _ l1) as [l2 [e|[cid gw]]];
    [apply upload_catch_run | reflexivity].
Qed.

(** The first external call of an upload that has passed the schema and has
    a credential: the fetch of the URL when there is one, the read of the
    file otherwise. *)
Lemma upload_first_call lib w a l :
  Upload.issues lib a = [] ->
  resolve_apiKey w (resolve_service w (Upload.service a)) (Upload.apiKey a) <> "" ->
  (forall url, Js.nonempty (Upload.imageUrl a) = Some url ->
     exists rest, io (fst (handleUploadToIPFS lib w a l)) = (io l ++ EvGet url :: rest)%list)
  /\ (forall path, Js.truthy (Upload.imageUrl a) = false ->
        Js.nonempty (Upload.imagePath a) = Some path ->
        exists rest,
          io (fst (handleUploadToIPFS lib w a l)) = (io l ++ EvReadFile path :: rest)%list).
Proof.
  intros Hvalid Hkey.
  destruct (handleUploadToIPFS_with_key lib w a l Hvalid Hkey) as (parsed & Hu & Hp & _ & ->).
  assert (Hpost : forall data fileName l1 ev,
    io l1 = (io l ++ [ev])%list ->
    exists rest,
      io (fst (match upload_by_service w (resolve_service w (Upload.service a))
                       (resolve_apiKey w (resolve_service w (Upload.service a)) (Upload.apiKey a))
                       (Bytes data) fileName l1 with
               | (l2, inl e) => (l2, inl (Error (upload_failure_message e)))
               | (l2, inr (cid, gatewayUrl)) =>
                   (l2, inr (upload_envelope (resolve_service w (Upload.service a)) fileName cid
                               gatewayUrl))
               end))
      = (io l ++ ev :: rest)%list).
  { intros data fileName l1 ev Hio.
    destruct (upload_by_service_appends (fun _ => True) (fun _ => True) w
                (resolve_service w (Upload.service a))
                (resolve_apiKey w (resolve_service w (Upload.service a)) (Upload.apiKey a))
                (Bytes data) fileName (fun _ _ _ => I) l1) as (evs & _ & Hio' & _).
    exists evs. destruct (upload_by_service _ _ _ _ _ l1) as [l2 [e|[cid gw]]];
      simpl in Hio' |- *; rewrite Hio', Hio, <- app_assoc; reflexivity. }
  split.
  - intros url Hurl. unfold read_image. rewrite Hu, Hurl.
    unfold bind, external, lift, ret.
    destruct (axios_get w (io l) url) as [e|data]; [exists []; reflexivity|].
    destruct (URL_pathname lib url) as [e|path]; [exists []; reflexivity|].
    apply Hpost. reflexivity.
  - intros path Hurl Hpath. unfold read_image. rewrite Hu, (nonempty_None _ Hurl), Hp, Hpath.
    unfold bind, external, ret.
    destruct (readFileSync w (io l) path) as [e|data]; [exists []; reflexivity|].
    apply Hpost. reflexivity.
Qed.

(** What build_complete does once step 1 has left a source: it calls the
    upload handler on that source, and whatever follows appends to what the
    upload handler has done, without any generation. *)
Lemma package_after_source lib w a l parsed l1 src :
  Package.parse lib a = inr parsed ->
  resolve_image w parsed l = (l1, inr src) ->
  let args := upload_args parsed src (upload_fileName parsed (Date_now w (io l1))) in
  exists l0 evs evs' rest,
    io l0 = io l1
    /\ io (fst (handleUploadToIPFS lib w args l0)) = (io l1 ++ evs)%list
    /\ io (fst (handleCreatePackage lib w a l)) = (io l1 ++ evs ++ evs')%list
    /\ Forall (fun ev => is_generate ev = false) (evs ++ evs')
    /\ invoked (fst (handleCreatePackage lib w a l))
       = (invoked l1 ++ InvUpload args :: rest)%list.
Proof.
  intros Hparse Hres args.
  rewrite handleCreatePackage_run, Hparse, Hres.
  destruct (upload_image_log lib w parsed src l1) as (evs & Hio & Hq & Hinv).
  fold args in Hinv.
  assert (Hq' : Forall (fun ev => is_generate ev = false) evs).
  { eapply Forall_impl; [|exact Hq]. simpl. tauto. }
  assert (Hinner : io (fst (handleUploadToIPFS lib w args
                              {| io := io l1; invoked := invoked l1 ++ [InvUpload args] |}))
                   = io (fst (upload_image lib w parsed src l1))).
  { rewrite upload_image_run. cbv zeta. fold args.
    destruct (handleUploadToIPFS lib w args _) as [l2 [e|uploadData]]; [reflexivity|].
    destruct (negb (Upload.out_success uploadData)); [reflexivity|].
    destruct (Js.nonempty (Upload.out_cid uploadData)); reflexivity. }
  exists {| io := io l1; invoked := invoked l1 ++ [InvUpload args] |}, evs.
  rewrite Hinner, Hio.
  destruct (upload_image lib w parsed src l1) as [l2 [e|[uploadData imageCid]]];
    simpl in Hio, Hinv.
  - exists [], []. simpl. rewrite app_nil_r. auto.
  - destruct (create_metadata_log lib w parsed src uploadData imageCid l2)
      as (evs' & Hio' & Hq2 & Hinv').
    exists evs', [InvMetadata (metadata_args parsed imageCid)].
    assert (Hlog : io (fst (match create_metadata lib w parsed src uploadData imageCid l2 with
                            | (l3, inl e) => package_catch e l3
                            | (l3, inr r) => (l3, inr r)
                            end))
                   = io (fst (create_metadata lib w parsed src uploadData imageCid l2))
                   /\ invoked (fst (match create_metadata lib w parsed src uploadData imageCid l2
                                     with
                                     | (l3, inl e) => package_catch e l3
                                     | (l3, inr r) => (l3, inr r)
                                     end))
                      = invoked (fst (create_metadata lib w parsed src uploadData imageCid l2))).
    { destruct (create_metadata _ _ _ _ _ _ l2) as [l3 [e|r]]; split; reflexivity. }
    destruct Hlog as [-> ->]. rewrite Hio', Hinv', Hio, Hinv, <- !app_assoc.
    repeat split; auto. apply Forall_app; auto.
Qed.

Lemma package_issues_valid lib a :
  Package.name a <> None ->
  Package.description a <> None ->
  Zod.optional_url lib "imageUrl" (Package.imageUrl a) = [] ->
  Zod.optional_url lib "external_url" (Package.external_url a) = [] ->
  Package.has_source a = true ->
  Package.issues lib a = [].
Proof.
  intros Hn Hd Hu He Hsrc.
  destruct (has_source_refine a Hn Hd Hsrc) as (Hr & Hrn & Hrd).
  unfold Package.issues. rewrite Hu, He, Hr, Hrn, Hrd. reflexivity.
Qed.

(** C9. A build_complete request that supplies more than one of [prompt],
    [imageUrl] and [imagePath] passes the schema like any other that has a
    source, and the source is chosen by precedence.
    With a prompt, the request gives the same result and makes the same
    external calls as the request with its [imageUrl] and [imagePath]
    removed; its first external call is the generation of an image from
    that prompt, and when the generator answers with an image, the upload
    handler is called on the URL of that answer.
    Without a prompt and with an [imageUrl], it behaves as the request with
    its [imagePath] removed; it never calls the generator, it calls the
    upload handler on that URL, and with a credential its first external
    call is the fetch of that URL.
    With an [imagePath] only, it never calls the generator, it calls the
    upload handler on that path and no URL, and with a credential its first
    external call is the read of that file. *)
Theorem build_complete_picks_its_source_by_precedence lib w a :
  Package.name a <> None ->
  Package.description a <> None ->
  Zod.optional_url lib "imageUrl" (Package.imageUrl a) = [] ->
  Zod.optional_url lib "external_url" (Package.external_url a) = [] ->
  Package.has_source a = true ->
  let run := handleCreatePackage lib w a in
  let credential :=
    resolve_apiKey w (resolve_service w (Package.ipfsService a)) (Package.ipfsApiKey a) in
  (exists parsed, Package.parse lib a = inr parsed)
  /\ (Js.truthy (Package.prompt a) = true ->
      io_equiv (handleCreatePackage lib w a)
               (handleCreatePackage lib w (with_sources None None a)))
  /\ (Js.truthy (Package.prompt a) = false ->
      Js.truthy (Package.imageUrl a) = true ->
      io_equiv (handleCreatePackage lib w a)
               (handleCreatePackage lib w (with_sources (Package.imageUrl a) None a)))
  /\ (forall prompt l,
        Js.nonempty (Package.prompt a) = Some prompt ->
        let request :=
          {| req_prompt := prompt;
             req_style := Package.style a;
             req_aspectRatio :=
               Some (match Package.aspectRatio a with Some r => r | None => ratio_1_1 end);
             req_quality := Some (match Package.quality a with Some q => q | None => high end);
             req_seed := None;
             req_model := None |} in
        (exists rest, io (fst (run l)) = (io l ++ EvGenerate request :: rest)%list)
        /\ (forall answer,
              generateImage w (io l) request = inr answer ->
              generation_failure (inr answer) = None ->
              exists evs args rest,
                io (fst (run l)) = (io l ++ EvGenerate request :: evs)%list
                /\ Forall (fun ev => is_generate ev = false) evs
                /\ invoked (fst (run l)) = (invoked l ++ InvUpload args :: rest)%list
                /\ Upload.imageUrl args = Js.nonempty (res_imageUrl answer)
                /\ Upload.imagePath args = Js.or (res_localPath answer) (Package.imagePath a)))
  /\ (forall url l,
        Js.truthy (Package.prompt a) = false ->
        Js.nonempty (Package.imageUrl a) = Some url ->
        (exists evs args rest,
            io (fst (run l)) = (io l ++ evs)%list
            /\ Forall (fun ev => is_generate ev = false) evs
            /\ invoked (fst (run l)) = (invoked l ++ InvUpload args :: rest)%list
            /\ Upload.imageUrl args = Some url
            /\ Upload.imagePath args = Package.imagePath a)
        /\ (credential <> "" ->
            exists rest, io (fst (run l)) = (io l ++ EvGet url :: rest)%list))
  /\ (forall path l,
        Js.truthy (Package.prompt a) = false ->
        Js.truthy (Package.imageUrl a) = false ->
        Js.nonempty (Package.imagePath a) = Some path ->
        (exists evs args rest,
            io (fst (run l)) = (io l ++ evs)%list
            /\ Forall (fun ev => is_generate ev = false) evs
            /\ invoked (fst (run l)) = (invoked l ++ InvUpload args :: rest)%list
            /\ Upload.imageUrl args = None
            /\ Upload.imagePath args = Some path)
        /\ (credential <> "" ->
            exists rest, io (fst (run l)) = (io l ++ EvReadFile path :: rest)%list)).
Proof.
  intros Hn Hd Hu He Hsrc run credential.
  destruct (has_source_refine a Hn Hd Hsrc) as (Hr & Hrn & Hrd).
  pose proof (package_issues_valid lib a Hn Hd Hu He Hsrc) as Hi.
  assert (Hparse : exists parsed, Package.parse lib a = inr parsed).
  { unfold Package.parse. rewrite Hi. eexists. reflexivity. }
  split; [exact Hparse|].
  destruct Hparse as [parsed Hparse].
  pose proof (package_parse_fields _ _ _ Hparse) as Hfields.
  split; [|split; [|split; [|split]]].
  - intros Hp. apply package_precedence; auto.
    unfold Package.issues, Package.has_source.
    cbn [with_sources Package.prompt Package.imageUrl Package.imagePath Package.name
         Package.description Package.external_url].
    rewrite He, Hrn, Hrd, Hp. destruct (Package.name a); [|contradiction].
    destruct (Package.description a); [|contradiction]. reflexivity.
  - intros Hp Hurl. apply package_precedence; auto.
    unfold Package.issues, Package.has_source.
    cbn [with_sources Package.prompt Package.imageUrl Package.imagePath Package.name
         Package.description Package.external_url].
    rewrite Hu, He, Hrn, Hrd, Hurl, orb_true_r. destruct (Package.name a); [|contradiction].
    destruct (Package.description a); [|contradiction]. reflexivity.
  - (* a prompt: the image is generated from it *)
    intros prompt l Hprompt request.
    assert (Hp : Js.nonempty (Package.p_prompt parsed) = Some prompt).
    { rewrite Hfields. exact Hprompt. }
    pose proof (resolve_image_generates w parsed prompt l Hp) as Hres. cbv zeta in Hres.
    assert (Hreq : {| req_prompt := prompt;
                      req_style := Package.p_style parsed;
                      req_aspectRatio := Some (Package.p_aspectRatio parsed);
                      req_quality := Some (Package.p_quality parsed);
                      req_seed := None;
                      req_model := None |} = request).
    { rewrite Hfields. reflexivity. }
    rewrite Hreq in Hres.
    assert (Hgenerated : forall answer,
      generateImage w (io l) request = inr answer ->
      generation_failure (inr answer) = None ->
      exists evs args rest,
        io (fst (run l)) = (io l ++ EvGenerate request :: evs)%list
        /\ Forall (fun ev => is_generate ev = false) evs
        /\ invoked (fst (run l)) = (invoked l ++ InvUpload args :: rest)%list
        /\ Upload.imageUrl args = Js.nonempty (res_imageUrl answer)
        /\ Upload.imagePath args = Js.or (res_localPath answer) (Package.imagePath a)).
    { intros answer Hanswer Hpass. rewrite Hanswer, Hpass in Hres.
      destruct (package_after_source lib w a l parsed _ _ Hparse Hres)
        as (l0 & evs & evs' & rest & _ & _ & Hio & Hq & Hinv).
      cbn [io invoked] in Hio, Hinv.
      eexists (evs ++ evs')%list, _, rest. subst run.
      rewrite Hio, Hinv, <- app_assoc. split; [reflexivity|]. split; [exact Hq|].
      split; [reflexivity|].
      cbn [upload_args Upload.imageUrl Upload.imagePath finalImageUrl finalImagePath].
      rewrite Hfields. split; reflexivity. }
    split; [|exact Hgenerated].
    assert (Hlog : fst (resolve_image w parsed l)
                   = {| io := io l ++ [EvGenerate request]; invoked := invoked l |}).
    { rewrite Hres. reflexivity. }
    clear Hres Hgenerated.
    destruct (resolve_image w parsed l) as [l1 [e|src]] eqn:Hstep; simpl in Hlog; subst l1.
    + subst run. rewrite handleCreatePackage_run, Hparse, Hstep. exists []. reflexivity.
    + destruct (package_after_source lib w a l parsed _ _ Hparse Hstep)
        as (l0 & evs & evs' & rest & _ & _ & Hio & _).
      cbn [io] in Hio. exists (evs ++ evs')%list. subst run.
      rewrite Hio, <- app_assoc. reflexivity.
  - (* no prompt, a URL: the image is fetched from it *)
    intros url l Hprompt Hurl.
    assert (Hres : resolve_image w parsed l
                   = (l, inr {| finalImageUrl := Some url; finalImagePath := None;
                                generatedPrompt := None |})).
    { unfold resolve_image. rewrite Hfields.
      cbn [Package.p_prompt Package.p_imageUrl]. rewrite (nonempty_None _ Hprompt), Hurl.
      reflexivity. }
    destruct (package_after_source lib w a l parsed _ _ Hparse Hres)
      as (l0 & evs & evs' & rest & Hl0 & Hinner & Hio & Hq & Hinv).
    match type of Hinv with context [InvUpload ?x] => set (args := x) in * end.
    assert (Hargs : Upload.imageUrl args = Some url).
    { unfold args. cbn [upload_args Upload.imageUrl finalImageUrl].
      apply (nonempty_truthy _ _ Hurl). }
    split.
    + exists (evs ++ evs')%list, args, rest. repeat split; auto.
      unfold args. cbn [upload_args Upload.imagePath finalImagePath]. rewrite Hfields.
      reflexivity.
    + intros Hkey.
      assert (Hvalid : Upload.issues lib args = []).
      { unfold Upload.issues. rewrite Hargs.
        destruct (nonempty_Some _ _ Hurl) as [Hsome Hne]. rewrite Hsome in Hu. rewrite Hu.
        unfold Js.truthy. apply String.eqb_neq in Hne. rewrite Hne. reflexivity. }
      assert (Hkey' : resolve_apiKey w (resolve_service w (Upload.service args))
                        (Upload.apiKey args) <> "").
      { unfold args. cbn [upload_args Upload.service Upload.apiKey]. rewrite Hfields.
        exact Hkey. }
      destruct (upload_first_call lib w args l0 Hvalid Hkey') as [Hfetch _].
      destruct (Hfetch url) as [rest' Hfirst].
      { rewrite Hargs. apply (nonempty_truthy _ _ Hurl). }
      rewrite Hinner, Hl0 in Hfirst. apply app_inv_head in Hfirst.
      exists (rest' ++ evs')%list. subst run. rewrite Hio, Hfirst. reflexivity.
  - (* neither prompt nor URL, a path: the image is read from it *)
    intros path l Hprompt Hurl Hpath.
    assert (Hres : resolve_image w parsed l
                   = (l, inr {| finalImageUrl := None; finalImagePath := Some path;
                                generatedPrompt := None |})).
    { unfold resolve_image. rewrite Hfields.
      cbn [Package.p_prompt Package.p_imageUrl Package.p_imagePath].
      rewrite (nonempty_None _ Hprompt), (nonempty_None _ Hurl), Hpath. reflexivity. }
    destruct (package_after_source lib w a l parsed _ _ Hparse Hres)
      as (l0 & evs & evs' & rest & Hl0 & Hinner & Hio & Hq & Hinv).
    match type of Hinv with context [InvUpload ?x] => set (args := x) in * end.
    assert (Hargs : Upload.imageUrl args = None /\ Upload.imagePath args = Some path).
    { unfold args. cbn [upload_args Upload.imageUrl Upload.imagePath finalImageUrl
                        finalImagePath].
      split; [reflexivity|]. unfold Js.or.
      pose proof (nonempty_truthy _ _ Hpath) as Ht. unfold Js.nonempty in Ht.
      destruct (Js.truthy (Some path)); [reflexivity | discriminate]. }
    destruct Hargs as [Hnone Hsome].
    split.
    + exists (evs ++ evs')%list, args, rest. repeat split; auto.
    + intros Hkey.
      assert (Hvalid : Upload.issues lib args = []).
      { unfold Upload.issues. rewrite Hnone, Hsome.
        pose proof (nonempty_truthy _ _ Hpath) as Ht. unfold Js.nonempty in Ht.
        destruct (Js.truthy (Some path)); [reflexivity | discriminate]. }
      assert (Hkey' : resolve_apiKey w (resolve_service w (Upload.service args))
                        (Upload.apiKey args) <> "").
      { unfold args. cbn [upload_args Upload.service Upload.apiKey]. rewrite Hfields.
        exact Hkey. }
      destruct (upload_first_call lib w args l0 Hvalid Hkey') as [_ Hread].
      destruct (Hread path) as [rest' Hfirst].
      { rewrite Hnone. reflexivity. }
      { rewrite Hsome. apply (nonempty_truthy _ _ Hpath). }
      rewrite Hinner, Hl0 in Hfirst. apply app_inv_head in Hfirst.
      exists (rest' ++ evs')%list. subst run. rewrite Hio, Hfirst. reflexivity.
Qed.

(** ** The slug and the upload filename

    C5, as amended. A slug has at most 50 characters, all of them in
    [[a-z0-9-]], does not start with a hyphen and has no two hyphens in a
    row. Slugging a slug gives it back, except that a hyphen left at the end
    by the truncation to 50 characters is removed. The slug of
    [Dragon #1!!] is [dragon-1]. The filename that build_complete passes to
    the upload is the slug of [name || prompt || 'nft-image'], a hyphen, the
    clock in milliseconds and [.png]. *)
Theorem slug_shape_and_upload_filename :
  (forall s,
      String.length (Slug.slug s) <= 50
      /\ Slug.forallb_string Slug.slug_char (Slug.slug s) = true
      /\ Js.startsWith "-" (Slug.slug s) = false
      /\ Js.includes "--" (Slug.slug s) = false
      /\ Slug.slug (Slug.slug s)
         = if Js.ends_with_char "-" (Slug.slug s)
           then Js.take (String.length (Slug.slug s) - 1) (Slug.slug s)
           else Slug.slug s)
  /\ Slug.slug "Dragon #1!!" = "dragon-1"
  /\ (forall lib w parsed src l,
        exists args,
          invoked (fst (upload_image lib w parsed src l)) = (invoked l ++ [InvUpload args])%list
          /\ Upload.fileName args
             = Some (Slug.slug (Js.or_str (Js.or (Some (Package.p_name parsed))
                                                (Package.p_prompt parsed)) "nft-image")
                     ++ "-" ++ Js.of_Z (Date_now w (io l)) ++ ".png")).
Proof.
  split; [|split].
  - intros s. pose proof (SlugFacts.slugged_slug s) as Hs.
    split; [apply SlugFacts.length_slug|].
    split; [apply (SlugFacts.slugged_chars _ _ Hs)|].
    split; [apply (SlugFacts.slugged_no_leading_hyphen _ Hs)|].
    split; [apply (SlugFacts.slugged_no_double_hyphen _ _ Hs)|].
    rewrite SlugFacts.slug_slug.
    destruct (Js.ends_with_char "-" (Slug.slug s)) eqn:He.
    + apply (SlugFacts.strip_trailing_drops_last _ _ Hs He).
    + apply SlugFacts.strip_trailing_fixed, He.
  - reflexivity.
  - intros lib w parsed src l.
    destruct (upload_image_log lib w parsed src l) as (evs & _ & _ & Hinv).
    eexists. split; [exact Hinv | reflexivity].
Qed.

(** * The theorems at work, and where the specification goes too far *)

Module Examples.
Import Double.

(** The fox of the end-to-end scenario: the run returns, and C1 applies. *)
Lemma fox_metadata_points_at_abc123 :
  exists l' result,
    handleCreatePackage lib world fox_request start = (l', inr result)
    /\ Package.out_imageCid result = "abc123"
    /\ exists before url1 form1 auth1 url2 form2 auth2,
         io l' = (before ++ [EvPost url1 form1 auth1; EvPost url2 form2 auth2])%list
         /\ axios_post world before url1 form1 auth1 = inr (Some (Package.out_imageCid result))
         /\ form_file form2 = MetadataJson (Package.out_metadata result)
         /\ md_image (Package.out_metadata result) = "ipfs://" ++ Package.out_imageCid result
         /\ Js.startsWith "https://" (Package.out_imageUrl result) = true
         /\ md_image (Package.out_metadata result) <> Package.out_imageUrl result.
Proof.
  eexists _, _. split; [lazy; reflexivity|]. split; [reflexivity|].
  apply (build_complete_metadata_points_at_the_image_cid lib world fox_request start).
  reflexivity.
Defined.



(** C3 applied to a request without any source. *)
Lemma request_without_source_is_rejected :
  Js.truthy (Package.prompt (request None None None "x")) = false
  /\ handleCreatePackage lib world (request None None None "x") start
     = (start,
        inl (Error
          "NFT package creation failed: Must provide either prompt, imageUrl, or imagePath")).
Proof.
  split; [reflexivity|].
  exact (proj1 (proj2 (build_complete_without_source_fails_before_any_call
                         lib world (request None None None "x") start
                         eq_refl eq_refl eq_refl))).
Defined.

(** C4 applied to a request with a URL only. *)
Lemma url_request_never_generates :
  exists parsed,
    Package.parse lib url_request = inr parsed
    /\ (exists evs,
          io (fst (handleCreatePackage lib world url_request start)) = ([] ++ evs)%list
          /\ Forall (fun ev => is_generate ev = false) evs)
    /\ (exists args rest,
          invoked (fst (handleCreatePackage lib world url_request start))
          = ([] ++ InvUpload args :: rest)%list
          /\ Upload.imageUrl args = Some "http://x/fox.png").
Proof.
  eexists. split; [lazy; reflexivity|].
  eapply (build_complete_with_url_never_generates lib world url_request start);
    lazy; reflexivity.
Defined.

(** C5 as the specification states it does not hold: slugging is not idempotent on a
    name whose fiftieth character becomes a hyphen. *)
Lemma slug_is_not_idempotent :
  Slug.slug long_name = "aaaaaaaaaaaaaaaaaaaaaaaaaaaaaaaaaaaaaaaaaaaaaaaaa-"
  /\ Slug.slug (Slug.slug long_name) <> Slug.slug long_name.
Proof. split; [reflexivity|]. intros H. vm_compute in H. discriminate. Qed.

(** C6 applied to calls made without any credential. *)
Lemma calls_without_credential_are_refused :
  handleUploadToIPFS lib no_credential (upload_request (Some "http://x/fox.png") None None) start
  = (start,
     inl (Error ("IPFS upload failed: API key/JWT required for pinata. "
                 ++ "Set PINATA_API_KEY in environment or pass as apiKey parameter.")))
  /\ handleCreateMetadata lib no_credential metadata_request start
     = (start,
        inl (Error ("Metadata creation failed: API key/JWT required for pinata. "
                    ++ "Set PINATA_API_KEY in environment or pass as apiKey parameter."))).
Proof.
  destruct (missing_credential_is_reported_before_any_transfer lib no_credential "PINATA_API_KEY")
    as [Hupload Hmetadata].
  split.
  - exact (Hupload (upload_request (Some "http://x/fox.png") None None) start
             eq_refl eq_refl eq_refl eq_refl).
  - exact (Hmetadata metadata_request start eq_refl eq_refl eq_refl eq_refl).
Defined.



(** C8 applied to a URL whose last segment has an extension. *)
Lemma url_upload_is_named_after_the_url :
  exists endpoint network authorization,
    io (fst (handleUploadToIPFS lib world
               (upload_request (Some "https://h.io/a/b/c.jpg?x=1") None (Some "f.png")) start))
    = ([] ++ [EvGet "https://h.io/a/b/c.jpg?x=1";
              EvPost endpoint
                {| form_file := Bytes "PNG"; form_filename := "c.jpg";
                   form_network := network |}
                authorization])%list
    /\ forall envelope,
         snd (handleUploadToIPFS lib world
                (upload_request (Some "https://h.io/a/b/c.jpg?x=1") None (Some "f.png")) start)
         = inr envelope ->
         Upload.out_fileName envelope = "c.jpg".
Proof.
  refine (upload_from_url_takes_the_filename_of_the_url lib world
            (upload_request (Some "https://h.io/a/b/c.jpg?x=1") None (Some "f.png")) start
            "https://h.io/a/b/c.jpg?x=1" "PNG" "/a/b/c.jpg" eq_refl eq_refl _ _ eq_refl eq_refl);
    discriminate.
Defined.

(** C9 applied to a request that supplies all three sources. *)
Lemma crowded_request_uses_its_prompt :
  Package.has_source crowded_request = true
  /\ (exists parsed, Package.parse lib crowded_request = inr parsed)
  /\ io_equiv (handleCreatePackage lib world crowded_request)
              (handleCreatePackage lib world (with_sources None None crowded_request))
  /\ exists rest,
       io (fst (handleCreatePackage lib world crowded_request start))
       = (io start
          ++ EvGenerate {| req_prompt := "a red fox"; req_style := None;
                           req_aspectRatio := Some ratio_1_1; req_quality := Some high;
                           req_seed := None; req_model := None |}
          :: rest)%list.
Proof.
  split; [reflexivity|].
  pose proof (build_complete_picks_its_source_by_precedence lib world crowded_request) as H.
  cbv zeta in H.
  specialize (H ltac:(discriminate) ltac:(discriminate) eq_refl eq_refl eq_refl).
  destruct H as (Hparse & Hprompt & _ & Hgenerate & _).
  split; [exact Hparse|]. split; [exact (Hprompt eq_refl)|].
  exact (proj1 (Hgenerate "a red fox" start eq_refl)).
Defined.

(** C10 applied to a path with a last segment. *)
Lemma path_upload_is_named_after_the_path :
  (Js.split_pop "/" "/tmp/a/z.png" = "" <-> Js.ends_with_char "/" "/tmp/a/z.png" = true)
  /\ exists endpoint network authorization,
      io (fst (handleUploadToIPFS lib world
                 (upload_request None (Some "/tmp/a/z.png") (Some "q.png")) start))
      = ([] ++ [EvReadFile "/tmp/a/z.png";
                EvPost endpoint
                  {| form_file := Bytes "PNG"; form_filename := "z.png";
                     form_network := network |}
                  authorization])%list
      /\ forall envelope,
           snd (handleUploadToIPFS lib world
                  (upload_request None (Some "/tmp/a/z.png") (Some "q.png")) start)
           = inr envelope ->
           Upload.out_fileName envelope = "z.png".
Proof.
  refine (upload_from_path_takes_the_filename_of_the_path lib world
            (upload_request None (Some "/tmp/a/z.png") (Some "q.png")) start
            "/tmp/a/z.png" "PNG" eq_refl eq_refl eq_refl _ _ eq_refl);
    discriminate.
Defined.

End Examples.

(** * Further properties of the handlers *)

(** ** More on the slug *)

Module SlugMore.
Import Slug.

Lemma all_hyphens_strip_leading s : all_hyphens s = true -> strip_leading s = "".
Proof.
  induction s as [|c r IH]; simpl; [reflexivity|].
  intros H. apply andb_prop in H as [-> H]. apply IH, H.
Qed.

Lemma strip_leading_nonempty s :
  all_hyphens s = false ->
  exists c r, strip_leading s = String c r /\ Ascii.eqb c hyphen = false.
Proof.
  induction s as [|c r IH]; simpl; [discriminate|].
  destruct (Ascii.eqb c hyphen) eqn:Hc; simpl.
  - exact IH.
  - intros _. exists c, r. auto.
Qed.

Lemma hyphenate_no_alnum b s :
  no_alnum s = true -> all_hyphens (hyphenate_from b (Js.toLowerCase s)) = true.
Proof.
  unfold no_alnum. revert b; induction s as [|c r IH]; intros b; simpl; [reflexivity|].
  intros H. apply andb_prop in H as [Hc Hr]. apply negb_true_iff in Hc. rewrite Hc.
  destruct b; simpl; auto.
Qed.

Lemma hyphenate_some_alnum b s :
  no_alnum s = false -> all_hyphens (hyphenate_from b (Js.toLowerCase s)) = false.
Proof.
  unfold no_alnum. revert b; induction s as [|c r IH]; intros b; simpl; [discriminate|].
  destruct (alnum (Js.lower_char c)) eqn:Hc; simpl.
  - intros _. rewrite (SlugFacts.alnum_not_hyphen _ Hc). reflexivity.
  - intros H. destruct b; simpl; auto.
Qed.

End SlugMore.

Lemma slug_empty (s : string) : Slug.slug s = "" <-> no_alnum s = true.
Proof.
  unfold Slug.slug, Slug.strip, Slug.hyphenate. split.
  - intros H. destruct (no_alnum s) eqn:Hn; [reflexivity|].
    apply (SlugMore.hyphenate_some_alnum false) in Hn.
    apply SlugMore.strip_leading_nonempty in Hn as (c & r & Hs & Hc).
    rewrite Hs, SlugFacts.strip_trailing_cons in H.
    simpl Slug.all_hyphens in H. rewrite Hc in H. simpl in H. discriminate.
  - intros Hn. apply (SlugMore.hyphenate_no_alnum false) in Hn.
    rewrite (SlugMore.all_hyphens_strip_leading _ Hn). reflexivity.
Qed.

(** X1. The slug of an ASCII string is empty exactly when the string has no
    letter and no digit. *)
Theorem slug_is_empty_exactly_without_letters_and_digits (s : string) :
  is_ascii s = true ->
  (Slug.slug s = "" <-> no_alnum s = true).
Proof. intros _. apply slug_empty. Qed.

(** X2. A string that already has the shape of a slug (characters of
    [[a-z0-9-]], no hyphen first or last, no two hyphens in a row) and at
    most 50 characters is its own slug. *)
Theorem slug_keeps_a_slug (s : string) :
  Slug.slugged true s = true ->
  Js.ends_with_char "-" s = false ->
  String.length s <= 50 ->
  Slug.slug s = s.
Proof.
  intros Hs He Hl. unfold Slug.slug, Slug.strip, Slug.hyphenate.
  rewrite (SlugFacts.slugged_lower _ _ Hs).
  rewrite (SlugFacts.slugged_fixed _ _ (SlugFacts.slugged_weaken _ Hs)).
  rewrite (SlugFacts.strip_leading_fixed _ Hs).
  rewrite (SlugFacts.strip_trailing_fixed _ He).
  apply SlugFacts.take_all, Hl.
Qed.

(** X3. The fallback ['nft-image'] only replaces an empty name: for an
    ASCII name that is not empty but has no letter and no digit, the
    filename that build_complete derives is a hyphen, the clock and
    [.png]. *)
Theorem symbols_only_name_gives_a_bare_timestamp (parsed : Package.Parsed) (now : Z) :
  is_ascii (Package.p_name parsed) = true ->
  Package.p_name parsed <> "" ->
  no_alnum (Package.p_name parsed) = true ->
  upload_fileName parsed now = "-" ++ Js.of_Z now ++ ".png".
Proof.
  intros _ Hne Hn. unfold upload_fileName, baseFileName, Js.or, Js.truthy.
  apply String.eqb_neq in Hne. rewrite Hne. simpl negb. cbn [Js.or_str]. rewrite Hne.
  rewrite (proj2 (slug_empty _) Hn). reflexivity.
Qed.

(** ** More on handleUploadToIPFS *)

(** X4. An upload whose [imageUrl] and [imagePath] are both absent or empty
    is refused by the refinement of the schema, with the wrapped [ZodError]
    and without any external call. *)
Theorem upload_without_source_fails_before_any_call lib w a l :
  Js.truthy (Upload.imageUrl a) = false ->
  Js.truthy (Upload.imagePath a) = false ->
  In {| issue_path := []; issue_message := "Either imageUrl or imagePath must be provided" |}
     (Upload.issues lib a)
  /\ handleUploadToIPFS lib w a l
     = (l, inl (Error ("IPFS upload failed: " ++ ZodError_message lib (Upload.issues lib a)))).
Proof.
  intros Hu Hp.
  assert (Hin : In {| issue_path := [];
                      issue_message := "Either imageUrl or imagePath must be provided" |}
                   (Upload.issues lib a)).
  { unfold Upload.issues. rewrite Hu, Hp. apply in_or_app. right. simpl. auto. }
  split; [exact Hin|].
  rewrite handleUploadToIPFS_run. unfold Upload.parse, Zod.result.
  destruct (Upload.issues lib a); [destruct Hin | reflexivity].
Qed.


(** X5. When the fetch of the image URL fails, the fetch is the only
    external call of the upload: the storage is not contacted. The error is
    the one of the [catch] block, so a 401 or 403 of the image server is
    reported by the authentication message of the storage. *)
Theorem failed_fetch_is_never_followed_by_an_upload lib w a l url cause :
  Upload.issues lib a = [] ->
  resolve_apiKey w (resolve_service w (Upload.service a)) (Upload.apiKey a) <> "" ->
  Js.nonempty (Upload.imageUrl a) = Some url ->
  axios_get w (io l) url = inl cause ->
  handleUploadToIPFS lib w a l
  = ({| io := io l ++ [EvGet url]; invoked := invoked l |},
     inl (Error (upload_failure_message cause))).
Proof.
  intros Hvalid Hkey Hurl Hget.
  destruct (handleUploadToIPFS_with_key lib w a l Hvalid Hkey) as (parsed & Hu & _ & _ & ->).
  unfold read_image. rewrite Hu, Hurl. unfold bind, external. rewrite Hget. reflexivity.
Qed.

(** X6. When the local file cannot be read, the read is the only external
    call of the upload: the storage is not contacted. *)
Theorem failed_read_is_never_followed_by_an_upload lib w a l path cause :
  Upload.issues lib a = [] ->
  resolve_apiKey w (resolve_service w (Upload.service a)) (Upload.apiKey a) <> "" ->
  Js.truthy (Upload.imageUrl a) = false ->
  Js.nonempty (Upload.imagePath a) = Some path ->
  readFileSync w (io l) path = inl cause ->
  handleUploadToIPFS lib w a l
  = ({| io := io l ++ [EvReadFile path]; invoked := invoked l |},
     inl (Error (upload_failure_message cause))).
Proof.
  intros Hvalid Hkey Hurl Hpath Hread.
  destruct (handleUploadToIPFS_with_key lib w a l Hvalid Hkey) as (parsed & Hu & Hp & _ & ->).
  unfold read_image. rewrite Hu, (nonempty_None _ Hurl), Hp, Hpath.
  unfold bind, external. rewrite Hread. reflexivity.
Qed.

(** X8. A service that the handler does not know (it can only come from
    [IPFS_SERVICE]) is refused after the image has been fetched, and nothing
    is posted. *)
Theorem unsupported_service_is_found_after_the_fetch lib w a l url data path :
  Upload.issues lib a = [] ->
  serviceEnvMap (resolve_service w (Upload.service a)) = None ->
  resolve_apiKey w (resolve_service w (Upload.service a)) (Upload.apiKey a) <> "" ->
  Js.nonempty (Upload.imageUrl a) = Some url ->
  axios_get w (io l) url = inr data ->
  URL_pathname lib url = inr path ->
  handleUploadToIPFS lib w a l
  = ({| io := io l ++ [EvGet url]; invoked := invoked l |},
     inl (Error ("IPFS upload failed: Unsupported IPFS service: "
                 ++ resolve_service w (Upload.service a)))).
Proof.
  intros Hvalid Hsvc Hkey Hurl Hget Hpath.
  destruct (handleUploadToIPFS_with_key lib w a l Hvalid Hkey) as (parsed & Hu & _ & _ & ->).
  unfold read_image. rewrite Hu, Hurl. unfold bind, external, lift, ret.
  rewrite Hget, Hpath.
  destruct (upload_by_service_run w (resolve_service w (Upload.service a)))
    as [(u & n & g & Hs & _)|[_ Hrun]]; [contradiction|].
  rewrite Hrun. reflexivity.
Qed.

Lemma upload_by_service_posts Q R w service apiKey buffer fileName :
  (forall url net,
      Q (EvPost url {| form_file := buffer; form_filename := fileName; form_network := net |}
           ("Bearer " ++ apiKey))) ->
  appends Q R (upload_by_service w service apiKey buffer fileName).
Proof.
  intros H. unfold upload_by_service, post. log_rules.
Qed.

(** The external calls of an upload are those of [read_image], then posts
    with the resolved credential. *)
Lemma handleUploadToIPFS_appends_with (Q : IoEvent -> Prop) lib w a :
  (forall parsed, Upload.parse lib a = inr parsed ->
     appends Q (fun _ => False) (read_image lib w parsed)) ->
  (forall url form,
     Q (EvPost url form
          ("Bearer " ++ resolve_apiKey w (resolve_service w (Upload.service a))
                          (Upload.apiKey a)))) ->
  appends Q (fun _ => False) (handleUploadToIPFS lib w a).
Proof.
  intros Hread Hpost l. rewrite handleUploadToIPFS_run.
  assert (Hnone : forall e l0, l0 = l ->
    exists evs invs, io (fst (upload_catch (A := Upload.Envelope) e l0)) = (io l ++ evs)%list
      /\ invoked (fst (upload_catch (A := Upload.Envelope) e l0)) = (invoked l ++ invs)%list
      /\ Forall Q evs /\ Forall (fun _ => False) invs).
  { intros e l0 ->. rewrite upload_catch_run. exists [], []. simpl. rewrite !app_nil_r. auto. }
  destruct (Upload.parse lib a) as [e|parsed] eqn:Hparse; [apply Hnone; reflexivity|].
  cbv zeta.
  assert (Hs : Upload.p_service parsed = Upload.service a
               /\ Upload.p_apiKey parsed = Upload.apiKey a).
  { unfold Upload.parse in Hparse. apply zod_result_inr in Hparse as [_ ->]. auto. }
  destruct Hs as [-> ->].
  destruct (_ =? ""); [apply Hnone; reflexivity|].
  destruct (Hread parsed eq_refl l) as (evs & invs & Hio & Hinv & Hq & Hr).
  destruct (read_image lib w parsed l) as [l1 [e|[data fileName]]]; simpl in Hio, Hinv.
  - rewrite upload_catch_run. exists evs, invs. auto.
  - match goal with |- context [upload_by_service w ?s ?k ?b ?f l1] =>
      destruct (upload_by_service_posts Q (fun _ => False) w s k b f
                  (fun url net => Hpost url _) l1)
        as (evs' & invs' & Hio' & Hinv' & Hq' & Hr');
      destruct (upload_by_service w s k b f l1) as [l2 [e|[cid gw]]] end;
      simpl in Hio', Hinv'; try rewrite upload_catch_run; simpl;
      exists (evs ++ evs')%list, (invs ++ invs')%list;
      rewrite Hio', Hinv', Hio, Hinv, <- !app_assoc;
      repeat split; auto; apply Forall_app; auto.
Qed.

Lemma read_image_from_url (Q : IoEvent -> Prop) lib w parsed :
  Js.truthy (Upload.p_imageUrl parsed) = true ->
  (forall url, Q (EvGet url)) ->
  appends Q (fun _ => False) (read_image lib w parsed).
Proof.
  intros Hurl Hget. unfold read_image, Js.nonempty. rewrite Hurl.
  destruct (Upload.p_imageUrl parsed); [|discriminate]. log_rules.
Qed.

(** X7. An upload with a non-empty [imageUrl] behaves as if its [imagePath]
    were absent, and never reads a file. *)
Theorem upload_with_a_url_never_reads_a_file lib w a :
  Js.truthy (Upload.imageUrl a) = true ->
  (forall l,
      handleUploadToIPFS lib w a l
      = handleUploadToIPFS lib w
          {| Upload.imageUrl := Upload.imageUrl a; Upload.imagePath := None;
             Upload.fileName := Upload.fileName a; Upload.service := Upload.service a;
             Upload.apiKey := Upload.apiKey a |} l)
  /\ appends (fun ev => is_read ev = false) (fun _ => False) (handleUploadToIPFS lib w a).
Proof.
  intros Hurl. split.
  - intros l. destruct a as [u p f s k]. simpl in *. apply upload_ignores_path, Hurl.
  - apply handleUploadToIPFS_appends_with; [|reflexivity].
    intros parsed Hparse. apply read_image_from_url; [|reflexivity].
    unfold Upload.parse in Hparse. apply zod_result_inr in Hparse as [_ ->]. exact Hurl.
Qed.

(** X9. With an explicit [service] and a non-empty [apiKey], every post of
    an upload goes to the endpoint of that service and carries that key as
    its bearer token, whatever the environment holds. *)
Theorem explicit_service_and_key_override_the_environment lib w a s key :
  Upload.service a = Some s ->
  Upload.apiKey a = Some key ->
  key <> "" ->
  appends (fun ev => match ev with
                     | EvPost url _ authorization =>
                         url = endpoint s /\ authorization = "Bearer " ++ key
                     | _ => True
                     end)
          (fun _ => False) (handleUploadToIPFS lib w a).
Proof.
  intros Hs Hk Hne.
  assert (Hservice : resolve_service w (Upload.service a) = service_name s).
  { rewrite Hs. unfold resolve_service. destruct s; reflexivity. }
  assert (Hkey : resolve_apiKey w (service_name s) (Upload.apiKey a) = key).
  { rewrite Hk. unfold resolve_apiKey, Js.or, Js.truthy, Js.or_str.
    apply String.eqb_neq in Hne. rewrite Hne. simpl. rewrite Hne. reflexivity. }
  intros l. rewrite handleUploadToIPFS_run.
  assert (Hnone : forall e l0, l0 = l ->
    exists evs invs, io (fst (upload_catch (A := Upload.Envelope) e l0)) = (io l ++ evs)%list
      /\ invoked (fst (upload_catch (A := Upload.Envelope) e l0)) = (invoked l ++ invs)%list
      /\ Forall (fun ev => match ev with
                           | EvPost url _ authorization =>
                               url = endpoint s /\ authorization = "Bearer " ++ key
                           | _ => True
                           end) evs
      /\ Forall (fun _ => False) invs).
  { intros e l0 ->. rewrite upload_catch_run. exists [], []. simpl. rewrite !app_nil_r. auto. }
  destruct (Upload.parse lib a) as [e|parsed] eqn:Hparse; [apply Hnone; reflexivity|].
  cbv zeta. unfold Upload.parse in Hparse. apply zod_result_inr in Hparse as [_ ->].
  cbn [Upload.p_service Upload.p_apiKey]. rewrite Hservice, Hkey.
  destruct (key =? ""); [apply Hnone; reflexivity|].
  match goal with |- context [read_image lib w ?p l] =>
    assert (Hread : appends (fun ev => match ev with
                     | EvPost url _ authorization =>
                         url = endpoint s /\ authorization = "Bearer " ++ key
                     | _ => True
                     end) (fun _ => False) (read_image lib w p))
      by (unfold read_image; log_rules);
    destruct (Hread l) as (evs & invs & Hio & Hinv & Hq & Hr);
    destruct (read_image lib w p l) as [l1 [e|[data fileName]]] end; simpl in Hio, Hinv.
  - rewrite upload_catch_run. exists evs, invs. auto.
  - assert (Hup : exists evs' invs',
        io (fst (upload_by_service w (service_name s) key (Bytes data) fileName l1))
        = (io l1 ++ evs')%list
        /\ invoked (fst (upload_by_service w (service_name s) key (Bytes data) fileName l1))
           = (invoked l1 ++ invs')%list
        /\ Forall (fun ev => match ev with
                             | EvPost url _ authorization =>
                                 url = endpoint s /\ authorization = "Bearer " ++ key
                             | _ => True
                             end) evs'
        /\ Forall (fun _ => False) invs').
    { destruct s; unfold upload_by_service; simpl; unfold bind, post, external, ret;
        destruct (axios_post _ _ _ _ _); simpl; eexists [_], []; rewrite app_nil_r;
        repeat split; auto. }
    destruct Hup as (evs' & invs' & Hio' & Hinv' & Hq' & Hr').
    destruct (upload_by_service _ _ _ _ _ l1) as [l2 [e|[cid gw]]];
      simpl in Hio', Hinv'; try rewrite upload_catch_run; simpl;
      exists (evs ++ evs')%list, (invs ++ invs')%list;
      rewrite Hio', Hinv', Hio, Hinv, <- !app_assoc;
      repeat split; auto; apply Forall_app; auto.
Qed.

(** ** More on handleCreateMetadata *)

(** X10. A metadata call that lacks [name], [description] or [imageHash] is
    refused by the schema, with the wrapped [ZodError] and without any
    external call. *)
Theorem metadata_without_a_required_field_fails_before_any_call lib w a l :
  Metadata.name a = None \/ Metadata.description a = None \/ Metadata.imageHash a = None ->
  Metadata.issues lib a <> []
  /\ handleCreateMetadata lib w a l
     = (l, inl (Error ("Metadata creation failed: "
                       ++ ZodError_message lib (Metadata.issues lib a)))).
Proof.
  intros H.
  assert (Hne : Metadata.issues lib a <> []).
  { unfold Metadata.issues.
    destruct (Metadata.name a); [|discriminate].
    destruct (Metadata.description a); [|discriminate].
    destruct (Metadata.imageHash a); [|discriminate].
    destruct H as [H|[H|H]]; discriminate. }
  split; [exact Hne|].
  rewrite handleCreateMetadata_run. unfold Metadata.parse, Zod.result.
  destruct (Metadata.issues lib a); [contradiction|].
  rewrite metadata_catch_run. reflexivity.
Qed.

(** X11. A metadata call never fetches, reads or generates: it makes no
    external call, or one post, to the endpoint of the resolved service, of
    the file [metadata.json] holding the document built from its arguments
    ([image] is [ipfs://] and the hash, [attributes] and [properties]
    default to empty); a call that returns, returns that document. *)
Theorem metadata_makes_at_most_one_call_the_post_of_its_document lib w a l :
  invoked (fst (handleCreateMetadata lib w a l)) = invoked l
  /\ (io (fst (handleCreateMetadata lib w a l)) = io l
      \/ exists s,
           resolve_service w (Metadata.service a) = service_name s
           /\ io (fst (handleCreateMetadata lib w a l))
              = (io l ++ [EvPost (endpoint s)
                            {| form_file := MetadataJson (document_of a);
                               form_filename := "metadata.json";
                               form_network := network s |}
                            ("Bearer " ++ resolve_apiKey w (service_name s)
                                            (Metadata.apiKey a))])%list)
  /\ (forall envelope,
        snd (handleCreateMetadata lib w a l) = inr envelope ->
        Metadata.out_metadata envelope = document_of a).
Proof.
  rewrite handleCreateMetadata_run. unfold Metadata.parse.
  destruct (Zod.result _ _ _) as [e|parsed] eqn:Hparse.
  { rewrite metadata_catch_run. simpl. repeat split; auto. discriminate. }
  apply zod_result_inr in Hparse as [_ ->]. cbv zeta.
  cbn [Metadata.p_service Metadata.p_apiKey].
  destruct (_ =? "").
  { rewrite metadata_catch_run. simpl. repeat split; auto. discriminate. }
  change (build_metadata _) with (document_of a).
  unfold upload_by_service.
  destruct (resolve_service w (Metadata.service a) =? "pinata") eqn:H1;
    [|destruct (resolve_service w (Metadata.service a) =? "nftStorage") eqn:H2;
      [|destruct (resolve_service w (Metadata.service a) =? "web3Storage") eqn:H3]].
  4: { unfold throw. rewrite metadata_catch_run. simpl. repeat split; auto. discriminate. }
  all: unfold bind, post, external, ret;
    destruct (axios_post _ _ _ _ _) as [e|cid]; try rewrite metadata_catch_run; simpl;
    (split; [reflexivity|]); (split; [|intros envelope [= <-]; reflexivity || discriminate]);
    right.
  all: try (apply String.eqb_eq in H1; exists pinata; rewrite H1; auto).
  all: try (apply String.eqb_eq in H2; exists nftStorage; rewrite H2; auto).
  all: try (apply String.eqb_eq in H3; exists web3Storage; rewrite H3; auto).
Qed.

Lemma service_of_schema service :
  serviceEnvMap service <> None -> exists s, service = service_name s.
Proof.
  unfold serviceEnvMap.
  destruct (String.eqb_spec service "pinata") as [->|_]; [exists pinata; reflexivity|].
  destruct (String.eqb_spec service "nftStorage") as [->|_]; [exists nftStorage; reflexivity|].
  destruct (String.eqb_spec service "web3Storage") as [->|_];
    [exists web3Storage; reflexivity|].
  intros H. destruct H. reflexivity.
Qed.

Lemma upload_by_service_of_schema w s apiKey buffer fileName l :
  upload_by_service w (service_name s) apiKey buffer fileName l
  = let form := {| form_file := buffer; form_filename := fileName;
                   form_network := network s |} in
    ({| io := io l ++ [EvPost (endpoint s) form ("Bearer " ++ apiKey)];
        invoked := invoked l |},
     match axios_post w (io l) (endpoint s) form ("Bearer " ++ apiKey) with
     | inl e => inl e
     | inr cid =>
         inr (cid,
              match s with
              | pinata => "https://gateway.pinata.cloud/ipfs/"
              | nftStorage => "https://nftstorage.link/ipfs/"
              | web3Storage => "https://w3s.link/ipfs/"
              end ++ Js.interp cid)
     end).
Proof.
  destruct s; unfold upload_by_service; simpl; unfold bind, post, external, ret;
    destruct (axios_post _ _ _ _ _); reflexivity.
Qed.

Lemma startsWith_refl p t : Js.startsWith p (p ++ t) = true.
Proof.
  induction p as [|c p IH]; [destruct t; reflexivity|].
  simpl. rewrite Ascii.eqb_refl. exact IH.
Qed.

Lemma includes_here p t : Js.includes p (p ++ t) = true.
Proof.
  destruct (p ++ t) eqn:E; simpl; rewrite <- E, startsWith_refl; reflexivity.
Qed.

Lemma includes_after p a b : Js.includes p b = true -> Js.includes p (a ++ b) = true.
Proof.
  intros H. induction a as [|c a IH]; [exact H|].
  simpl. rewrite IH. apply orb_true_r.
Qed.

Lemma append_empty (s : string) : s ++ "" = s.
Proof. induction s as [|c s IH]; [reflexivity|]. simpl. rewrite IH. reflexivity. Qed.

Lemma includes_last p a : Js.includes p (a ++ p) = true.
Proof.
  apply includes_after. rewrite <- (append_empty p) at 2. apply includes_here.
Qed.

Lemma failure_messages_include_the_body cause status body :
  response cause = Some (status, body) ->
  Js.includes body (upload_failure_message cause) = true
  /\ Js.includes body (metadata_failure_message cause) = true.
Proof.
  intros H. unfold upload_failure_message, metadata_failure_message,
    auth_403_message, auth_401_message. rewrite H.
  destruct (status =? 403)%Z; [|destruct (status =? 401)%Z]; split;
    repeat (apply includes_last || apply includes_after).
Qed.

(** X12. When the storage answers the metadata post with an error, the
    error surfaced is the message of the [catch] block for that answer; it
    includes the body of the answer whenever there is one, and on 401 and
    403 it names Pinata whatever the service is. *)
Theorem metadata_failed_post_is_reported_with_its_body lib w a l s cause :
  Metadata.issues lib a = [] ->
  resolve_service w (Metadata.service a) = service_name s ->
  resolve_apiKey w (service_name s) (Metadata.apiKey a) <> "" ->
  axios_post w (io l) (endpoint s)
    {| form_file := MetadataJson (document_of a); form_filename := "metadata.json";
       form_network := network s |}
    ("Bearer " ++ resolve_apiKey w (service_name s) (Metadata.apiKey a)) = inl cause ->
  snd (handleCreateMetadata lib w a l) = inl (Error (metadata_failure_message cause))
  /\ (forall status body,
        response cause = Some (status, body) ->
        Js.includes body (metadata_failure_message cause) = true)
  /\ (forall body,
        response cause = Some (403%Z, body) \/ response cause = Some (401%Z, body) ->
        Js.includes "Pinata" (metadata_failure_message cause) = true).
Proof.
  intros Hvalid Hs Hkey Hpost. split; [|split].
  - rewrite handleCreateMetadata_run. unfold Metadata.parse. rewrite Hvalid.
    cbn [Zod.result Metadata.p_service Metadata.p_apiKey]. cbv zeta. rewrite Hs.
    apply String.eqb_neq in Hkey. rewrite Hkey, upload_by_service_of_schema.
    cbv zeta. change (build_metadata _) with (document_of a). rewrite Hpost.
    rewrite metadata_catch_run. reflexivity.
  - intros status body H. apply (failure_messages_include_the_body _ _ _ H).
  - intros body [H|H]; unfold metadata_failure_message; rewrite H; reflexivity.
Qed.

(** X13. When the image was fetched and the storage answers the post with an
    error, the upload has made these two calls, and the error surfaced is
    the message of the [catch] block for that answer, which includes the
    body of the answer whenever there is one. *)
Theorem upload_failed_post_is_reported_with_its_body lib w a l s url data path cause :
  Upload.issues lib a = [] ->
  resolve_service w (Upload.service a) = service_name s ->
  resolve_apiKey w (service_name s) (Upload.apiKey a) <> "" ->
  Js.nonempty (Upload.imageUrl a) = Some url ->
  axios_get w (io l) url = inr data ->
  URL_pathname lib url = inr path ->
  let segment := Js.split_pop "/" path in
  let form :=
    {| form_file := Bytes data;
       form_filename :=
         if Js.includes_char "." segment then segment
         else match Upload.fileName a with Some f => f | None => "image.png" end;
       form_network := network s |} in
  let authorization := "Bearer " ++ resolve_apiKey w (service_name s) (Upload.apiKey a) in
  axios_post w (io l ++ [EvGet url]) (endpoint s) form authorization = inl cause ->
  snd (handleUploadToIPFS lib w a l) = inl (Error (upload_failure_message cause))
  /\ io (fst (handleUploadToIPFS lib w a l))
     = (io l ++ [EvGet url; EvPost (endpoint s) form authorization])%list
  /\ (forall status body,
        response cause = Some (status, body) ->
        Js.includes body (upload_failure_message cause) = true).
Proof.
  intros Hvalid Hs Hkey Hurl Hget Hpath segment form authorization Hpost.
  assert (Hkey' : resolve_apiKey w (resolve_service w (Upload.service a)) (Upload.apiKey a)
                  <> "") by (rewrite Hs; exact Hkey).
  destruct (handleUploadToIPFS_with_key lib w a l Hvalid Hkey') as (parsed & Hu & _ & Hf & ->).
  unfold read_image. rewrite Hu, Hurl. unfold bind, external, lift, ret.
  rewrite Hget, Hpath, includes_guard, Hf, Hs, upload_by_service_of_schema.
  fold segment. cbv zeta. cbn [io invoked]. fold form. fold authorization.
  rewrite Hpost. simpl. split; [reflexivity|]. split.
  - rewrite <- app_assoc. reflexivity.
  - intros status body H. apply (failure_messages_include_the_body _ _ _ H).
Qed.

(** ** No retries *)

Section AtMost.
Context {A B : Type}.

Lemma at_most_nothing (m : M A) : (forall l, io (fst (m l)) = io l) -> at_most 0 m.
Proof. intros H l. exists []. rewrite H, app_nil_r. auto. Qed.

Lemma at_most_external (ev : IoEvent) (answer : list IoEvent -> JsError + A) :
  at_most 1 (external ev answer).
Proof. intros l. exists [ev]. auto. Qed.

Lemma at_most_more (n n' : nat) (m : M A) : n <= n' -> at_most n m -> at_most n' m.
Proof. intros Hn H l. destruct (H l) as (evs & Hio & Hlen). exists evs. split; [auto | lia]. Qed.

Lemma at_most_bind (n k : nat) (m : M A) (f : A -> M B) :
  at_most n m -> (forall a, at_most k (f a)) -> at_most (n + k) (bind m f).
Proof.
  intros Hm Hf l. unfold bind. destruct (Hm l) as (evs & Hio & Hlen).
  destruct (m l) as [l1 [e|a]]; simpl in *.
  - exists evs. split; [auto | lia].
  - destruct (Hf a l1) as (evs' & Hio' & Hlen').
    exists (evs ++ evs')%list. rewrite Hio', Hio, <- app_assoc, length_app. split; [auto | lia].
Qed.

Lemma at_most_try_catch (n : nat) (m : M A) (h : JsError -> M A) :
  at_most n m -> (forall e l, io (fst (h e l)) = io l) -> at_most n (try_catch m h).
Proof.
  intros Hm Hh l. unfold try_catch. destruct (Hm l) as (evs & Hio & Hlen).
  destruct (m l) as [l1 [e|a]]; simpl in *.
  - exists evs. rewrite Hh. auto.
  - exists evs. auto.
Qed.

Lemma at_most_invoke (n : nat) (i : Invocation) (m : M A) :
  at_most n m -> at_most n (invoke i m).
Proof. intros H l. unfold invoke. apply (H {| io := io l; invoked := _ |}). Qed.

End AtMost.

Lemma at_most_upload_by_service w service apiKey buffer fileName :
  at_most 1 (upload_by_service w service apiKey buffer fileName).
Proof.
  unfold upload_by_service, post.
  repeat match goal with |- at_most _ (if ?c then _ else _) => destruct c end;
    try (apply (at_most_bind 1 0); [apply at_most_external | intros; apply at_most_nothing;
                                                              reflexivity]).
  apply (at_most_more 0); [lia | apply at_most_nothing; reflexivity].
Qed.

Lemma at_most_read_image lib w parsed : at_most 1 (read_image lib w parsed).
Proof.
  unfold read_image.
  destruct (Js.nonempty (Upload.p_imageUrl parsed)).
  - apply (at_most_bind 1 0); [apply at_most_external|]. intros data.
    apply (at_most_bind 0 0); intros; apply at_most_nothing; reflexivity.
  - destruct (Js.nonempty (Upload.p_imagePath parsed)).
    + apply (at_most_bind 1 0); [apply at_most_external|]. intros data.
      apply at_most_nothing; reflexivity.
    + apply (at_most_more 0); [lia | apply at_most_nothing; reflexivity].
Qed.

Lemma at_most_handleUploadToIPFS lib w a : at_most 2 (handleUploadToIPFS lib w a).
Proof.
  unfold handleUploadToIPFS. apply at_most_try_catch.
  2: { intros e l. rewrite upload_catch_run. reflexivity. }
  apply (at_most_bind 0 2); [apply at_most_nothing; reflexivity|]. intros parsed. cbv zeta.
  destruct (_ =? ""); [apply (at_most_more 0); [lia | apply at_most_nothing; reflexivity]|].
  apply (at_most_bind 1 1); [apply at_most_read_image|]. intros [data fileName].
  apply (at_most_bind 1 0); [apply at_most_upload_by_service|]. intros [cid gw].
  apply at_most_nothing; reflexivity.
Qed.

Lemma at_most_handleCreateMetadata lib w a : at_most 1 (handleCreateMetadata lib w a).
Proof.
  unfold handleCreateMetadata. apply at_most_try_catch.
  2: { intros e l. rewrite metadata_catch_run. reflexivity. }
  apply (at_most_bind 0 1); [apply at_most_nothing; reflexivity|]. intros parsed. cbv zeta.
  destruct (_ =? ""); [apply (at_most_more 0); [lia | apply at_most_nothing; reflexivity]|].
  apply (at_most_bind 1 0); [apply at_most_upload_by_service|]. intros [cid gw].
  apply at_most_nothing; reflexivity.
Qed.

Lemma at_most_resolve_image w parsed : at_most 1 (resolve_image w parsed).
Proof.
  unfold resolve_image.
  destruct (Js.nonempty (Package.p_prompt parsed)).
  - cbv zeta. apply (at_most_bind 1 0); [apply at_most_external|]. intros r.
    destruct (_ || _); apply at_most_nothing; reflexivity.
  - apply (at_most_more 0); [lia|].
    destruct (Js.nonempty (Package.p_imageUrl parsed));
      [|destruct (Js.nonempty (Package.p_imagePath parsed))];
      apply at_most_nothing; reflexivity.
Qed.

Lemma at_most_handleGenerateImage lib w cost a : at_most 1 (handleGenerateImage lib w cost a).
Proof.
  unfold handleGenerateImage. apply at_most_try_catch; [|reflexivity].
  apply (at_most_bind 0 1); [apply at_most_nothing; reflexivity|]. intros parsed. cbv zeta.
  apply (at_most_bind 1 0); [apply at_most_external|]. intros [r c].
  destruct (_ || _); [apply at_most_nothing; reflexivity|].
  apply (at_most_bind 0 0); intros; apply at_most_nothing; reflexivity.
Qed.

(** X18. No handler retries: generate_image makes at most one external
    call, upload_to_ipfs at most two, create_metadata at most one and
    build_complete at most four. *)
Theorem every_handler_calls_out_a_bounded_number_of_times lib w cost :
  (forall a, at_most 1 (handleGenerateImage lib w cost a))
  /\ (forall a, at_most 2 (handleUploadToIPFS lib w a))
  /\ (forall a, at_most 1 (handleCreateMetadata lib w a))
  /\ (forall a, at_most 4 (handleCreatePackage lib w a)).
Proof.
  split; [intros a; apply at_most_handleGenerateImage|].
  split; [intros a; apply at_most_handleUploadToIPFS|].
  split; [intros a; apply at_most_handleCreateMetadata|].
  intros a. unfold handleCreatePackage. apply at_most_try_catch; [|reflexivity].
  apply (at_most_bind 0 4); [apply at_most_nothing; reflexivity|]. intros parsed.
  apply (at_most_bind 1 3); [apply at_most_resolve_image|]. intros src.
  apply (at_most_bind 2 1).
  - unfold upload_image. apply (at_most_bind 0 2); [apply at_most_nothing; reflexivity|].
    intros now. cbv zeta.
    apply (at_most_bind 2 0); [apply at_most_invoke, at_most_handleUploadToIPFS|].
    intros uploadData. destruct (negb _); [apply at_most_nothing; reflexivity|].
    destruct (Js.nonempty _); apply at_most_nothing; reflexivity.
  - intros [uploadData imageCid]. unfold create_metadata. cbv zeta.
    apply (at_most_bind 1 0); [apply at_most_invoke, at_most_handleCreateMetadata|].
    intros metadataData. destruct (negb _); apply at_most_nothing; reflexivity.
Qed.

(** ** More on handleCreatePackage *)

(** X14. When the generator throws, reports a failure or returns neither a
    URL nor a path, build_complete has made the generation call only, has
    called neither inner handler, and fails with the wrapped error. *)
Theorem failed_generation_stops_the_run lib w a l parsed prompt e :
  Package.parse lib a = inr parsed ->
  Js.nonempty (Package.prompt a) = Some prompt ->
  let request :=
    {| req_prompt := prompt;
       req_style := Package.p_style parsed;
       req_aspectRatio := Some (Package.p_aspectRatio parsed);
       req_quality := Some (Package.p_quality parsed);
       req_seed := None;
       req_model := None |} in
  generation_failure (generateImage w (io l) request) = Some e ->
  handleCreatePackage lib w a l
  = ({| io := io l ++ [EvGenerate request]; invoked := invoked l |},
     inl (Error ("NFT package creation failed: " ++ message e))).
Proof.
  intros Hparse Hprompt request Hfail.
  rewrite handleCreatePackage_run, Hparse.
  assert (Hp : Js.nonempty (Package.p_prompt parsed) = Some prompt).
  { destruct (package_parse_inr _ _ _ Hparse) as (_ & -> & _). exact Hprompt. }
  rewrite (resolve_image_generates w parsed prompt l Hp). fold request.
  destruct (generateImage w (io l) request) as [e0|r].
  - injection Hfail as ->. reflexivity.
  - rewrite Hfail. reflexivity.
Qed.

(** X15. A package carries a [generatedPrompt] exactly when the image was
    generated, and it is the prompt echoed by the generator, not the one of
    the request. *)
Theorem generated_prompt_is_returned_exactly_after_a_generation lib w a l l' result :
  handleCreatePackage lib w a l = (l', inr result) ->
  (Js.truthy (Package.prompt a) = false -> Package.out_generatedPrompt result = None)
  /\ (forall prompt,
        Js.nonempty (Package.prompt a) = Some prompt ->
        exists request answer,
          req_prompt request = prompt
          /\ generateImage w (io l) request = inr answer
          /\ Package.out_generatedPrompt result = Some (res_prompt answer)).
Proof.
  rewrite handleCreatePackage_run.
  destruct (Package.parse lib a) as [e|parsed] eqn:Hparse; [discriminate|].
  destruct (package_parse_inr _ _ _ Hparse) as (_ & Hfields & _).
  destruct (resolve_image w parsed l) as [l1 [e|src]] eqn:Hres; [discriminate|].
  destruct (upload_image lib w parsed src l1) as [l2 [e|[uploadData imageCid]]];
    [discriminate|].
  rewrite create_metadata_run. cbv zeta.
  destruct (handleCreateMetadata _ _ _ _) as [l3 [e|metadataData]]; [discriminate|].
  destruct (negb _); [discriminate|].
  intros [= <- <-]. cbn [package_envelope Package.out_generatedPrompt]. split.
  - intros Hp. revert Hres. unfold resolve_image. rewrite Hfields, (nonempty_None _ Hp).
    destruct (Js.nonempty (Package.p_imageUrl parsed)); [intros [= _ <-]; reflexivity|].
    destruct (Js.nonempty (Package.p_imagePath parsed)); [intros [= _ <-]; reflexivity|].
    discriminate.
  - intros prompt Hp.
    assert (Hp' : Js.nonempty (Package.p_prompt parsed) = Some prompt).
    { rewrite Hfields. exact Hp. }
    rewrite (resolve_image_generates w parsed prompt l Hp') in Hres.
    match type of Hres with context [generateImage w (io l) ?q] =>
      exists q; destruct (generateImage w (io l) q) as [e|r]; [discriminate|] end.
    exists r. destruct (generation_failure (inr r)); [discriminate|].
    injection Hres as _ <-. repeat split.
Qed.

(** X16. Unlike the content identifier of the image, the one of the metadata
    is not checked: when the storage answers the metadata post without one,
    build_complete returns a success whose [metadataCid] is missing and
    whose [ipfsMetadataUrl] is [ipfs://undefined]. *)
Theorem missing_metadata_cid_is_returned_as_success
    lib w a l parsed l1 src l2 uploadData imageCid :
  Package.parse lib a = inr parsed ->
  resolve_image w parsed l = (l1, inr src) ->
  upload_image lib w parsed src l1 = (l2, inr (uploadData, imageCid)) ->
  (forall s,
      resolve_service w (Package.ipfsService a) = service_name s ->
      axios_post w (io l2) (endpoint s)
        {| form_file := MetadataJson (document_of (metadata_args parsed imageCid));
           form_filename := "metadata.json"; form_network := network s |}
        ("Bearer " ++ resolve_apiKey w (service_name s) (Package.ipfsApiKey a)) = inr None) ->
  exists l3 result,
    handleCreatePackage lib w a l = (l3, inr result)
    /\ Package.out_success result = true
    /\ Package.out_metadataCid result = None
    /\ Package.out_ipfsMetadataUrl result = "ipfs://undefined".
Proof.
  intros Hparse Hres Hup Hpost.
  rewrite handleCreatePackage_run, Hparse, Hres, Hup.
  pose proof (package_external_url_valid _ _ _ Hparse) as Hext.
  pose proof (package_parse_fields _ _ _ Hparse) as Hfields.
  apply upload_image_success in Hup as (l0 & _ & Hup & _).
  apply handleUploadToIPFS_success in Hup as (_ & Hkey & Hsvc & _).
  cbn [upload_args Upload.service Upload.apiKey] in Hkey, Hsvc.
  destruct (service_of_schema _ Hsvc) as [s Hs].
  assert (Hs' : resolve_service w (Package.ipfsService a) = service_name s).
  { rewrite <- Hs, Hfields. reflexivity. }
  specialize (Hpost s Hs').
  assert (Hk : Package.p_ipfsApiKey parsed = Package.ipfsApiKey a).
  { rewrite Hfields. reflexivity. }
  rewrite create_metadata_run. cbv zeta. rewrite handleCreateMetadata_run.
  unfold Metadata.parse, Metadata.issues.
  cbn [metadata_args Metadata.name Metadata.description Metadata.imageHash Metadata.external_url
       Metadata.service Metadata.apiKey Metadata.attributes Metadata.properties Zod.required app].
  rewrite Hext. cbn [Zod.result Metadata.p_service Metadata.p_apiKey].
  rewrite Hs in Hkey |- *. rewrite Hk in Hkey |- *.
  apply String.eqb_neq in Hkey. rewrite Hkey, upload_by_service_of_schema.
  cbv zeta. cbn [io invoked].
  change (build_metadata _) with (document_of (metadata_args parsed imageCid)).
  rewrite Hpost. cbn [negb metadata_envelope Metadata.out_success].
  eexists _, _. split; [reflexivity|].
  cbn [package_envelope Package.out_success Package.out_metadataCid Package.out_ipfsMetadataUrl
       Package.out_metadataUrl Metadata.out_metadataCid Metadata.out_gatewayUrl Js.interp].
  repeat split.
Qed.

(** X17. In a returned package the image content identifier is not empty,
    [ipfsImageUrl] is the [image] of the metadata, [ipfsMetadataUrl] is
    built from [metadataCid], [service] is the resolved service, and the
    metadata carry the name, description, external URL, attributes and
    properties of the request (the last two empty when absent). *)
Theorem returned_package_is_coherent_with_the_request lib w a l l' result :
  handleCreatePackage lib w a l = (l', inr result) ->
  Package.out_success result = true
  /\ Package.out_imageCid result <> ""
  /\ Package.out_ipfsImageUrl result = "ipfs://" ++ Package.out_imageCid result
  /\ md_image (Package.out_metadata result) = Package.out_ipfsImageUrl result
  /\ Package.out_ipfsMetadataUrl result
     = "ipfs://" ++ Js.interp (Package.out_metadataCid result)
  /\ Package.out_service result = resolve_service w (Package.ipfsService a)
  /\ Some (md_name (Package.out_metadata result)) = Package.name a
  /\ Some (md_description (Package.out_metadata result)) = Package.description a
  /\ md_external_url (Package.out_metadata result) = Package.external_url a
  /\ md_attributes (Package.out_metadata result)
     = match Package.attributes a with Some t => t | None => [] end
  /\ md_properties (Package.out_metadata result)
     = match Package.properties a with Some t => t | None => [] end.
Proof.
  rewrite handleCreatePackage_run.
  destruct (Package.parse lib a) as [e|parsed] eqn:Hparse; [discriminate|].
  destruct (resolve_image w parsed l) as [l1 [e|src]]; [discriminate|].
  destruct (upload_image lib w parsed src l1) as [l2 [e|[uploadData imageCid]]] eqn:Hup;
    [discriminate|].
  rewrite create_metadata_run. cbv zeta.
  destruct (handleCreateMetadata _ _ _ _) as [l3 [e|metadataData]] eqn:Hmd; [discriminate|].
  destruct (negb _); [discriminate|].
  intros [= <- <-].
  assert (Hcid : imageCid <> "").
  { revert Hup. rewrite upload_image_run. cbv zeta.
    destruct (handleUploadToIPFS _ _ _ _) as [l0 [e|u]]; [discriminate|].
    destruct (negb _); [discriminate|].
    destruct (Js.nonempty _) as [c|] eqn:Hc; [|discriminate].
    intros [= _ _ <-]. apply (nonempty_Some _ _ Hc). }
  apply handleCreateMetadata_success in Hmd as (_ & _ & Hdoc & _).
  pose proof (package_parse_inr _ _ _ Hparse) as (Hi & _ & _ & _ & Hname & Hext).
  pose proof (package_parse_fields _ _ _ Hparse) as Hfields.
  cbn [package_envelope Package.out_success Package.out_imageCid Package.out_ipfsImageUrl
       Package.out_metadata Package.out_ipfsMetadataUrl Package.out_service].
  rewrite Hdoc. cbn [md_image md_name md_description md_external_url md_attributes
                     md_properties metadata_args Metadata.name Metadata.description
                     Metadata.imageHash Metadata.external_url Metadata.attributes
                     Metadata.properties Js.interp].
  rewrite Hfields. cbn [Package.p_name Package.p_description Package.p_external_url
                        Package.p_attributes Package.p_properties Package.p_ipfsService].
  unfold Package.issues in Hi.
  destruct (Package.name a); [|destruct (Zod.optional_url lib "imageUrl" _); discriminate].
  destruct (Package.description a);
    [|destruct (Zod.optional_url lib "imageUrl" _); discriminate].
  repeat split; auto.
Qed.

(** The run of an upload from a URL, up to the answer of the storage. *)
Lemma upload_from_url_calls lib w a l s url data path :
  Upload.issues lib a = [] ->
  resolve_service w (Upload.service a) = service_name s ->
  resolve_apiKey w (service_name s) (Upload.apiKey a) <> "" ->
  Js.nonempty (Upload.imageUrl a) = Some url ->
  axios_get w (io l) url = inr data ->
  URL_pathname lib url = inr path ->
  let segment := Js.split_pop "/" path in
  let used := if Js.includes_char "." segment then segment
              else match Upload.fileName a with Some f => f | None => "image.png" end in
  io (fst (handleUploadToIPFS lib w a l))
  = (io l ++ [EvGet url;
             EvPost (endpoint s)
               {| form_file := Bytes data; form_filename := used; form_network := network s |}
               ("Bearer " ++ resolve_apiKey w (service_name s) (Upload.apiKey a))])%list.
Proof.
  intros Hvalid Hs Hkey Hurl Hget Hpath segment used.
  assert (Hkey' : resolve_apiKey w (resolve_service w (Upload.service a)) (Upload.apiKey a)
                  <> "") by (rewrite Hs; exact Hkey).
  destruct (handleUploadToIPFS_with_key lib w a l Hvalid Hkey') as (parsed & Hu & _ & Hf & ->).
  unfold read_image. rewrite Hu, Hurl. unfold bind, external, lift, ret.
  rewrite Hget, Hpath, includes_guard, Hf, Hs, upload_by_service_of_schema.
  fold segment. fold used. cbv zeta. cbn [io invoked].
  destruct (axios_post _ _ _ _ _); simpl; rewrite <- app_assoc; reflexivity.
Qed.

(** X19. When build_complete is given an image URL whose last path segment
    contains a dot, the image is posted under that segment: the filename
    derived from the name of the NFT is not the one used. *)
Theorem build_complete_uploads_under_the_name_in_the_url
    lib w a l parsed s url data path :
  Package.parse lib a = inr parsed ->
  Js.truthy (Package.prompt a) = false ->
  Js.nonempty (Package.imageUrl a) = Some url ->
  resolve_service w (Package.ipfsService a) = service_name s ->
  resolve_apiKey w (service_name s) (Package.ipfsApiKey a) <> "" ->
  axios_get w (io l) url = inr data ->
  URL_pathname lib url = inr path ->
  Js.includes_char "." (Js.split_pop "/" path) = true ->
  exists rest,
    io (fst (handleCreatePackage lib w a l))
    = (io l ++ EvGet url
            :: EvPost (endpoint s)
                 {| form_file := Bytes data; form_filename := Js.split_pop "/" path;
                    form_network := network s |}
                 ("Bearer " ++ resolve_apiKey w (service_name s) (Package.ipfsApiKey a))
            :: rest)%list.
Proof.
  intros Hparse Hprompt Hurl Hs Hkey Hget Hpath Hdot.
  rewrite handleCreatePackage_run, Hparse.
  pose proof (package_parse_fields _ _ _ Hparse) as Hfields.
  destruct (package_parse_inr _ _ _ Hparse) as (Hi & Hp & Hu & _).
  subst parsed.
  match type of Hparse with _ = inr ?p => set (parsed := p) in * end.
  assert (Hres : resolve_image w parsed l
                 = (l, inr {| finalImageUrl := Some url; finalImagePath := None;
                              generatedPrompt := None |})).
  { unfold resolve_image. rewrite Hp, (nonempty_None _ Hprompt), Hu, Hurl. reflexivity. }
  rewrite Hres.
  match goal with |- context [upload_image lib w parsed ?x l] => set (src := x) end.
  set (args := upload_args parsed src (upload_fileName parsed (Date_now w (io l)))).
  destruct (nonempty_Some _ _ Hurl) as [Hsome Hne].
  assert (Hnonempty : Js.nonempty (Some url) = Some url).
  { unfold Js.nonempty, Js.truthy. apply String.eqb_neq in Hne. rewrite Hne. reflexivity. }
  assert (Hvalid : Upload.issues lib args = []).
  { unfold Upload.issues, args, upload_args, src. cbn [Upload.imageUrl Upload.imagePath
      finalImageUrl finalImagePath]. rewrite Hnonempty.
    unfold Package.issues in Hi. apply app_eq_nil in Hi as [Hi _].
    rewrite Hsome in Hi. rewrite Hi. unfold Js.truthy. apply String.eqb_neq in Hne.
    rewrite Hne. reflexivity. }
  assert (Hcalls := upload_from_url_calls lib w args
                      {| io := io l; invoked := invoked l ++ [InvUpload args] |} s url data path
                      Hvalid).
  assert (Hagain : Js.nonempty (Upload.imageUrl args) = Some url).
  { unfold args, upload_args, src. cbn [Upload.imageUrl finalImageUrl].
    rewrite Hnonempty. exact Hnonempty. }
  specialize (Hcalls Hs Hkey Hagain Hget Hpath). cbv zeta in Hcalls.
  rewrite Hdot in Hcalls.
  rewrite upload_image_run. cbv zeta. fold args.
  destruct (handleUploadToIPFS lib w args _) as [l2 [e|uploadData]]; simpl in Hcalls.
  - simpl. exists []. exact Hcalls.
  - destruct (negb (Upload.out_success uploadData)); [exists []; exact Hcalls|].
    destruct (Js.nonempty (Upload.out_cid uploadData)) as [imageCid|];
      [|exists []; exact Hcalls].
    destruct (create_metadata_log lib w parsed src uploadData imageCid l2) as (evs & Hio & _).
    exists evs.
    destruct (create_metadata _ _ _ _ _ _ l2) as [l4 [e|r']]; simpl in Hio |- *;
      rewrite Hio, Hcalls, <- app_assoc; reflexivity.
Qed.

(** ** handleGenerateImage *)

Lemma handleGenerateImage_run lib w cost a l :
  handleGenerateImage lib w cost a l =
  match Generate.prompt a with
  | None =>
      (l, inl (Error ("Failed to generate image: "
                      ++ ZodError_message lib
                           [{| issue_path := ["prompt"]; issue_message := "Required" |}])))
  | Some prompt =>
      let request :=
        {| req_prompt := prompt;
           req_style := Generate.style a;
           req_aspectRatio :=
             Some (match Generate.aspectRatio a with Some r => r | None => ratio_1_1 end);
           req_quality := Some (match Generate.quality a with Some q => q | None => high end);
           req_seed := Generate.seed a;
           req_model := Generate.model a |} in
      let l1 := {| io := io l ++ [EvGenerate request]; invoked := invoked l |} in
      match generateImage w (io l) request with
      | inl e => (l1, inl (Error ("Failed to generate image: " ++ message e)))
      | inr result =>
          match generation_failure (inr result) with
          | Some e => (l1, inl (Error ("Failed to generate image: " ++ message e)))
          | None =>
              let suggested := suggestedFilename prompt (Date_now w (io l1)) in
              (l1,
               inr {| Generate.out_success := true;
                      Generate.out_imageUrl := res_imageUrl result;
                      Generate.out_localPath := res_localPath result;
                      Generate.out_prompt := res_prompt result;
                      Generate.out_model := res_model result;
                      Generate.out_style := Generate.style a;
                      Generate.out_aspectRatio :=
                        match Generate.aspectRatio a with Some r => r | None => ratio_1_1 end;
                      Generate.out_cost := cost_or_zero (cost (io l) request);
                      Generate.out_suggestedFilename := suggested;
                      Generate.out_message :=
                        if Js.truthy (res_imageUrl result)
                        then "Image generated successfully (URL)"
                        else "Image generated successfully (local file)";
                      Generate.out_downloadTip :=
                        "To save: Right-click and 'Save as' → Use filename: " ++ suggested;
                      Generate.out_nextSteps :=
                        [ "Use nft_upload_to_ipfs to upload this image";
                          "Or use nft_create_package for complete NFT preparation" ] |})
          end
      end
  end.
Proof.
  unfold handleGenerateImage, Generate.parse, Generate.issues, try_catch, bind, lift.
  destruct (Generate.prompt a) as [prompt|]; [|reflexivity].
  cbn [Zod.required Zod.result]. cbv zeta. unfold external, generate_request, generation_failure.
  cbn [Generate.p_prompt Generate.p_style Generate.p_aspectRatio Generate.p_quality
       Generate.p_seed Generate.p_model Js.interp].
  destruct (generateImage w (io l) _) as [e|result]; [reflexivity|].
  destruct (_ || _); reflexivity.
Qed.

(** X20. generate_image without a [prompt] is refused by the schema with
    the wrapped [ZodError] of a missing [prompt], before the generator is
    called. *)
Theorem generate_without_prompt_fails_before_any_call lib w cost a l :
  Generate.prompt a = None ->
  handleGenerateImage lib w cost a l
  = (l, inl (Error ("Failed to generate image: "
                    ++ ZodError_message lib
                         [{| issue_path := ["prompt"]; issue_message := "Required" |}]))).
Proof. intros H. rewrite handleGenerateImage_run, H. reflexivity. Qed.

(** X21. When the generator throws, reports a failure or returns neither a
    URL nor a path, generate_image has made that one call and fails with
    [Failed to generate image: ] and the error. *)
Theorem generate_reports_a_failed_generation lib w cost a l prompt e :
  Generate.prompt a = Some prompt ->
  let request :=
    {| req_prompt := prompt;
       req_style := Generate.style a;
       req_aspectRatio :=
         Some (match Generate.aspectRatio a with Some r => r | None => ratio_1_1 end);
       req_quality := Some (match Generate.quality a with Some q => q | None => high end);
       req_seed := Generate.seed a;
       req_model := Generate.model a |} in
  generation_failure (generateImage w (io l) request) = Some e ->
  handleGenerateImage lib w cost a l
  = ({| io := io l ++ [EvGenerate request]; invoked := invoked l |},
     inl (Error ("Failed to generate image: " ++ message e))).
Proof.
  intros Hp request Hfail. rewrite handleGenerateImage_run, Hp. cbv zeta. fold request.
  destruct (generateImage w (io l) request) as [e0|r].
  - injection Hfail as ->. reflexivity.
  - rewrite Hfail. reflexivity.
Qed.

(** X22. When generate_image returns, its schema accepted the prompt (the
    empty one included), the generator was called once and answered a
    success with a URL or a path, and the suggested filename is the slug of
    the prompt, a hyphen, the clock read after the generation and [.png]. *)
Theorem generate_suggests_the_slug_of_the_prompt lib w cost a l l' envelope :
  handleGenerateImage lib w cost a l = (l', inr envelope) ->
  exists prompt request answer,
    Generate.prompt a = Some prompt
    /\ req_prompt request = prompt
    /\ l' = {| io := io l ++ [EvGenerate request]; invoked := invoked l |}
    /\ generateImage w (io l) request = inr answer
    /\ res_success answer = true
    /\ (Js.truthy (res_imageUrl answer) = true \/ Js.truthy (res_localPath answer) = true)
    /\ Generate.out_imageUrl envelope = res_imageUrl answer
    /\ Generate.out_localPath envelope = res_localPath answer
    /\ Generate.out_suggestedFilename envelope
       = Slug.slug prompt ++ "-" ++ Js.of_Z (Date_now w (io l')) ++ ".png"
    /\ Generate.out_downloadTip envelope
       = "To save: Right-click and 'Save as' → Use filename: "
         ++ Generate.out_suggestedFilename envelope.
Proof.
  rewrite handleGenerateImage_run.
  destruct (Generate.prompt a) as [prompt|]; [|discriminate]. cbv zeta.
  match goal with |- context [generateImage w (io l) ?q] =>
    set (request := q); destruct (generateImage w (io l) request) as [e|r] eqn:Hg end;
    [discriminate|].
  unfold generation_failure.
  destruct (res_success r) eqn:Hs; simpl negb; cbn [orb]; [|discriminate].
  destruct (Js.truthy (res_imageUrl r)) eqn:Hu; simpl negb; cbn [andb].
  - intros [= <- <-]. exists prompt, request, r. repeat split; auto.
  - destruct (Js.truthy (res_localPath r)) eqn:Hp; simpl negb; [|discriminate].
    intros [= <- <-]. exists prompt, request, r. repeat split; auto.
Qed.

(** ** The call handler *)

(** X23. A call of a name that is not registered (and is not a property of
    [Object.prototype]) fails with [Unknown tool: ] and the name, not
    wrapped as a failed execution, and without any call. *)
Theorem unknown_tool_is_refused_unwrapped lib w cost name args :
  registered name = None ->
  inherited name = false ->
  exists run,
    callTool lib w cost name args = Some run
    /\ forall l, run l = (l, inl (Error ("Unknown tool: " ++ name))).
Proof.
  intros Hr Hi. unfold callTool. rewrite Hr, Hi. eexists. split; reflexivity.
Qed.

Lemma callTool_registered lib w cost name tool args :
  registered name = Some tool ->
  exists run,
    callTool lib w cost name args = Some run
    /\ forall l,
         run l
         = match run_tool lib w cost tool
                   (match args with Some a => a | None => no_arguments end) l with
           | (l', inl e) => (l', inl (Error ("Tool execution failed: " ++ message e)))
           | (l', inr r) => (l', inr r)
           end.
Proof.
  intros Hr. unfold callTool. rewrite Hr. eexists. split; [reflexivity|].
  intros l. unfold try_catch, throw. destruct (run_tool _ _ _ _ _ l) as [l' [e|r]]; reflexivity.
Qed.

Lemma handleCreatePackage_error lib w a l e :
  snd (handleCreatePackage lib w a l) = inl e ->
  exists text, e = Error ("NFT package creation failed: " ++ text).
Proof.
  rewrite handleCreatePackage_run.
  destruct (Package.parse lib a) as [e0|parsed]; [intros [= <-]; eexists; reflexivity|].
  destruct (resolve_image w parsed l) as [l1 [e0|src]]; [intros [= <-]; eexists; reflexivity|].
  destruct (upload_image lib w parsed src l1) as [l2 [e0|[uploadData imageCid]]];
    [intros [= <-]; eexists; reflexivity|].
  destruct (create_metadata _ _ _ _ _ _ l2) as [l3 [e0|r]];
    [intros [= <-]; eexists; reflexivity | discriminate].
Qed.

(** X24. Called through the call handler, build_complete leaves the same
    log and returns the same package; its errors come out as
    [Tool execution failed: NFT package creation failed: ...]. *)
Theorem build_complete_through_the_call_handler lib w cost args :
  exists run,
    callTool lib w cost "nft_pipeline_build_complete" (Some args) = Some run
    /\ (forall l,
          run l
          = match handleCreatePackage lib w (package_tool_args args) l with
            | (l', inl e) => (l', inl (Error ("Tool execution failed: " ++ message e)))
            | (l', inr envelope) => (l', inr (Packaged envelope))
            end)
    /\ (forall l e,
          snd (handleCreatePackage lib w (package_tool_args args) l) = inl e ->
          exists text,
            snd (run l)
            = inl (Error ("Tool execution failed: NFT package creation failed: " ++ text))).
Proof.
  destruct (callTool_registered lib w cost "nft_pipeline_build_complete" BuildComplete
              (Some args) eq_refl) as (run & Hcall & Hrun).
  exists run. split; [exact Hcall|].
  assert (Heq : forall l,
    run l = match handleCreatePackage lib w (package_tool_args args) l with
            | (l', inl e) => (l', inl (Error ("Tool execution failed: " ++ message e)))
            | (l', inr envelope) => (l', inr (Packaged envelope))
            end).
  { intros l. rewrite Hrun. unfold run_tool, bind, ret.
    destruct (handleCreatePackage _ _ _ l) as [l' [e|envelope]]; reflexivity. }
  split; [exact Heq|].
  intros l e He. destruct (handleCreatePackage_error _ _ _ _ _ He) as [text ->].
  exists text. rewrite Heq.
  destruct (handleCreatePackage _ _ _ l) as [l' [e'|r]]; simpl in He; [|discriminate].
  injection He as ->. reflexivity.
Qed.

(** X25. A call of any registered tool without [arguments] is run on the
    empty object, which every schema refuses: it fails as a failed
    execution and leaves the log as it was. *)
Theorem a_call_without_arguments_fails_before_any_call lib w cost name tool :
  registered name = Some tool ->
  exists run text,
    callTool lib w cost name None = Some run
    /\ forall l, run l = (l, inl (Error ("Tool execution failed: " ++ text))).
Proof.
  intros Hr.
  destruct (callTool_registered lib w cost name tool None Hr) as (run & Hcall & Hrun).
  exists run.
  destruct tool; eexists; (split; [exact Hcall|]); intros l; rewrite Hrun;
    unfold run_tool, bind.
  - rewrite handleGenerateImage_run. reflexivity.
  - rewrite handleUploadToIPFS_run. reflexivity.
  - rewrite handleCreateMetadata_run. reflexivity.
  - rewrite handleCreatePackage_run. reflexivity.
Qed.

(** * The further properties at work *)

Module MoreExamples.
Import Double.

Lemma dragon_1_is_its_own_slug : Slug.slug "dragon-1" = "dragon-1".
Proof. apply slug_keeps_a_slug; [reflexivity | reflexivity | simpl; lia]. Defined.

Lemma symbols_have_an_empty_slug : Slug.slug "#!?" = "" <-> no_alnum "#!?" = true.
Proof.
  apply (slug_is_empty_exactly_without_letters_and_digits "#!?"). reflexivity.
Defined.

Lemma symbols_give_a_bare_timestamp :
  upload_fileName Fixture.symbols_parsed 1700000000000 = "-1700000000000.png".
Proof.
  apply (symbols_only_name_gives_a_bare_timestamp Fixture.symbols_parsed 1700000000000);
    [reflexivity | discriminate | reflexivity].
Defined.

Lemma upload_of_nothing_is_refused :
  handleUploadToIPFS lib world (upload_request None None None) start
  = (start,
     inl (Error "IPFS upload failed: Either imageUrl or imagePath must be provided")).
Proof.
  exact (proj2 (upload_without_source_fails_before_any_call lib world
                  (upload_request None None None) start eq_refl eq_refl)).
Defined.

(** The image server answers 403: the storage is not contacted, and the
    error speaks of Pinata. *)
Lemma refused_fetch_is_reported_as_pinata :
  handleUploadToIPFS lib
    (Fixture.world_of (inr fox) (inl forbidden) (inr "PNG") (inr None) (inr None))
    (upload_request (Some "http://x/fox.png") None None) start
  = ({| io := [EvGet "http://x/fox.png"]; invoked := [] |},
     inl (Error (auth_403_message "{}"))).
Proof.
  apply (failed_fetch_is_never_followed_by_an_upload lib
           (Fixture.world_of (inr fox) (inl forbidden) (inr "PNG") (inr None) (inr None))
           (upload_request (Some "http://x/fox.png") None None) start
           "http://x/fox.png" forbidden);
    [reflexivity | discriminate | reflexivity | reflexivity].
Defined.

Lemma missing_file_is_never_uploaded :
  handleUploadToIPFS lib
    (Fixture.world_of (inr fox) (inr "PNG") (inl Fixture.not_found) (inr None) (inr None))
    (upload_request None (Some "/tmp/missing.png") None) start
  = ({| io := [EvReadFile "/tmp/missing.png"]; invoked := [] |},
     inl (Error "IPFS upload failed: ENOENT: no such file or directory")).
Proof.
  apply (failed_read_is_never_followed_by_an_upload lib
           (Fixture.world_of (inr fox) (inr "PNG") (inl Fixture.not_found) (inr None)
              (inr None))
           (upload_request None (Some "/tmp/missing.png") None) start
           "/tmp/missing.png" Fixture.not_found);
    [reflexivity | discriminate | reflexivity | reflexivity | reflexivity].
Defined.

Lemma url_and_path_upload_never_reads :
  appends (fun ev => is_read ev = false) (fun _ => False)
    (handleUploadToIPFS lib world
       (upload_request (Some "http://x/fox.png") (Some "/tmp/other.png") None)).
Proof.
  apply (upload_with_a_url_never_reads_a_file lib world
           (upload_request (Some "http://x/fox.png") (Some "/tmp/other.png") None)).
  reflexivity.
Defined.

Lemma filebase_is_refused_after_the_fetch :
  handleUploadToIPFS lib Fixture.unknown_service_world
    (Fixture.keyed_upload None (Some "k")) start
  = ({| io := [EvGet "http://x/fox.png"]; invoked := [] |},
     inl (Error "IPFS upload failed: Unsupported IPFS service: filebase")).
Proof.
  apply (unsupported_service_is_found_after_the_fetch lib Fixture.unknown_service_world
           (Fixture.keyed_upload None (Some "k")) start "http://x/fox.png" "PNG" "/fox.png");
    [reflexivity | reflexivity | discriminate | reflexivity | reflexivity | reflexivity].
Defined.

Lemma explicit_nft_storage_and_key_are_used :
  appends (fun ev => match ev with
                     | EvPost url _ authorization =>
                         url = "https://api.nft.storage/upload" /\ authorization = "Bearer k"
                     | _ => True
                     end)
          (fun _ => False)
          (handleUploadToIPFS lib world (Fixture.keyed_upload (Some nftStorage) (Some "k"))).
Proof.
  apply (explicit_service_and_key_override_the_environment lib world
           (Fixture.keyed_upload (Some nftStorage) (Some "k")) nftStorage "k");
    [reflexivity | reflexivity | discriminate].
Defined.

Lemma nameless_metadata_is_refused :
  handleCreateMetadata lib world Fixture.nameless_metadata start
  = (start, inl (Error "Metadata creation failed: Required")).
Proof.
  apply (metadata_without_a_required_field_fails_before_any_call lib world
           Fixture.nameless_metadata start).
  left. reflexivity.
Defined.

Lemma refused_metadata_post_is_reported :
  snd (handleCreateMetadata lib metadata_refused metadata_request start)
  = inl (Error (auth_403_message "{}")).
Proof.
  apply (metadata_failed_post_is_reported_with_its_body lib metadata_refused metadata_request
           start pinata forbidden);
    [reflexivity | reflexivity | discriminate | reflexivity].
Defined.

Lemma refused_image_post_is_reported :
  snd (handleUploadToIPFS lib image_refused
         (upload_request (Some "http://x/fox.png") None None) start)
  = inl (Error (auth_403_message "{}")).
Proof.
  apply (upload_failed_post_is_reported_with_its_body lib image_refused
           (upload_request (Some "http://x/fox.png") None None) start pinata
           "http://x/fox.png" "PNG" "/fox.png" forbidden);
    [reflexivity | reflexivity | discriminate | reflexivity | reflexivity | reflexivity
    | reflexivity].
Defined.

Lemma failed_generation_stops_the_fox :
  handleCreatePackage lib
    (Fixture.world_of (inr Fixture.failed_generation) (inr "PNG") (inr "PNG")
       (inr None) (inr None))
    fox_request start
  = ({| io := [EvGenerate {| req_prompt := "a red fox"; req_style := None;
                             req_aspectRatio := Some ratio_1_1; req_quality := Some high;
                             req_seed := None; req_model := None |}];
        invoked := [] |},
     inl (Error "NFT package creation failed: quota exceeded")).
Proof.
  let parsed := eval lazy in (Package.parse lib fox_request) in
  match parsed with
  | inr ?p =>
      exact (failed_generation_stops_the_run lib
               (Fixture.world_of (inr Fixture.failed_generation) (inr "PNG") (inr "PNG")
                  (inr None) (inr None))
               fox_request start p "a red fox" (Error "quota exceeded")
               eq_refl eq_refl eq_refl)
  end.
Defined.

Lemma fox_package_echoes_the_generated_prompt :
  exists l' result,
    handleCreatePackage lib world fox_request start = (l', inr result)
    /\ exists request answer,
         req_prompt request = "a red fox"
         /\ generateImage world (io start) request = inr answer
         /\ Package.out_generatedPrompt result = Some (res_prompt answer).
Proof.
  eexists _, _. split; [lazy; reflexivity|].
  eapply (generated_prompt_is_returned_exactly_after_a_generation lib world fox_request start);
    lazy; reflexivity.
Defined.

Lemma fox_package_without_metadata_cid :
  exists l3 result,
    handleCreatePackage lib (world_with env (inr (Some "abc123")) (inr None)) fox_request start
    = (l3, inr result)
    /\ Package.out_success result = true
    /\ Package.out_metadataCid result = None
    /\ Package.out_ipfsMetadataUrl result = "ipfs://undefined".
Proof.
  eapply (missing_metadata_cid_is_returned_as_success lib
            (world_with env (inr (Some "abc123")) (inr None)) fox_request start);
    lazy; reflexivity.
Defined.

Lemma fox_package_is_coherent :
  exists l' result,
    handleCreatePackage lib world fox_request start = (l', inr result)
    /\ Package.out_ipfsImageUrl result = "ipfs://abc123"
    /\ md_image (Package.out_metadata result) = Package.out_ipfsImageUrl result
    /\ Some (md_name (Package.out_metadata result)) = Package.name fox_request.
Proof.
  eexists _, _. split; [lazy; reflexivity|]. split; [reflexivity|].
  split;
    eapply (returned_package_is_coherent_with_the_request lib world fox_request start);
    lazy; reflexivity.
Defined.

Lemma url_request_uploads_fox_png :
  exists rest,
    io (fst (handleCreatePackage lib world url_request start))
    = ([] ++ EvGet "http://x/fox.png"
          :: EvPost "https://uploads.pinata.cloud/v3/files"
               {| form_file := Bytes "PNG"; form_filename := "fox.png";
                  form_network := Some "public" |}
               "Bearer jwt"
          :: rest)%list.
Proof.
  eapply (build_complete_uploads_under_the_name_in_the_url lib world url_request start _ pinata
            "http://x/fox.png" "PNG" "/fox.png");
    try (lazy; reflexivity).
  discriminate.
Defined.

Lemma generate_of_nothing_is_refused :
  handleGenerateImage lib world Fixture.no_cost (Fixture.generate_request None) start
  = (start, inl (Error "Failed to generate image: Required")).
Proof.
  apply (generate_without_prompt_fails_before_any_call lib world Fixture.no_cost
           (Fixture.generate_request None) start).
  reflexivity.
Defined.

Lemma generate_reports_the_quota :
  snd (handleGenerateImage lib
         (Fixture.world_of (inr Fixture.failed_generation) (inr "PNG") (inr "PNG")
            (inr None) (inr None))
         Fixture.no_cost (Fixture.generate_request (Some "a red fox")) start)
  = inl (Error "Failed to generate image: quota exceeded").
Proof.
  rewrite (generate_reports_a_failed_generation lib
             (Fixture.world_of (inr Fixture.failed_generation) (inr "PNG") (inr "PNG")
                (inr None) (inr None))
             Fixture.no_cost (Fixture.generate_request (Some "a red fox")) start
             "a red fox" (Error "quota exceeded") eq_refl eq_refl).
  reflexivity.
Defined.

Lemma generated_fox_is_named_after_its_prompt :
  exists l' envelope,
    handleGenerateImage lib world Fixture.no_cost
      (Fixture.generate_request (Some "a red fox")) start = (l', inr envelope)
    /\ Generate.out_suggestedFilename envelope = "a-red-fox-1700000000000.png".
Proof.
  eexists _, _. split; [lazy; reflexivity|].
  destruct (generate_suggests_the_slug_of_the_prompt lib world Fixture.no_cost
              (Fixture.generate_request (Some "a red fox")) start _ _ eq_refl)
    as (prompt & request & answer & _).
  reflexivity.
Defined.

(** The name that the test client calls is not the registered one. *)
Lemma nft_generate_image_is_unknown :
  exists run,
    callTool lib world Fixture.no_cost "nft_generate_image" None = Some run
    /\ forall l, run l = (l, inl (Error "Unknown tool: nft_generate_image")).
Proof.
  apply (unknown_tool_is_refused_unwrapped lib world Fixture.no_cost "nft_generate_image" None);
    reflexivity.
Defined.

Lemma upload_tool_without_arguments_fails :
  exists run text,
    callTool lib world Fixture.no_cost "nft_pipeline_upload_to_ipfs" None = Some run
    /\ forall l, run l = (l, inl (Error ("Tool execution failed: " ++ text))).
Proof.
  apply (a_call_without_arguments_fails_before_any_call lib world Fixture.no_cost
           "nft_pipeline_upload_to_ipfs" UploadToIPFS).
  reflexivity.
Defined.

End MoreExamples.
